(** * Don't Mess with Cthulhu: the rules engine of [cthulhu_game.py]

    A shallow embedding of the classes [Card], [PlayerGameData], [Player]
    and [Game], and proofs about dealing, revealing, the flashlight and
    win evaluation.

    Python objects are mutable and shared by reference, so the embedding
    keeps an explicit store: [pobjs] holds the [Player] objects and [cobjs]
    the [Card] objects of the deck, both addressed by position; the roster,
    the deck, the discard and every hand hold addresses.  A method is a
    computation in a state-and-exception monad; an exception keeps the
    store as it was when it was raised, as in Python. *)

From Stdlib Require Import ZArith String DecimalString.
From stdpp Require Import base tactics option list numbers.

Local Open Scope string_scope.
Local Open Scope nat_scope.
Local Open Scope list_scope.

(** ** Data model *)

(** Address of an object in the store. *)
Abbreviation addr := nat (only parsing).

(** The exceptions the code raises, or Python raises on its behalf. *)
Inductive Exn :=
| GameError (message : string)
| AttributeError
| IndexError
| ValueError.

(** [Player.status] takes the literals "Idle", "Playing", "Spectating". *)
Inductive Status := Idle | Playing | Spectating.

(** [Game.game_status] takes "Unstarted", "Ongoing", "Ended". *)
Inductive GameStatus := Unstarted | Ongoing | Ended.

(** [Game.phase] takes "Claims", "Investigation". *)
Inductive Phase := Claims | Investigation.

(** Roles and winners are the literals "Investigator", "Cultist". *)
Inductive Role := Investigator | Cultist.

#[global] Instance Status_eq_dec : EqDecision Status.
Proof. solve_decision. Defined.
#[global] Instance GameStatus_eq_dec : EqDecision GameStatus.
Proof. solve_decision. Defined.
#[global] Instance Phase_eq_dec : EqDecision Phase.
Proof. solve_decision. Defined.
#[global] Instance Role_eq_dec : EqDecision Role.
Proof. solve_decision. Defined.

(** class Card: the title read from the card data file and the face-up
    flag.  The description and the symbol only feed the display. *)
Record Card := mkCard {
  title : string;
  is_flipped : bool
}.

(** class PlayerGameData.  [cards] holds addresses of deck cards; a claim
    is a list of cards made for the occasion, never shared. *)
Record PlayerGameData := mkPlayerGameData {
  role : Role;
  cards : list addr;
  can_claim : bool;
  claim : option (list Card);
  has_flashlight : bool
}.

(** class Player (the nickname and the statistics are not used by the
    rules). [game_data] is [None] until the player starts playing. *)
Record Player := mkPlayer {
  p_id : nat;
  status : Status;
  game_data : option PlayerGameData
}.

(** The store and the attributes of the one [Game] object.  An attribute
    that [Game.__init__] does not set is [None] until it is assigned;
    reading it before raises AttributeError. *)
Record State := mkState {
  pobjs : list Player;
  cobjs : list Card;
  players : list addr;
  game_status : GameStatus;
  round_counter : option nat;
  phase : option Phase;
  turn : option nat;
  deck : option (list addr);
  discard : option (list addr);
  winner : option Role
}.

#[global] Instance Player_inhabited : Inhabited Player :=
  populate (mkPlayer 0 Idle None).
#[global] Instance Card_inhabited : Inhabited Card :=
  populate (mkCard "Null" false).

Definition set_pobjs (f : list Player -> list Player) (w : State) : State :=
  mkState (f (pobjs w)) (cobjs w) (players w) (game_status w)
          (round_counter w) (phase w) (turn w) (deck w) (discard w) (winner w).
Definition set_cobjs (f : list Card -> list Card) (w : State) : State :=
  mkState (pobjs w) (f (cobjs w)) (players w) (game_status w)
          (round_counter w) (phase w) (turn w) (deck w) (discard w) (winner w).
Definition set_players (l : list addr) (w : State) : State :=
  mkState (pobjs w) (cobjs w) l (game_status w)
          (round_counter w) (phase w) (turn w) (deck w) (discard w) (winner w).
Definition set_game_status (s : GameStatus) (w : State) : State :=
  mkState (pobjs w) (cobjs w) (players w) s
          (round_counter w) (phase w) (turn w) (deck w) (discard w) (winner w).
Definition set_round_counter (n : nat) (w : State) : State :=
  mkState (pobjs w) (cobjs w) (players w) (game_status w)
          (Some n) (phase w) (turn w) (deck w) (discard w) (winner w).
Definition set_phase (p : Phase) (w : State) : State :=
  mkState (pobjs w) (cobjs w) (players w) (game_status w)
          (round_counter w) (Some p) (turn w) (deck w) (discard w) (winner w).
Definition set_turn (n : nat) (w : State) : State :=
  mkState (pobjs w) (cobjs w) (players w) (game_status w)
          (round_counter w) (phase w) (Some n) (deck w) (discard w) (winner w).
Definition set_deck (d : list addr) (w : State) : State :=
  mkState (pobjs w) (cobjs w) (players w) (game_status w)
          (round_counter w) (phase w) (turn w) (Some d) (discard w) (winner w).
Definition set_discard (d : list addr) (w : State) : State :=
  mkState (pobjs w) (cobjs w) (players w) (game_status w)
          (round_counter w) (phase w) (turn w) (deck w) (Some d) (winner w).
Definition set_winner (r : Role) (w : State) : State :=
  mkState (pobjs w) (cobjs w) (players w) (game_status w)
          (round_counter w) (phase w) (turn w) (deck w) (discard w) (Some r).

(** ** The monad of methods *)

(** Outcome of a call: a value, an exception (with the store as the raise
    left it), or no outcome because a loop never ends. *)
Inductive Res (A : Type) :=
| Ok (a : A) (w : State)
| Raise (e : Exn) (w : State)
| Diverge.
Arguments Ok {A} a w.
Arguments Raise {A} e w.
Arguments Diverge {A}.

Definition M (A : Type) : Type := State -> Res A.

Definition ret {A} (a : A) : M A := fun w => Ok a w.
Definition bind {A B} (m : M A) (k : A -> M B) : M B :=
  fun w => match m w with
           | Ok a w' => k a w'
           | Raise e w' => Raise e w'
           | Diverge => Diverge
           end.
Definition raise {A} (e : Exn) : M A := fun w => Raise e w.
Definition diverge {A} : M A := fun _ => Diverge.
Definition gets {A} (f : State -> A) : M A := fun w => Ok (f w) w.
Definition modify (f : State -> State) : M unit := fun w => Ok tt (f w).

Declare Scope method_scope.
Delimit Scope method_scope with method.
Notation "x <- m ;; k" := (bind m (fun x => k))
  (at level 20, m at level 99, k at level 200) : method_scope.
Notation "m ;; k" := (bind m (fun _ => k))
  (at level 100, k at level 200, right associativity) : method_scope.
Local Open Scope method_scope.

(** Reading an attribute that may not have been assigned yet. *)
Definition attr {A} (f : State -> option A) : M A :=
  fun w => match f w with
           | Some a => Ok a w
           | None => Raise AttributeError w
           end.

(** [for x in l: body x] *)
Fixpoint for_each {A} (l : list A) (body : A -> M unit) : M unit :=
  match l with
  | [] => ret tt
  | x :: l' => body x ;; for_each l' body
  end.

(** [for _ in range(n): body] *)
Fixpoint repeat_n (n : nat) (body : M unit) : M unit :=
  match n with
  | O => ret tt
  | S n' => body ;; repeat_n n' body
  end.

(** The random draws of one call: what [random.shuffle] does to the list
    of roles and to the deck, and the number behind [random.choice]. *)
Record Random := mkRandom {
  shuffle_roles : list Role -> list Role;
  shuffle_cards : list addr -> list addr;
  choice : nat
}.

(** A Python dict from strings to counts, as [hand_summary] uses one: a
    dict keeps its keys in the order in which they were first set. *)
Definition Dict : Type := list (string * nat).

(** [k in d] *)
Definition dict_has (k : string) (d : Dict) : bool :=
  existsb (fun e => String.eqb k e.1) d.

(** [d[k] += 1], for a key that is in [d]. *)
Definition dict_incr (k : string) (d : Dict) : Dict :=
  map (fun e => if String.eqb k e.1 then (e.1, e.2 + 1) else e) d.

(** [d[k] = v], for a key that is not in [d]. *)
Definition dict_new (k : string) (v : nat) (d : Dict) : Dict := d ++ [(k, v)].

(** [str(n)], the decimal digits of a count. *)
Definition str_nat (n : nat) : string :=
  NilEmpty.string_of_uint (Nat.to_uint n).

Section Game.

(** ** class Card *)

(** The title that [Card.__init__] finds for a card type in the file
    card_information/card_data.txt ("Null" when no line matches); the file
    is not part of the sources. *)
Variable card_title : string -> string.

(** The pair (investigators, cultists) that [make_roles] finds for a
    player count in roles/role_info.txt, if any; the file is not part of
    the sources. *)
Variable role_info : nat -> option (nat * nat).

Definition Card_init (ctype : string) : Card :=
  {| title := card_title ctype; is_flipped := false |}.

Definition card_flip_up (c : Card) : Card :=
  {| title := title c; is_flipped := true |}.

Definition card_at (c : addr) : M Card := gets (fun w => cobjs w !!! c).

(** [card.flip_up()] on the card object at address [c]. *)
Definition flip_up (c : addr) : M unit :=
  modify (set_cobjs (alter card_flip_up c)).

(** ** class Player *)

Definition PlayerGameData_init (r : Role) : PlayerGameData :=
  {| role := r; cards := []; can_claim := false; claim := None;
     has_flashlight := false |}.

Definition Player_init (player_id : nat) : Player :=
  {| p_id := player_id; status := Idle; game_data := None |}.

Definition player_at (p : addr) : M Player := gets (fun w => pobjs w !!! p).

Definition upd_player (p : addr) (f : Player -> Player) : M unit :=
  modify (set_pobjs (alter f p)).

(** [p.game_data], for a following attribute access: AttributeError when
    it is [None]. *)
Definition the_game_data (p : addr) : M PlayerGameData :=
  pl <- player_at p ;;
  match game_data pl with
  | Some gd => ret gd
  | None => raise AttributeError
  end.

Definition with_game_data (gd : PlayerGameData) (pl : Player) : Player :=
  {| p_id := p_id pl; status := status pl; game_data := Some gd |}.
Definition with_status (s : Status) (pl : Player) : Player :=
  {| p_id := p_id pl; status := s; game_data := game_data pl |}.

Definition set_cards (l : list addr) (gd : PlayerGameData) :=
  {| role := role gd; cards := l; can_claim := can_claim gd;
     claim := claim gd; has_flashlight := has_flashlight gd |}.
Definition set_can_claim (b : bool) (gd : PlayerGameData) :=
  {| role := role gd; cards := cards gd; can_claim := b;
     claim := claim gd; has_flashlight := has_flashlight gd |}.
Definition set_the_claim (c : list Card) (gd : PlayerGameData) :=
  {| role := role gd; cards := cards gd; can_claim := can_claim gd;
     claim := Some c; has_flashlight := has_flashlight gd |}.
Definition set_has_flashlight (b : bool) (gd : PlayerGameData) :=
  {| role := role gd; cards := cards gd; can_claim := can_claim gd;
     claim := claim gd; has_flashlight := b |}.

(** [p.game_data.<field> = ...]: read [game_data], then write the field. *)
Definition upd_game_data (p : addr) (f : PlayerGameData -> PlayerGameData)
  : M unit :=
  gd <- the_game_data p ;;
  upd_player p (with_game_data (f gd)).

(** Player.start_playing *)
Definition start_playing (p : addr) (r : Role) : M unit :=
  upd_player p (with_game_data (PlayerGameData_init r)) ;;
  upd_player p (with_status Playing) ;;
  upd_game_data p (set_can_claim true).

(** Player.give_card *)
Definition give_card (p : addr) (c : addr) : M unit :=
  upd_game_data p (fun gd => set_cards (cards gd ++ [c]) gd).

(** Player.set_claim *)
Definition player_set_claim (p : addr) (cl : list Card) : M unit :=
  gd <- the_game_data p ;;
  if negb (can_claim gd) then raise (GameError "You cannot claim right now.")
  else
    upd_game_data p (set_the_claim cl) ;;
    upd_game_data p (set_can_claim false).

(** Truth value of the argument [pos]: [None] and [0] are false. *)
Definition truthy (pos : option Z) : bool :=
  match pos with
  | Some z => negb (z =? 0)%Z
  | None => false
  end.

(** [l[i]] for a Python list: a negative index counts from the end, an
    index out of range is [None] (IndexError). *)
Definition py_index {A} (l : list A) (i : Z) : option A :=
  if (0 <=? i)%Z then l !! Z.to_nat i
  else if (- Z.of_nat (length l) <=? i)%Z
       then l !! Z.to_nat (Z.of_nat (length l) + i)
       else None.

(** The loop of [reveal_card]: flip the first card that is face-down. *)
Fixpoint flip_first (cs : list addr) : M unit :=
  match cs with
  | [] => raise (GameError "All cards are faceup!")
  | c :: cs' =>
      card <- card_at c ;;
      if negb (is_flipped card) then flip_up c
      else flip_first cs'
  end.

(** Player.reveal_card *)
Definition reveal_card (p : addr) (pos : option Z) : M unit :=
  if truthy pos then
    gd <- the_game_data p ;;
    match py_index (cards gd) (default 0%Z pos) with
    | None => raise IndexError
    | Some c =>
        card <- card_at c ;;
        if negb (is_flipped card) then raise (GameError "No card to flip!")
        else flip_up c
    end
  else
    gd <- the_game_data p ;;
    flip_first (cards gd).

(** Player.toggle_flashlight *)
Definition toggle_flashlight (p : addr) : M unit :=
  upd_game_data p (fun gd => set_has_flashlight (negb (has_flashlight gd)) gd).

(** Player.start_spectating *)
Definition start_spectating (p : addr) : M unit :=
  upd_player p (with_status Spectating).

(** The first loop of [hand_summary]: count the cards of each title. *)
Fixpoint count_titles (cs : list addr) (hand : Dict) : M Dict :=
  match cs with
  | [] => ret hand
  | c :: cs' =>
      card <- card_at c ;;
      if dict_has (title card) hand
      then count_titles cs' (dict_incr (title card) hand)
      else count_titles cs' (dict_new (title card) 1 hand)
  end.

(** ["{} {}(s), ".format(hand[card_type], card_type)] *)
Definition summary_entry (e : string * nat) : string :=
  (str_nat e.2 ++ " " ++ e.1 ++ "(s), ")%string.

(** Player.hand_summary *)
Definition hand_summary (p : addr) : M string :=
  pl <- player_at p ;;
  match game_data pl with
  | None => raise (GameError "It appears this player isn't in a game.")
  | Some gd =>
      hand <- count_titles (cards gd) [] ;;
      ret (foldl (fun contents e => (contents ++ summary_entry e)%string)
                 EmptyString hand)
  end.

(** Player.role_summary *)
Definition role_summary (p : addr) : M Role :=
  pl <- player_at p ;;
  if bool_decide (status pl <> Playing)
  then raise (GameError "Not currently playing a game.")
  else gd <- the_game_data p ;; ret (role gd).

(** ** class Game *)

(** Game.__init__, in a store that holds [n] players as [Player.__init__]
    leaves them. *)
Definition Game_init (n : nat) : State :=
  {| pobjs := map Player_init (seq 0 n); cobjs := [];
     players := []; game_status := Unstarted;
     round_counter := None; phase := None; turn := None;
     deck := None; discard := None; winner := None |}.

Definition is_playing (w : State) (p : addr) : Prop :=
  status (pobjs w !!! p) = Playing.

#[global] Instance is_playing_dec w p : Decision (is_playing w p).
Proof. unfold is_playing. apply _. Defined.

(** Game.get_active_players *)
Definition active (w : State) : list addr :=
  filter (is_playing w) (players w).
Definition get_active_players : M (list addr) := gets active.

(** Game.count_active_players: the sum of the truth values. *)
Definition count_active (w : State) : nat :=
  sum_list (map (fun p => if decide (is_playing w p) then 1 else 0)
                (players w)).
Definition count_active_players : M nat := gets count_active.

(** Game.get_spectators *)
Definition spectators (w : State) : list addr :=
  filter (fun p => status (pobjs w !!! p) = Spectating) (players w).
Definition get_spectators : M (list addr) := gets spectators.

(** The loops of [get_current_player]: the first of the players whose game
    data has the flag [flag] set, [None] when the loop runs out. *)
Fixpoint first_with (flag : PlayerGameData -> bool) (ps : list addr)
  : M (option addr) :=
  match ps with
  | [] => ret None
  | p :: ps' =>
      gd <- the_game_data p ;;
      if flag gd then ret (Some p) else first_with flag ps'
  end.

(** Game.get_current_player *)
Definition get_current_player : M (option addr) :=
  ph <- attr phase ;;
  if bool_decide (ph = Claims) then
    ps <- get_active_players ;; first_with can_claim ps
  else if bool_decide (ph = Investigation) then
    ps <- get_active_players ;; first_with has_flashlight ps
  else ret None.

(** Game.add_player *)
Definition add_player (p : addr) (playing : bool) : M unit :=
  gs <- gets game_status ;;
  if bool_decide (gs <> Unstarted) && playing
  then raise (GameError "The game has already started.")
  else
    ps <- gets players ;;
    pl <- player_at p ;;
    if bool_decide (p ∈ ps) && bool_decide (status pl = Playing)
    then raise (GameError "You're already in this game.")
    else if bool_decide (p ∈ ps) && bool_decide (status pl = Spectating)
    then raise (GameError "You're already spectating this game.")
    else
      upd_player p (with_status (if playing then Playing else Spectating)) ;;
      modify (fun w => set_players (players w ++ [p]) w).

(** [l.remove(x)]: drop the first occurrence. *)
Fixpoint remove_first (x : addr) (l : list addr) : list addr :=
  match l with
  | [] => []
  | y :: l' => if decide (x = y) then l' else y :: remove_first x l'
  end.

(** Game.remove_player *)
Definition remove_player (p : addr) : M unit :=
  ps <- gets players ;;
  if bool_decide (p ∈ ps)
  then modify (set_players (remove_first p ps))
  else raise (GameError "You weren't in the game.").

(** [l.index(x)] *)
Fixpoint index_of (x : addr) (l : list addr) : option nat :=
  match l with
  | [] => None
  | y :: l' => if decide (x = y) then Some 0 else S <$> index_of x l'
  end.

(** Game.get_next_player: the loop walks the roster cyclically from the
    seat after [p]; it ends at the first player who is playing, and never
    ends when nobody is. *)
Definition get_next_player (p : addr) : M addr :=
  ps <- gets players ;;
  match index_of p ps with
  | None => raise ValueError
  | Some ind =>
      w <- gets id ;;
      match filter (is_playing w) (drop (S ind) ps ++ take (S ind) ps) with
      | q :: _ => ret q
      | [] => diverge
      end
  end.

(** Game.make_roles *)
Definition make_roles (r : Random) : M (list Role) :=
  n_players <- count_active_players ;;
  match role_info n_players with
  | None => raise (GameError "Failed to find a role setup.")
  | Some (n_investigators, n_cultists) =>
      ret (shuffle_roles r (replicate n_investigators Investigator
                            ++ replicate n_cultists Cultist))
  end.

(** [self.deck.append(Card(ctype=...))]: the new card object goes to the
    end of the store and its address to the end of the deck. *)
Definition deck_append_new (ctype : string) : M unit :=
  d <- attr deck ;;
  c <- gets (fun w => length (cobjs w)) ;;
  modify (set_cobjs (fun l => l ++ [Card_init ctype])) ;;
  modify (set_deck (d ++ [c])).

(** Game.create_deck *)
Definition create_deck : M unit :=
  modify (set_deck []) ;;
  modify (set_discard []) ;;
  n_players <- count_active_players ;;
  (if 8 <? n_players then deck_append_new "Cthulhu" else ret tt) ;;
  deck_append_new "Cthulhu" ;;
  repeat_n n_players (deck_append_new "Elder Sign") ;;
  d <- attr deck ;;
  repeat_n (n_players * 5 - length d) (deck_append_new "Blank").

(** [self.deck.pop()]: the last card of the deck. *)
Definition deck_pop : M addr :=
  d <- attr deck ;;
  match list.last d with
  | None => raise IndexError
  | Some c => modify (set_deck (removelast d)) ;; ret c
  end.

(** [p.give_card(self.deck.pop())] *)
Definition deal_one (p : addr) : M unit :=
  c <- deck_pop ;; give_card p c.

(** The while loop of [deal_cards].  A pass of the inner loop takes a card
    for each active player; with a card left and nobody to deal to, the
    loop never ends.  [fuel] bounds the passes; one more than the deck
    size is never used up when somebody is playing. *)
Fixpoint deal_loop (fuel : nat) : M unit :=
  match fuel with
  | O => diverge
  | S fuel' =>
      d <- attr deck ;;
      if 0 <? length d then
        ps <- get_active_players ;;
        for_each ps deal_one ;;
        deal_loop fuel'
      else ret tt
  end.

(** Game.deal_cards *)
Definition deal_cards (r : Random) : M unit :=
  d <- attr deck ;;
  modify (set_deck (shuffle_cards r d)) ;;
  d' <- attr deck ;;
  deal_loop (S (length d')).

(** The loop of [start_game] over [enumerate(self.get_active_players())]. *)
Fixpoint assign_roles (roles : list Role) (i : nat) (ps : list addr)
  : M unit :=
  match ps with
  | [] => ret tt
  | p :: ps' =>
      match roles !! i with
      | None => raise IndexError
      | Some ro => start_playing p ro ;; assign_roles roles (S i) ps'
      end
  end.

(** Game.start_game *)
Definition start_game (r : Random) : M unit :=
  gs <- gets game_status ;;
  if bool_decide (gs <> Unstarted)
  then raise (GameError "This game has already been started.")
  else
    roles <- make_roles r ;;
    ps <- get_active_players ;;
    assign_roles roles 0 ps ;;
    create_deck ;;
    deal_cards r ;;
    ps' <- get_active_players ;;
    match ps' !! (choice r mod length ps') with
    | None => raise IndexError
    | Some p => toggle_flashlight p
    end ;;
    modify (set_game_status Ongoing) ;;
    modify (set_round_counter 1) ;;
    modify (set_phase Claims) ;;
    modify (set_turn 1).

(** The loop of [check_winner] over the chained cards, with its two
    counters. *)
Fixpoint scan_cards (cs : list addr) (cards_revealed signs_found : nat)
  : M (nat * nat) :=
  match cs with
  | [] => ret (cards_revealed, signs_found)
  | c :: cs' =>
      card <- card_at c ;;
      if is_flipped card then
        if String.eqb (title card) "Cthulhu" then
          modify (set_winner Cultist) ;;
          scan_cards cs' (cards_revealed + 1) signs_found
        else if String.eqb (title card) "Elder Sign" then
          scan_cards cs' (cards_revealed + 1) (signs_found + 1)
        else scan_cards cs' (cards_revealed + 1) signs_found
      else scan_cards cs' cards_revealed signs_found
  end.

(** [[p.game_data.cards for p in ps]] *)
Fixpoint hands_of (ps : list addr) : M (list (list addr)) :=
  match ps with
  | [] => ret []
  | p :: ps' =>
      gd <- the_game_data p ;;
      hs <- hands_of ps' ;;
      ret (cards gd :: hs)
  end.

(** Game.check_winner *)
Definition check_winner : M unit :=
  ps <- get_active_players ;;
  revealed <- hands_of ps ;;
  ds <- attr discard ;;
  counts <- scan_cards (concat (revealed ++ [ds])) 0 0 ;;
  n <- count_active_players ;;
  if n <=? snd counts then modify (set_winner Investigator)
  else
    n' <- count_active_players ;;
    if n' * 4 <=? fst counts then modify (set_winner Cultist)
    else ret tt.

(** Game.new_phase *)
Definition new_phase : M unit :=
  modify (set_phase Investigation) ;;
  modify (set_turn 1) ;;
  ps <- get_active_players ;;
  for_each ps (fun p => upd_game_data p (set_can_claim true)).

(** The inner loop of [new_round]: a card goes to the discard when it is
    face-up and back to the deck when it is not. *)
Definition return_card (c : addr) : M unit :=
  card <- card_at c ;;
  if is_flipped card then
    ds <- attr discard ;; modify (set_discard (ds ++ [c]))
  else
    d <- attr deck ;; modify (set_deck (d ++ [c])).

(** The body of the outer loop of [new_round]. *)
Definition recollect (p : addr) : M unit :=
  gd <- the_game_data p ;;
  for_each (cards gd) return_card ;;
  upd_game_data p (set_cards []) ;;
  gd' <- the_game_data p ;;
  if has_flashlight gd' then upd_game_data p (set_can_claim true)
  else upd_game_data p (set_can_claim false).

(** Game.new_round *)
Definition new_round (r : Random) : M unit :=
  modify (set_phase Claims) ;;
  modify (set_turn 1) ;;
  ps <- get_active_players ;;
  for_each ps recollect ;;
  deal_cards r.

(** Game.new_turn *)
Definition new_turn (r : Random) : M unit :=
  check_winner ;;
  t <- attr turn ;;
  modify (set_turn (t + 1)) ;;
  t' <- attr turn ;;
  n <- count_active_players ;;
  if n <? t' then
    ph <- attr phase ;;
    if bool_decide (ph = Claims) then new_phase else new_round r
  else ret tt.

(** Game.set_claim *)
Definition set_claim (p : addr) (blank elder cthulhu : nat) (r : Random)
  : M unit :=
  let cl := replicate blank (Card_init "Blank")
            ++ replicate elder (Card_init "Elder Sign")
            ++ replicate cthulhu (Card_init "Cthulhu") in
  player_set_claim p cl ;;
  ph <- attr phase ;;
  if bool_decide (ph = Claims) then
    q <- get_next_player p ;;
    upd_game_data q (set_can_claim true) ;;
    new_turn r
  else ret tt.

(** Game.investigate *)
Definition investigate (user target : addr) (pos : option Z) (r : Random)
  : M unit :=
  gd <- the_game_data user ;;
  if negb (has_flashlight gd)
  then raise (GameError "Must have the flashlight to investigate!")
  else
    upd_game_data user (set_has_flashlight false) ;;
    reveal_card target pos ;;
    upd_game_data target (set_has_flashlight true) ;;
    new_turn r.

(** Game.end_game *)
Definition end_game : M unit := modify (set_game_status Ended).

(** ** Calls from outside *)

(** One call of a method of the game, with the player objects it is
    given and the random draws it makes. *)
Inductive Op :=
| AddPlayer (p : addr) (playing : bool)
| RemovePlayer (p : addr)
| StartGame (r : Random)
| SetClaim (p : addr) (blank elder cthulhu : nat) (r : Random)
| Investigate (user target : addr) (pos : option Z) (r : Random)
| EndGame.

Definition call (op : Op) : M unit :=
  match op with
  | AddPlayer p playing => add_player p playing
  | RemovePlayer p => remove_player p
  | StartGame r => start_game r
  | SetClaim p b e c r => set_claim p b e c r
  | Investigate u t pos r => investigate u t pos r
  | EndGame => end_game
  end.

(** The store a call leaves, whether it returned or raised. *)
Definition after {A} (res : Res A) : option State :=
  match res with
  | Ok _ w => Some w
  | Raise _ w => Some w
  | Diverge => None
  end.

(** A run of calls; the caller goes on after an exception. *)
Fixpoint run (ops : list Op) (w : State) : option State :=
  match ops with
  | [] => Some w
  | op :: ops' =>
      match after (call op w) with
      | Some w' => run ops' w'
      | None => None
      end
  end.

(** A shuffle rearranges its list. *)
Definition fair (r : Random) : Prop :=
  (forall l, shuffle_roles r l ≡ₚ l) /\ (forall l, shuffle_cards r l ≡ₚ l).

Definition op_random (op : Op) : option Random :=
  match op with
  | StartGame r | SetClaim _ _ _ _ r | Investigate _ _ _ r => Some r
  | _ => None
  end.

Definition op_players (op : Op) : list addr :=
  match op with
  | AddPlayer p _ | RemovePlayer p | SetClaim p _ _ _ _ => [p]
  | Investigate u t _ _ => [u; t]
  | _ => []
  end.

(** A call names player objects that exist and draws fair shuffles. *)
Definition op_ok (w : State) (op : Op) : Prop :=
  (forall p, p ∈ op_players op -> p < length (pobjs w)) /\
  (forall r, op_random op = Some r -> fair r).

(** The states of a game, from its construction on, when every call is
    one that [allowed] admits. *)
Inductive reachable_by (allowed : State -> Op -> Prop) : State -> Prop :=
| reach_init n : reachable_by allowed (Game_init n)
| reach_call w op w' :
    reachable_by allowed w -> op_ok w op -> allowed w op ->
    after (call op w) = Some w' ->
    reachable_by allowed w'.

(** The states of a game under any calls. *)
Definition reachable : State -> Prop := reachable_by (fun _ _ => True).

(** Calls that remove no active player from a game that has started. *)
Definition stays (w : State) (op : Op) : Prop :=
  match op with
  | RemovePlayer p => game_status w = Unstarted \/ p ∉ active w
  | _ => True
  end.

(** [start_game] has run to its end: it alone sets the round counter. *)
Definition started (w : State) : Prop := is_Some (round_counter w).

End Game.

(** ** Views of a state *)

Definition gd_at (w : State) (p : addr) : option PlayerGameData :=
  game_data (pobjs w !!! p).

(** The hand of a player; empty for a player without game data. *)
Definition hand (w : State) (p : addr) : list addr :=
  match gd_at w p with
  | Some gd => cards gd
  | None => []
  end.

Definition face_up (w : State) (c : addr) : bool := is_flipped (cobjs w !!! c).
Definition title_at (w : State) (c : addr) : string := title (cobjs w !!! c).

Definition holds_flashlight (pl : Player) : bool :=
  match game_data pl with
  | Some gd => has_flashlight gd
  | None => false
  end.

(** The first face-down card of a list, in list order. *)
Definition first_face_down (w : State) (cs : list addr) : option addr :=
  head (filter (fun c => face_up w c = false) cs).

(** What [check_winner] looks at: the hands of the active players, then
    the discard. *)
Definition chained (w : State) : list addr :=
  concat (map (hand w) (active w)) ++ default [] (discard w).

Definition up_cthulhu (w : State) (c : addr) : bool :=
  face_up w c && String.eqb (title_at w c) "Cthulhu".
Definition up_sign (w : State) (c : addr) : bool :=
  face_up w c && String.eqb (title_at w c) "Elder Sign".

Definition count_if (f : addr -> bool) (l : list addr) : nat :=
  length (filter (fun c => f c = true) l).

Definition cthulhu_revealed (w : State) : bool := existsb (up_cthulhu w) (chained w).
Definition signs_revealed (w : State) : nat := count_if (up_sign w) (chained w).
Definition cards_revealed (w : State) : nat := count_if (face_up w) (chained w).

(** The winner [check_winner] writes, if it writes one: the test on the
    Elder Signs comes after the scan and has the last word. *)
Definition decided (w : State) : option Role :=
  if count_active w <=? signs_revealed w then Some Investigator
  else if cthulhu_revealed w || (count_active w * 4 <=? cards_revealed w)
       then Some Cultist
       else None.

(** All deck cards that are somewhere in play: deck, discard and the hands
    of the active players. *)
Definition pool (w : State) : list addr :=
  default [] (deck w) ++ default [] (discard w)
  ++ concat (map (hand w) (active w)).

(** A game in play: the active players are distinct objects with game
    data, and the two piles exist. *)
Definition in_play (w : State) : Prop :=
  NoDup (active w) /\
  (forall p, p ∈ active w -> is_Some (gd_at w p)) /\
  is_Some (deck w) /\ is_Some (discard w).

(** The card types [create_deck] makes for [n] players, in deck order. *)
Definition deck_types (n : nat) : list string :=
  (if 8 <? n then ["Cthulhu"] else []) ++ ["Cthulhu"]
  ++ replicate n "Elder Sign"
  ++ replicate (n * 5 - (n + if 8 <? n then 2 else 1)) "Blank".

(** The state after [Card] objects of the given types have been made and
    appended to the deck. *)
Definition grow (card_title : string -> string) (cts : list string)
  (w : State) : State :=
  set_deck (default [] (deck w) ++ seq (length (cobjs w)) (length cts))
    (set_cobjs (fun l => l ++ map (Card_init card_title) cts) w).

(** ** Reasoning about calls *)

(** [wp m w Q E D]: from [w], the call [m] returns a value and a state
    that satisfy [Q], or raises in a state that satisfies [E]; [D] holds if
    it never ends. *)
Definition wp {A} (m : M A) (w : State) (Q : A -> State -> Prop)
  (E : State -> Prop) (D : Prop) : Prop :=
  match m w with
  | Ok a w' => Q a w'
  | Raise _ w' => E w'
  | Diverge => D
  end.

(** [post m w Q]: whatever [m] leaves behind from [w], by return or by
    exception, satisfies [Q]. *)
Definition post {A} (m : M A) (w : State) (Q : State -> Prop) : Prop :=
  wp m w (fun _ => Q) Q True.

(** [m] keeps the invariant [I]. *)
Definition keeps {A} (I : State -> Prop) (m : M A) : Prop :=
  forall w, I w -> post m w I.

(** [m] leaves the view [view] of the state as it is. *)
Definition stable {V A} (view : State -> V) (m : M A) : Prop :=
  forall v, keeps (fun w => view w = v) m.

(** Who sits at the table: the roster, each player's status and whether
    the player has game data, the number of cards made, the game status
    and the round counter. *)
Definition seats (w : State) :=
  (players w, map status (pobjs w),
   map (fun pl => bool_decide (is_Some (game_data pl))) (pobjs w),
   length (cobjs w), game_status w, round_counter w).

(** Who holds the flashlight. *)
Definition lights (w : State) : list bool := map holds_flashlight (pobjs w).

(** Where the cards lie. *)
Definition layout (w : State) :=
  (map (fun pl => cards <$> game_data pl) (pobjs w), deck w, discard w).

(** The whole table: seats, flashlight, cards. *)
Definition board (w : State) := (seats w, lights w, layout w).

(** The table without the cards. *)
Definition table (w : State) := (seats w, lights w).

(** The table without the flashlight. *)
Definition spread (w : State) := (seats w, layout w).

(** The cards of a game in play with active players [A]: the pool is a
    rearrangement of [X]. *)
Definition Cards (A X : list addr) (w : State) : Prop :=
  active w = A /\ in_play w /\ pool w ≡ₚ X.

(** The player object at [p] holds the flashlight. *)
Definition lit (w : State) (p : addr) : Prop :=
  holds_flashlight (pobjs w !!! p) = true.

(** Nobody holds the flashlight. *)
Definition dark (w : State) : Prop := forall p, ~ lit w p.

(** At most one player object holds the flashlight. *)
Definition one_light (w : State) : Prop :=
  forall p q, lit w p -> lit w q -> p = q.

(** The flashlight invariant of a game: no flashlight before the start,
    at most one after. *)
Definition Lit (w : State) : Prop :=
  one_light w /\ (game_status w = Unstarted -> dark w).

(** Before the start nobody holds the flashlight, and no method but
    [toggle_flashlight] could change that. *)
Definition Dark (w : State) : Prop := dark w /\ game_status w = Unstarted.

(** [m] returns from [w], in a state that satisfies [Q]. *)
Definition returns {A} (m : M A) (w : State) (Q : State -> Prop) : Prop :=
  wp m w (fun _ => Q) (fun _ => False) False.

(** What dealing leaves alone. *)
Definition undealt (w : State) := (seats w, discard w, cobjs w).

(** [m] comes to an end from [w], by return or by exception, and what it
    leaves satisfies [Q]. *)
Definition ends {A} (m : M A) (w : State) (Q : State -> Prop) : Prop :=
  wp m w (fun _ => Q) Q False.

(** A player as [start_playing] leaves it. *)
Definition seated (ro : Role) (pl : Player) : Player :=
  {| p_id := p_id pl; status := Playing;
     game_data := Some (set_can_claim true (PlayerGameData_init ro)) |}.

(** A player with game data and an empty hand. *)
Definition blank (w : State) (p : addr) : Prop :=
  exists gd, gd_at w p = Some gd /\ cards gd = [].

(** [w'] is [w] up to the players' game data. *)
Definition reseated (w w' : State) : Prop :=
  w' = set_pobjs (fun _ => pobjs w') w /\
  map status (pobjs w') = map status (pobjs w).

(** The role file has no set-up for the active players, or too few
    roles. *)
Definition no_setup (role_info : nat -> option (nat * nat)) (w : State)
  : Prop :=
  match role_info (count_active w) with
  | None => True
  | Some (ni, nc) => ni + nc < count_active w
  end.

(** What a successful [start_game] leaves: everybody still at the table,
    the freshly made cards all dealt, five to each active player. *)
Definition dealt_from (card_title : string -> string) (w w' : State)
  : Prop :=
  active w <> [] /\
  game_status w' = Ongoing /\ round_counter w' = Some 1 /\
  players w' = players w /\
  map status (pobjs w') = map status (pobjs w) /\
  active w' = active w /\ in_play w' /\
  cobjs w' = cobjs w
             ++ map (Card_init card_title) (deck_types (count_active w)) /\
  deck w' = Some [] /\ discard w' = Some [] /\
  (forall p, p ∈ active w -> length (hand w' p) = 5) /\
  concat (map (hand w') (active w))
    ≡ₚ seq (length (cobjs w)) (5 * count_active w).

(** The invariant of a game: the roster holds distinct players, none of
    them idle; no card is made before the start; after it the cards made
    are five for each active player and the pool holds each of them
    once. *)
Definition Sound (w : State) : Prop :=
  NoDup (players w) /\
  (forall p, p ∈ players w -> status (pobjs w !!! p) <> Idle) /\
  match round_counter w with
  | None => cobjs w = []
  | Some _ =>
      game_status w <> Unstarted /\
      Cards (active w) (seq 0 (length (cobjs w))) w /\
      length (cobjs w) = 5 * count_active w
  end.

(** ** Views for the summaries *)

#[global] Instance string_eq_dec : EqDecision string := String.string_dec.

(** The distinct strings of a list, in the order of their first
    occurrence. *)
Fixpoint distinct (l : list string) : list string :=
  match l with
  | [] => []
  | t :: l' => t :: filter (fun u => u <> t) (distinct l')
  end.

(** How often [t] occurs in [l]. *)
Definition occurrences (t : string) (l : list string) : nat :=
  length (filter (fun u => u = t) l).

(** The titles of a hand listed: each distinct title once, with the number
    of its cards before it. *)
Definition listing (l : list string) : string :=
  String.concat EmptyString
    (map (fun t => summary_entry (t, occurrences t l)) (distinct l)).

(** ** More views *)

(** How far the game has come: its status and the round counter. *)
Definition clock (w : State) := (game_status w, round_counter w).

(** The roster holds distinct players, none of them idle. *)
Definition Roster (w : State) : Prop :=
  NoDup (players w) /\
  forall p, p ∈ players w -> status (pobjs w !!! p) <> Idle.

(** The role of each player object that has game data. *)
Definition roles_of (w : State) : list (option Role) :=
  map (fun pl => role <$> game_data pl) (pobjs w).

(** The claim of each player object that has game data. *)
Definition claims_of (w : State) : list (option (option (list Card))) :=
  map (fun pl => claim <$> game_data pl) (pobjs w).

(** What turns, phases and rounds leave alone: the roles, the claims and
    the card objects. *)
Definition fixed (w : State) := (roles_of w, claims_of w, cobjs w).

(** The card objects of [w] are still there in [w'], with their titles,
    and those that were face-up are face-up. *)
Definition ages (w w' : State) : Prop :=
  length (cobjs w) <= length (cobjs w') /\
  forall c, c < length (cobjs w) ->
    title_at w' c = title_at w c /\
    (face_up w c = true -> face_up w' c = true).

(** [w'] is [w] up to the claim of [p], the flags of the players and the
    piles: same roles, same card objects, same claims of the others. *)
Definition same_but_claim (p : addr) (w w' : State) : Prop :=
  roles_of w' = roles_of w /\ cobjs w' = cobjs w /\
  forall q, q <> p -> claims_of w' !! q = claims_of w !! q.

(** [w'] is [w] with more cards face-up, up to the flags of the players
    and the piles: same roles, same claims. *)
Definition turned (w w' : State) : Prop :=
  roles_of w' = roles_of w /\ claims_of w' = claims_of w /\ ages w w'.

(** A player without the hand: identity, status, role, claim and flags. *)
Definition persona (pl : Player) :=
  (p_id pl, status pl,
   (fun gd => (role gd, can_claim gd, claim gd, has_flashlight gd))
     <$> game_data pl).

(** [w] is [w0] up to the hands of the players who are active in [w0], the
    piles, the card objects and the attributes of the game. *)
Definition dealt_to (w0 w : State) : Prop :=
  players w = players w0 /\
  map persona (pobjs w) = map persona (pobjs w0) /\
  forall q, q ∉ active w0 -> pobjs w !!! q = pobjs w0 !!! q.

(** The player object at [p] may claim. *)
Definition may_claim (w : State) (p : addr) : Prop :=
  (can_claim <$> gd_at w p) = Some true.

#[global] Instance may_claim_dec w p : Decision (may_claim w p).
Proof. unfold may_claim. apply _. Defined.

(** The player object at [p] may claim exactly if it holds the
    flashlight. *)
Definition settled (w : State) (p : addr) : Prop :=
  exists gd, gd_at w p = Some gd /\ can_claim gd = has_flashlight gd.

(** Where the game is in the round: the phase and the turn. *)
Definition tempo (w : State) := (phase w, turn w).

(** ** Exceptions *)

(** [m] raises only exceptions that satisfy [P]. *)
Definition raises_only {A} (P : Exn -> Prop) (m : M A) : Prop :=
  forall w e w', m w = Raise e w' -> P e.

(** The exceptions that Python raises on its own: all but GameError. *)
Definition internal (e : Exn) : Prop := forall msg, e <> GameError msg.

(** [w'] is [w] after a deal of [k] cards to each active player and of
    one more to each of the first [rem] of them, in seat order, with the
    deck used up. *)
Definition dealt_out (k rem : nat) (w w' : State) : Prop :=
  undealt w' = undealt w /\ deck w' = Some [] /\
  (forall i p, active w !! i = Some p ->
     length (hand w' p)
     = length (hand w p) + k + (if i <? rem then 1 else 0)) /\
  (forall p, p ∉ active w -> hand w' p = hand w p).

(** The phase that follows a phase. *)
Definition other_phase (ph : Phase) : Phase :=
  match ph with Claims => Investigation | Investigation => Claims end.

(** Who may claim: the flag of each player object that has game data. *)
Definition flags (w : State) : list (option bool) :=
  map (fun pl => can_claim <$> game_data pl) (pobjs w).

(** The cards of a game in play between two rounds: as [Cards], with the
    deck dealt out. *)
Definition Stowed (A X : list addr) (w : State) : Prop :=
  Cards A X w /\ deck w = Some [].

(** The attributes that [start_game] and the turns write and
    [check_winner] needs: the phase, the discard and the winner. *)
Definition unset (w : State) := (phase w, discard w, winner w).

(** None of them is set. *)
Definition Unset (w : State) : Prop := unset w = (None, None, None).

(** ** Checking a run *)

(** [stays], decided. *)
Definition staysb (w : State) (op : Op) : bool :=
  match op with
  | RemovePlayer p =>
      bool_decide (game_status w = Unstarted) || bool_decide (p ∉ active w)
  | _ => true
  end.

(** The calls of a run name player objects that exist and, when [strict],
    remove no active player from a started game. *)
Fixpoint checked (card_title : string -> string)
  (role_info : nat -> option (nat * nat)) (strict : bool)
  (ops : list Op) (w : State) : bool :=
  match ops with
  | [] => true
  | op :: ops' =>
      forallb (fun p => p <? length (pobjs w)) (op_players op)
      && (negb strict || staysb w op)
      && match after (call card_title role_info op w) with
         | Some w' => checked card_title role_info strict ops' w'
         | None => true
         end
  end.

(** The shuffles of a run are fair. *)
Fixpoint all_fair (ops : list Op) : Prop :=
  match ops with
  | [] => True
  | op :: ops' => (forall r, op_random op = Some r -> fair r) /\ all_fair ops'
  end.

(** [in_play], decided. *)
Definition in_playb (w : State) : bool :=
  bool_decide (NoDup (active w))
  && forallb (fun p => bool_decide (is_Some (gd_at w p))) (active w)
  && bool_decide (is_Some (deck w))
  && bool_decide (is_Some (discard w)).

(** ** A sample game *)

Module Sample.

(** A card data file whose titles are the card types. *)
Definition titles (ctype : string) : string := ctype.

(** A role file with set-ups for three to five players. *)
Definition roles_tbl (n : nat) : option (nat * nat) :=
  match n with
  | 3 => Some (2, 2)
  | 4 => Some (3, 2)
  | 5 => Some (4, 2)
  | _ => None
  end.

(** Shuffles that leave the list as it is, or reverse it. *)
Definition in_order : Random := mkRandom (fun l => l) (fun l => l) 0.
Definition reversed : Random := mkRandom (fun l => l) (@rev addr) 0.

Definition play (ops : list Op) (n : nat) : State :=
  default (Game_init 0) (run titles roles_tbl ops (Game_init n)).

(** Three players join and the game starts; the deck is dealt from its
    Cthulhu end, so that player 0 holds cards 0, 3, 6, 9, 12. *)
Definition joining : list Op :=
  [AddPlayer 0 true; AddPlayer 1 true; AddPlayer 2 true; StartGame reversed].

Definition claiming : list Op :=
  [SetClaim 0 4 1 0 in_order; SetClaim 1 4 1 0 in_order;
   SetClaim 2 4 1 0 in_order].

(** The state after the three claims: round 1, investigation, turn 1,
    player 0 holds the flashlight. *)
Definition claimed : State := Eval vm_compute in play (joining ++ claiming) 4.

(** An investigation with the deck left in order if it comes to a redeal. *)
Definition look (user target : addr) (pos : option Z) : Op :=
  Investigate user target pos in_order.

(** Player 0 looks at the own hand twice (the Cthulhu card 0, the Elder
    Sign 3). *)
Definition two_up_ops : list Op :=
  joining ++ claiming ++ [look 0 0 None; look 0 0 None].
Definition two_up : State := Eval vm_compute in play two_up_ops 4.

(** Then at player 1 (the Elder Sign 1): the round ends, the three cards
    go to the discard and the other twelve are dealt again. *)
Definition first_round : list Op := two_up_ops ++ [look 0 1 None].
Definition redealt : State := Eval vm_compute in play first_round 4.

(** In round 2, after the claims, player 1 looks at the own hand twice
    (the Blank 11, the Elder Sign 2). *)
Definition overruled_ops : list Op :=
  first_round
  ++ [SetClaim 1 4 0 0 in_order; SetClaim 2 4 0 0 in_order;
      SetClaim 0 4 0 0 in_order]
  ++ [look 1 1 None; look 1 1 None].
Definition overruled : State := Eval vm_compute in play overruled_ops 4.

(** Player 2 is removed at the start of round 2. *)
Definition short_ops : list Op := first_round ++ [RemovePlayer 2].
Definition short : State := Eval vm_compute in play short_ops 4.

(** A round in which every player claims and player 0, who holds the
    flashlight, looks at the own hand [k] times. *)
Definition own_round (k : nat) : list Op :=
  [SetClaim 0 1 0 0 in_order; SetClaim 1 1 0 0 in_order;
   SetClaim 2 1 0 0 in_order]
  ++ replicate k (look 0 0 None).

(** Three such rounds, and two looks of round 4, in which a hand is two
    cards: both cards of player 0 are face-up. *)
Definition worn_ops : list Op :=
  joining ++ own_round 3 ++ own_round 3 ++ own_round 3 ++ own_round 2.
Definition worn : State := Eval vm_compute in play worn_ops 4.

(** Two players, and five players, before the start. *)
Definition two_joined : State :=
  Eval vm_compute in play [AddPlayer 0 true; AddPlayer 1 true] 2.
Definition five_joined_ops : list Op :=
  [AddPlayer 0 true; AddPlayer 1 true; AddPlayer 2 true; AddPlayer 3 true;
   AddPlayer 4 true].
Definition five_joined : State := Eval vm_compute in play five_joined_ops 5.

(** Three players have joined. *)
Definition three_joined : State :=
  Eval vm_compute in
    play [AddPlayer 0 true; AddPlayer 1 true; AddPlayer 2 true] 4.

(** The game has started: round 1, claims. *)
Definition dealt : State := Eval vm_compute in play joining 4.

(** A fourth player watches the game. *)
Definition watched_ops : list Op := joining ++ [AddPlayer 3 false].
Definition watched : State := Eval vm_compute in play watched_ops 4.

(** After the claims player 0 looks at the own hand once, or at player
    1's. *)
Definition one_up : State :=
  Eval vm_compute in play (joining ++ claiming ++ [look 0 0 None]) 4.
Definition passed : State :=
  Eval vm_compute in play (joining ++ claiming ++ [look 0 1 None]) 4.

(** After the claims player 0 looks at position 1 of player 1's hand: the
    call raises. *)
Definition dimmed : State :=
  Eval vm_compute in play (joining ++ claiming ++ [look 0 1 (Some 1%Z)]) 4.

(** A new round straight after the claims, and a turn counted. *)
Definition reclaimed : State :=
  Eval vm_compute in
    default (Game_init 0) (after (new_round in_order claimed)).
Definition ticked : State :=
  Eval vm_compute in
    default (Game_init 0) (after (new_turn in_order claimed)).

(** The hands of [two_up] collected: thirteen cards in the deck, and the
    state in which the deal of them ends. *)
Definition gathered : State :=
  Eval vm_compute in
    default (Game_init 0) (after (for_each (active two_up) recollect two_up)).
Definition uneven : State :=
  Eval vm_compute in
    default (Game_init 0) (after (deal_cards in_order gathered)).

(** A role file with a set-up for an empty table. *)
Definition roles_zero (n : nat) : option (nat * nat) :=
  match n with
  | 0 => Some (0, 0)
  | _ => roles_tbl n
  end.

(** After the start player 0, who holds the flashlight, claims first. *)
Definition first_claim : State :=
  Eval vm_compute in play (joining ++ [SetClaim 0 4 1 0 in_order]) 4.

(** In [overruled] player 1, who holds the flashlight, looks at player 2's
    hand: the third investigation of the round, and a new round. *)
Definition third_look : State :=
  Eval vm_compute in play (overruled_ops ++ [look 1 2 None]) 4.

(** An investigation in the Claims phase: player 0, who holds the
    flashlight, looks at player 1 before anybody has claimed; players 1
    and 2 claim, which ends the Claims phase; player 1 looks at the own
    hand twice.  Nobody is removed and no position is given. *)
Definition early_look_ops : list Op :=
  joining
  ++ [look 0 1 None; SetClaim 1 4 1 0 in_order; SetClaim 2 4 1 0 in_order;
      look 1 1 None; look 1 1 None].
Definition early_look : State := Eval vm_compute in play early_look_ops 4.

End Sample.

(** * Proofs *)

Section Proofs.
Variable card_title : string -> string.
Variable role_info : nat -> option (nat * nat).

(** ** Player.reveal_card *)

Lemma alter_fixed `{!Inhabited A} (f : A -> A) (l : list A) (i : nat) :
  f (l !!! i) = l !!! i -> alter f i l = l.
Proof.
  revert i. induction l as [|x l IH]; intros [|i] H; simpl in *; try done.
  - by rewrite H.
  - f_equal. by apply IH.
Qed.

Lemma flip_first_spec (w : State) (cs : list addr) :
  flip_first cs w =
    match first_face_down w cs with
    | Some c => Ok tt (set_cobjs (alter card_flip_up c) w)
    | None => Raise (GameError "All cards are faceup!") w
    end.
Proof.
  induction cs as [|c cs IH]; [done|].
  unfold first_face_down in *. cbn [flip_first].
  unfold bind, card_at, gets. rewrite filter_cons.
  case_decide as Hd; unfold face_up in Hd.
  - by rewrite Hd.
  - apply not_false_is_true in Hd. rewrite Hd. apply IH.
Qed.

Lemma reveal_card_falsy (p : addr) (pos : option Z) (w : State) :
  truthy pos = false ->
  reveal_card p pos w =
    match gd_at w p with
    | None => Raise AttributeError w
    | Some gd =>
        match first_face_down w (cards gd) with
        | Some c => Ok tt (set_cobjs (alter card_flip_up c) w)
        | None => Raise (GameError "All cards are faceup!") w
        end
    end.
Proof.
  intros H. unfold reveal_card. rewrite H.
  unfold bind, the_game_data, player_at, gets, gd_at, bind.
  destruct (game_data (pobjs w !!! p)); [|done].
  unfold ret. apply flip_first_spec.
Qed.

(** C10: when the hand holds a face-down card, [reveal_card] with position
    0 is the call without a position: the first face-down card in hand
    order is flipped, whatever the card at index 0 is. *)
Theorem reveal_card_position_zero (p : addr) (w : State) :
  (exists c, c ∈ hand w p /\ face_up w c = false) ->
  reveal_card p (Some 0%Z) w = reveal_card p None w /\
  exists c, first_face_down w (hand w p) = Some c /\
            reveal_card p (Some 0%Z) w
            = Ok tt (set_cobjs (alter card_flip_up c) w).
Proof.
  intros (c & Hin & Hdown). split.
  { by rewrite !reveal_card_falsy. }
  rewrite reveal_card_falsy by done. unfold hand in *.
  destruct (gd_at w p) as [gd|]; [|by apply elem_of_nil in Hin].
  destruct (first_face_down w (cards gd)) as [c'|] eqn:E; [by eauto|].
  exfalso. unfold first_face_down in E.
  apply head_None in E.
  assert (c ∈ filter (fun c => face_up w c = false) (cards gd)) as Hc
    by (by apply list_elem_of_filter).
  rewrite E in Hc. by apply elem_of_nil in Hc.
Qed.

(** The positional branch never changes anything. *)
Lemma reveal_card_truthy_same (p : addr) (pos : option Z) (w : State) :
  truthy pos = true -> post (reveal_card p pos) w (fun w' => w' = w).
Proof.
  intros H. unfold post, wp, reveal_card. rewrite H.
  unfold bind, the_game_data, player_at, gets, bind, card_at, gets.
  destruct (game_data (pobjs w !!! p)) as [gd|]; [|done]. unfold ret.
  destruct (py_index _ _) as [c|]; [|done].
  destruct (is_flipped (cobjs w !!! c)) eqn:E; simpl; [|done].
  unfold flip_up, modify, set_cobjs.
  rewrite alter_fixed; [by destruct w|].
  unfold card_flip_up. destruct (cobjs w !!! c); simpl in *. by subst.
Qed.

(** ** Game.check_winner *)

Lemma count_if_cons (f : addr -> bool) (c : addr) (l : list addr) :
  count_if f (c :: l) = (if f c then 1 else 0) + count_if f l.
Proof.
  unfold count_if. rewrite filter_cons.
  destruct (f c); case_decide; simpl; congruence.
Qed.

Lemma set_winner_twice (r r' : Role) (w : State) :
  set_winner r (set_winner r' w) = set_winner r w.
Proof. done. Qed.

Lemma scan_cards_spec (cs : list addr) (n k : nat) (w : State) :
  scan_cards cs n k w =
    Ok (n + count_if (face_up w) cs, k + count_if (up_sign w) cs)
       (if existsb (up_cthulhu w) cs then set_winner Cultist w else w).
Proof.
  revert n k w. induction cs as [|c cs IH]; intros n k w.
  { cbn. unfold ret, count_if. simpl. by rewrite !Nat.add_0_r. }
  cbn [scan_cards existsb]. rewrite !count_if_cons.
  unfold bind at 1, card_at, gets.
  change (up_cthulhu w c) with
    (is_flipped (cobjs w !!! c) && String.eqb (title (cobjs w !!! c)) "Cthulhu").
  change (up_sign w c) with
    (is_flipped (cobjs w !!! c)
     && String.eqb (title (cobjs w !!! c)) "Elder Sign").
  change (face_up w c) with (is_flipped (cobjs w !!! c)).
  destruct (is_flipped (cobjs w !!! c)); simpl.
  2:{ by rewrite IH. }
  destruct (String.eqb (title (cobjs w !!! c)) "Cthulhu") eqn:Ec; simpl.
  - apply String.eqb_eq in Ec. rewrite Ec. simpl.
    unfold bind, modify. rewrite IH.
    change (face_up (set_winner Cultist w)) with (face_up w).
    change (up_sign (set_winner Cultist w)) with (up_sign w).
    change (up_cthulhu (set_winner Cultist w)) with (up_cthulhu w).
    rewrite set_winner_twice.
    replace (n + 1 + count_if (face_up w) cs)
      with (n + (1 + count_if (face_up w) cs)) by lia.
    by destruct (existsb _ _).
  - destruct (String.eqb (title (cobjs w !!! c)) "Elder Sign");
      rewrite IH; do 2 f_equal; lia.
Qed.

Lemma hands_of_spec (ps : list addr) (w : State) :
  (forall p, p ∈ ps -> is_Some (gd_at w p)) ->
  hands_of ps w = Ok (map (hand w) ps) w.
Proof.
  induction ps as [|p ps IH]; intros H; [done|].
  cbn [hands_of map]. unfold bind, the_game_data, player_at, gets, bind, hand at 1.
  destruct (H p) as [gd Hgd]; [by left|]. unfold gd_at in *. rewrite Hgd.
  unfold ret. rewrite IH; [done|]. intros q Hq. apply H. by right.
Qed.

Lemma check_winner_spec (w : State) :
  (forall p, p ∈ active w -> is_Some (gd_at w p)) -> is_Some (discard w) ->
  check_winner w =
    Ok tt (match decided w with Some r => set_winner r w | None => w end).
Proof.
  intros Hgd [ds Hds]. unfold check_winner, bind at 1, get_active_players, gets.
  unfold bind at 1. rewrite hands_of_spec by done.
  unfold bind at 1, attr. rewrite Hds.
  unfold bind at 1. rewrite scan_cards_spec.
  rewrite concat_app. simpl. rewrite app_nil_r.
  unfold decided, signs_revealed, cards_revealed, cthulhu_revealed, chained.
  rewrite Hds. simpl.
  set (cs := concat (map (hand w) (active w)) ++ ds).
  unfold bind, count_active_players, gets, modify, ret.
  destruct (existsb (up_cthulhu w) cs); simpl;
    change (count_active (set_winner Cultist w)) with (count_active w);
    repeat (case_match; simpl); try done.
Qed.

(** C1, as amended: with a Cthulhu card face-up, [check_winner] leaves
    Cultist as the winner when fewer Elder Signs are face-up than players
    are active, and Investigator when the Elder Signs reach that count. *)
Theorem check_winner_cthulhu_then_signs (w : State) :
  (forall p, p ∈ active w -> is_Some (gd_at w p)) ->
  is_Some (discard w) ->
  cthulhu_revealed w = true ->
  exists w', check_winner w = Ok tt w' /\
    winner w' = if count_active w <=? signs_revealed w
                then Some Investigator else Some Cultist.
Proof.
  intros Hgd Hds Hc. rewrite check_winner_spec by done.
  unfold decided. rewrite Hc. simpl.
  destruct (count_active w <=? signs_revealed w); eauto.
Qed.

(** ** Game.create_deck *)

Lemma grow_nil (w : State) : is_Some (deck w) -> grow card_title [] w = w.
Proof.
  intros [d Hd]. destruct w; simpl in *. subst.
  unfold grow, set_deck, set_cobjs; simpl. by rewrite !app_nil_r.
Qed.

Lemma grow_grow (a b : list string) (w : State) :
  grow card_title b (grow card_title a w) = grow card_title (a ++ b) w.
Proof.
  destruct w. unfold grow, set_deck, set_cobjs; simpl.
  rewrite map_app, !length_app, length_map, seq_app, !app_assoc. done.
Qed.

Lemma deck_append_new_spec (ct : string) (w : State) :
  is_Some (deck w) ->
  deck_append_new card_title ct w = Ok tt (grow card_title [ct] w).
Proof.
  intros [d Hd]. unfold deck_append_new, bind, attr, gets, modify.
  rewrite Hd. unfold grow. simpl. by rewrite Hd.
Qed.

Lemma grow_deck_is_Some (cts : list string) (w : State) :
  is_Some (deck (grow card_title cts w)).
Proof. by eexists. Qed.

Lemma repeat_n_append_new (k : nat) (ct : string) (w : State) :
  is_Some (deck w) ->
  repeat_n k (deck_append_new card_title ct) w
  = Ok tt (grow card_title (replicate k ct) w).
Proof.
  revert w. induction k as [|k IH]; intros w Hd.
  { cbn. by rewrite grow_nil. }
  cbn [repeat_n]. unfold bind. rewrite deck_append_new_spec by done.
  rewrite IH by apply grow_deck_is_Some. by rewrite grow_grow.
Qed.

Lemma create_deck_spec (w : State) :
  create_deck card_title w
  = Ok tt (grow card_title (deck_types (count_active w))
             (set_discard [] (set_deck [] w))).
Proof.
  unfold create_deck, bind at 1, modify. unfold bind at 1.
  set (w0 := set_discard [] (set_deck [] w)).
  assert (is_Some (deck w0)) as H0 by (by eexists).
  unfold bind at 1, count_active_players, gets.
  change (count_active w0) with (count_active w).
  set (n := count_active w). unfold deck_types.
  assert (forall cts, count_active (grow card_title cts w0) = n) as Hn by done.
  unfold bind at 1.
  assert ((if 8 <? n then deck_append_new card_title "Cthulhu" else ret tt) w0
          = Ok tt (grow card_title (if 8 <? n then ["Cthulhu"] else []) w0))
    as ->.
  { destruct (8 <? n); [by apply deck_append_new_spec|].
    unfold ret. by rewrite grow_nil. }
  unfold bind at 1. rewrite deck_append_new_spec by apply grow_deck_is_Some.
  unfold bind at 1. rewrite repeat_n_append_new by apply grow_deck_is_Some.
  rewrite !grow_grow. unfold bind, attr.
  match goal with |- context [deck (grow _ ?cts _)] => set (made := cts) end.
  change (deck (grow card_title made w0))
    with (Some ([] ++ seq (length (cobjs w)) (length made))).
  cbv beta iota.
  rewrite repeat_n_append_new by apply grow_deck_is_Some.
  rewrite grow_grow. do 2 f_equal.
  subst made. rewrite <- !app_assoc. do 3 f_equal.
  f_equal. rewrite app_nil_l, length_seq, !length_app, length_replicate.
  destruct (8 <? n); simpl; lia.
Qed.

Lemma deck_types_length (n : nat) :
  length (deck_types n) = Nat.max (n * 5) (n + if 8 <? n then 2 else 1).
Proof.
  unfold deck_types. rewrite !length_app, !length_replicate.
  destruct (8 <? n) eqn:E; simpl; lia.
Qed.

(** C7, as amended: [create_deck] checks no player count and never fails;
    for any number [n] of active players it makes the cards of
    [deck_types n] (one Cthulhu, two when [n > 8], [n] Elder Signs, Blanks
    up to [5 * n] cards) and an empty discard. *)
Theorem create_deck_never_fails (w : State) :
  exists w',
    create_deck card_title w = Ok tt w' /\
    deck w' = Some (seq (length (cobjs w)) (length (deck_types (count_active w)))) /\
    cobjs w' = cobjs w ++ map (Card_init card_title) (deck_types (count_active w)) /\
    discard w' = Some [] /\
    length (deck_types (count_active w))
    = Nat.max (count_active w * 5)
              (count_active w + if 8 <? count_active w then 2 else 1).
Proof.
  eexists. split; [apply create_deck_spec|].
  repeat split. apply deck_types_length.
Qed.

(** ** Rules for [wp] *)

Section Rules.
Context {A B : Type}.
Implicit Types (Q : A -> State -> Prop) (E : State -> Prop) (D : Prop).

Lemma wp_ret (a : A) w Q E D : Q a w -> wp (ret a) w Q E D.
Proof. done. Qed.

Lemma wp_raise e w Q E D : E w -> wp (@raise A e) w Q E D.
Proof. done. Qed.

Lemma wp_diverge w Q E D : D -> wp (@diverge A) w Q E D.
Proof. done. Qed.

Lemma wp_gets (f : State -> A) w Q E D : Q (f w) w -> wp (gets f) w Q E D.
Proof. done. Qed.

Lemma wp_attr (f : State -> option A) w Q E D :
  (forall a, f w = Some a -> Q a w) -> (f w = None -> E w) ->
  wp (attr f) w Q E D.
Proof. unfold wp, attr. destruct (f w); auto. Qed.

Lemma wp_bind (m : M A) (k : A -> M B) w (Q : B -> State -> Prop) E D :
  wp m w (fun a w' => wp (k a) w' Q E D) E D -> wp (bind m k) w Q E D.
Proof. unfold wp, bind. by destruct (m w). Qed.

Lemma wp_mono (m : M A) w Q Q' E E' D D' :
  wp m w Q E D ->
  (forall a w', Q a w' -> Q' a w') -> (forall w', E w' -> E' w') ->
  (D -> D') ->
  wp m w Q' E' D'.
Proof. unfold wp. destruct (m w); auto. Qed.

(** Using an invariant of [m] for a call of [m]. *)
Lemma wp_keeps (I : State -> Prop) (m : M A) w Q E D :
  keeps I m -> I w ->
  (forall a w', I w' -> Q a w') -> (forall w', I w' -> E w') -> D ->
  wp m w Q E D.
Proof.
  intros Hm Hw HQ HE HD. specialize (Hm w Hw). unfold post in Hm.
  eapply wp_mono; eauto.
Qed.

End Rules.

Lemma wp_modify (f : State -> State) w Q E D :
  Q tt (f w) -> wp (modify f) w Q E D.
Proof. done. Qed.

Lemma wp_for_each {A} (I : State -> Prop) (l : list A) (body : A -> M unit)
  w Q E D :
  I w ->
  (forall x w', x ∈ l -> I w' -> wp (body x) w' (fun _ => I) E D) ->
  (forall w', I w' -> Q tt w') ->
  wp (for_each l body) w Q E D.
Proof.
  revert w. induction l as [|x l IH]; intros w Hw Hbody HQ.
  { by apply HQ. }
  cbn [for_each]. apply wp_bind. eapply wp_mono; [apply Hbody; [by left|done]| |done|done].
  intros ? w' Hw'. apply IH; [done| |done].
  intros y w'' Hy. apply Hbody. by right.
Qed.

Lemma keeps_for_each {A} (I : State -> Prop) (l : list A) (body : A -> M unit) :
  (forall x, x ∈ l -> keeps I (body x)) -> keeps I (for_each l body).
Proof.
  intros H w Hw. apply (wp_for_each I); [done| |done].
  intros x w' Hx Hw'. by apply H.
Qed.

Lemma stable_keeps {V A} (view : State -> V) (I : State -> Prop) (m : M A) :
  stable view m -> (forall w w', view w' = view w -> I w -> I w') -> keeps I m.
Proof.
  intros Hm HI w Hw. specialize (Hm (view w) w eq_refl).
  unfold post in *. eapply wp_mono; [exact Hm|..]; simpl; eauto.
Qed.

Lemma stable_fst {V1 V2 A} (v1 : State -> V1) (v2 : State -> V2) (m : M A) :
  stable (fun w => (v1 w, v2 w)) m -> stable v1 m.
Proof.
  intros H v. apply (stable_keeps _ _ _ H). intros w w' [= H1 H2]. congruence.
Qed.

Lemma stable_snd {V1 V2 A} (v1 : State -> V1) (v2 : State -> V2) (m : M A) :
  stable (fun w => (v1 w, v2 w)) m -> stable v2 m.
Proof.
  intros H v. apply (stable_keeps _ _ _ H). intros w w' [= H1 H2]. congruence.
Qed.

(** One step of a proof by [wp]: split a sequence, run a primitive, take a
    branch. *)
Ltac wp_step :=
  lazymatch goal with
  | |- wp (bind _ _) _ _ _ _ => apply wp_bind
  | |- wp (ret _) _ _ _ _ => apply wp_ret
  | |- wp (raise _) _ _ _ _ => apply wp_raise
  | |- wp diverge _ _ _ _ => apply wp_diverge
  | |- wp (gets _) _ _ _ _ => apply wp_gets
  | |- wp (modify _) _ _ _ _ => apply wp_modify
  | |- wp (attr _) _ _ _ _ => apply wp_attr; [intros ? ?|intros ?]
  | |- wp (player_at _) _ _ _ _ => unfold player_at
  | |- wp (card_at _) _ _ _ _ => unfold card_at
  | |- wp (flip_up _) _ _ _ _ => unfold flip_up
  | |- wp (upd_player _ _) _ _ _ _ => unfold upd_player
  | |- wp (the_game_data _) _ _ _ _ => unfold the_game_data
  | |- wp (upd_game_data _ _) _ _ _ _ => unfold upd_game_data
  | |- wp get_active_players _ _ _ _ => unfold get_active_players
  | |- wp count_active_players _ _ _ _ => unfold count_active_players
  | |- wp (if ?b then _ else _) _ _ _ _ => destruct b eqn:?
  | |- wp (match ?x with _ => _ end) _ _ _ _ => destruct x eqn:?
  end; cbv beta.

Ltac wp_steps := repeat wp_step.

(** ** What a change to one object does to the views *)

Lemma map_alter_same {X Y} `{!Inhabited X} (g : X -> Y) (f : X -> X)
  (i : nat) (l : list X) :
  g (f (l !!! i)) = g (l !!! i) -> map g (alter f i l) = map g l.
Proof.
  revert i. induction l as [|x l IH]; intros [|i] H; simpl in *; try done.
  - by rewrite H.
  - f_equal. by apply IH.
Qed.

Lemma map_eq_lookup_total {X Y} `{!Inhabited X} (g : X -> Y) (l l' : list X)
  (i : nat) :
  map g l' = map g l -> g (l' !!! i) = g (l !!! i).
Proof.
  revert l' i. induction l as [|x l IH]; intros [|x' l'] i H; try done.
  injection H as Hx Hl. destruct i as [|i]; [done|]. simpl. by apply IH.
Qed.

(** [inv_call]: a call of a method whose invariant is known. *)
Ltac inv_call :=
  lazymatch goal with
  | |- wp ?m ?w _ ?E _ =>
      eapply (wp_keeps E m);
      [ solve [eauto with inv] | first [eassumption | done]
      | intros ? ? ? | intros ? ?; first [eassumption | done] | exact I ]
  end.

(** [inv_step]: one step in the proof that a method keeps an invariant. *)
Ltac inv_step :=
  lazymatch goal with
  | |- wp (bind _ _) _ _ _ _ => apply wp_bind
  | |- wp (ret _) _ _ _ _ => apply wp_ret
  | |- wp (raise _) _ _ _ _ => apply wp_raise
  | |- wp diverge _ _ _ _ => apply wp_diverge
  | |- wp (gets _) _ _ _ _ => apply wp_gets
  | |- wp (attr _) _ _ _ _ => apply wp_attr; [intros ? ?|intros ?]
  | |- wp (player_at _) _ _ _ _ => unfold player_at
  | |- wp (card_at _) _ _ _ _ => unfold card_at
  | |- wp (the_game_data _) _ _ _ _ => unfold the_game_data
  | |- wp get_active_players _ _ _ _ => unfold get_active_players
  | |- wp count_active_players _ _ _ _ => unfold count_active_players
  | |- wp (if ?b then _ else _) _ _ _ _ => destruct b eqn:?
  | |- wp (match ?x with _ => _ end) _ _ _ _ => destruct x eqn:?
  | |- wp (for_each _ _) _ _ ?E _ =>
      apply (wp_for_each E); [first [eassumption | done] | intros ? ? ? ?
                             | intros ? ? ]
  | |- wp _ _ _ _ _ => inv_call
  | |- _ => first [eassumption | done]
  end; cbv beta.

Ltac inv_go := intros ? ?; unfold post; repeat inv_step.

Create HintDb inv.

Lemma stable_apply {V A} (view : State -> V) (m : M A) (v : V) :
  stable view m -> keeps (fun w => view w = v) m.
Proof. intros H. apply H. Qed.

#[local] Hint Extern 5 (keeps (fun w => _ = _) _) =>
  apply stable_apply; solve [auto with inv] : inv.

Lemma views_upd_game_data p gd' w gd :
  game_data (pobjs w !!! p) = Some gd ->
  let w' := set_pobjs (alter (with_game_data gd') p) w in
  seats w' = seats w /\
  (has_flashlight gd' = has_flashlight gd -> lights w' = lights w) /\
  (cards gd' = cards gd -> layout w' = layout w).
Proof.
  intros Hgd. unfold seats, lights, layout. simpl. repeat split.
  - rewrite !(map_alter_same _ _ p); try done.
    simpl. rewrite Hgd. by rewrite bool_decide_true.
  - intros Hf. apply map_alter_same.
    unfold holds_flashlight. by rewrite Hgd.
  - intros Hc. do 2 f_equal. apply map_alter_same.
    simpl. rewrite Hgd. simpl. by rewrite Hc.
Qed.

Lemma stable_seats_upd_game_data p f : stable seats (upd_game_data p f).
Proof.
  intros v w Hw. unfold post, upd_game_data. wp_steps. 2:done.
  rewrite <- Hw. by eapply views_upd_game_data.
Qed.

Lemma stable_table_upd_game_data p f :
  (forall gd, has_flashlight (f gd) = has_flashlight gd) ->
  stable table (upd_game_data p f).
Proof.
  intros Hf v w Hw. unfold post, upd_game_data. wp_steps. 2:done.
  rewrite <- Hw. unfold table.
  edestruct views_upd_game_data as (-> & -> & _); eauto.
Qed.

Lemma stable_board_upd_game_data p f :
  (forall gd, has_flashlight (f gd) = has_flashlight gd) ->
  (forall gd, cards (f gd) = cards gd) ->
  stable board (upd_game_data p f).
Proof.
  intros Hf Hc v w Hw. unfold post, upd_game_data. wp_steps. 2:done.
  rewrite <- Hw. unfold board.
  edestruct views_upd_game_data as (-> & -> & ->); eauto.
Qed.

Lemma stable_board_modify (f : State -> State) :
  (forall w, board (f w) = board w) -> stable board (modify f).
Proof. intros H v w Hw. unfold post. wp_steps. by rewrite H. Qed.

Lemma stable_board_flip_up c : stable board (flip_up c).
Proof.
  apply stable_board_modify. intros w. unfold board, seats, lights, layout.
  simpl. by rewrite length_alter.
Qed.

#[local] Hint Resolve stable_board_flip_up : inv.
#[local] Hint Extern 1 (stable board (upd_game_data _ _)) =>
  apply stable_board_upd_game_data; done : inv.
#[local] Hint Extern 1 (stable board (modify _)) =>
  apply stable_board_modify; done : inv.

Lemma stable_board_player_set_claim p cl : stable board (player_set_claim p cl).
Proof. intros v. unfold player_set_claim. inv_go. Qed.

Lemma stable_board_flip_first cs : stable board (flip_first cs).
Proof. intros v. induction cs as [|c cs IH]; cbn [flip_first]; inv_go. Qed.
#[local] Hint Resolve stable_board_player_set_claim stable_board_flip_first : inv.

Lemma stable_board_reveal_card p pos : stable board (reveal_card p pos).
Proof. intros v. unfold reveal_card. inv_go. Qed.

Lemma stable_board_hands_of ps : stable board (hands_of ps).
Proof. intros v. induction ps as [|p ps IH]; cbn [hands_of]; inv_go. Qed.

Lemma stable_board_scan_cards cs n k : stable board (scan_cards cs n k).
Proof.
  intros v. revert n k. induction cs as [|c cs IH]; intros n k;
    cbn [scan_cards]; inv_go.
Qed.
#[local] Hint Resolve stable_board_reveal_card stable_board_hands_of
  stable_board_scan_cards : inv.

Lemma stable_board_check_winner : stable board check_winner.
Proof. intros v. unfold check_winner. inv_go. Qed.

Lemma stable_board_new_phase : stable board new_phase.
Proof. intros v. unfold new_phase. inv_go. Qed.

Lemma stable_board_get_next_player p : stable board (get_next_player p).
Proof. intros v. unfold get_next_player. inv_go. Qed.
#[local] Hint Resolve stable_board_check_winner stable_board_new_phase
  stable_board_get_next_player : inv.

(** ** What the views determine *)

Lemma active_seats (w w' : State) : seats w' = seats w -> active w' = active w.
Proof.
  intros [= Hp Hs _ _ _]. unfold active. rewrite Hp.
  apply list_filter_iff. intros p. unfold is_playing.
  by rewrite (map_eq_lookup_total status _ _ p Hs).
Qed.

Lemma count_active_length (w : State) : count_active w = length (active w).
Proof.
  unfold count_active, active. induction (players w) as [|p l IH]; [done|].
  rewrite filter_cons. simpl. case_decide; simpl; by rewrite IH.
Qed.

Lemma gd_at_seats (w w' : State) (p : addr) :
  seats w' = seats w -> is_Some (gd_at w' p) <-> is_Some (gd_at w p).
Proof.
  intros [= _ _ Hg _ _]. unfold gd_at.
  pose proof (map_eq_lookup_total _ _ _ p Hg) as H. simpl in H.
  apply bool_decide_eq_true in H || idtac.
  split; intros Hs.
  - apply (bool_decide_eq_true_2 _) in Hs. rewrite H in Hs.
    by apply bool_decide_eq_true in Hs.
  - apply (bool_decide_eq_true_2 _) in Hs. rewrite <- H in Hs.
    by apply bool_decide_eq_true in Hs.
Qed.

Lemma hand_layout (w w' : State) (p : addr) :
  layout w' = layout w -> hand w' p = hand w p.
Proof.
  intros [= Hc _ _]. unfold hand, gd_at.
  pose proof (map_eq_lookup_total _ _ _ p Hc) as H. simpl in H.
  destruct (game_data (pobjs w' !!! p)), (game_data (pobjs w !!! p));
    simpl in H; congruence.
Qed.

Lemma board_inv (w w' : State) :
  board w' = board w ->
  seats w' = seats w /\ lights w' = lights w /\ layout w' = layout w.
Proof. unfold board. intros H. repeat split; congruence. Qed.

Lemma spread_inv (w w' : State) :
  spread w' = spread w -> seats w' = seats w /\ layout w' = layout w.
Proof. unfold spread. intros H. split; congruence. Qed.

Lemma Cards_spread (A X : list addr) (w w' : State) :
  spread w' = spread w -> Cards A X w -> Cards A X w'.
Proof.
  intros (Hs & Hy)%spread_inv (HA & (Hnd & Hgd & Hd & Hds) & Hp).
  pose proof (active_seats _ _ Hs) as Ha.
  assert (map (hand w') (active w) = map (hand w) (active w)) as Hh.
  { apply map_ext. intros p. by apply hand_layout. }
  injection Hy as _ Hdk Hdc.
  unfold Cards, in_play, pool. rewrite Ha, Hh, Hdk, Hdc.
  repeat split; try done.
  intros p Hpa. apply (gd_at_seats _ _ _ Hs). by apply Hgd.
Qed.

Lemma Cards_board (A X : list addr) (w w' : State) :
  board w' = board w -> Cards A X w -> Cards A X w'.
Proof.
  intros (Hs & _ & Hy)%board_inv. apply Cards_spread.
  unfold spread. congruence.
Qed.

(** Changing the hand of one player among distinct players. *)
Lemma concat_map_but_one (h h' : addr -> list addr) (A : list addr) (p : addr) :
  NoDup A -> p ∈ A -> (forall q, q <> p -> h' q = h q) ->
  exists rest, concat (map h A) ≡ₚ h p ++ rest /\
               concat (map h' A) ≡ₚ h' p ++ rest.
Proof.
  intros Hnd Hp Hh. induction A as [|a A IH]; [by apply elem_of_nil in Hp|].
  apply list.NoDup_cons in Hnd as [Ha Hnd]. simpl.
  destruct (decide (a = p)) as [->|Hne].
  - exists (concat (map h A)). split; [done|].
    f_equiv. assert (map h' A = map h A) as ->; [|done].
    apply map_ext_in. intros q Hq. apply Hh.
    intros ->. apply Ha. by apply list_elem_of_In.
  - apply elem_of_cons in Hp as [->|Hp]; [done|].
    destruct (IH Hnd Hp) as (rest & H1 & H2).
    exists (h a ++ rest). rewrite H1, H2, (Hh a Hne). split; solve_Permutation.
Qed.

Lemma gd_at_upd (p q : addr) (gd gd' : PlayerGameData) (w : State) :
  gd_at w p = Some gd ->
  gd_at (set_pobjs (alter (with_game_data gd') p) w) q
  = if decide (q = p) then Some gd' else gd_at w q.
Proof.
  intros Hgd. unfold gd_at in *. simpl. rewrite list_lookup_total_alter.
  assert (p < length (pobjs w)) as Hlt.
  { destruct (decide (p < length (pobjs w))) as [|Hge]; [done|].
    rewrite list_lookup_total_alt, lookup_ge_None_2 in Hgd by lia. done. }
  destruct (decide (q = p)) as [->|Hne].
  - by rewrite decide_True.
  - rewrite decide_False; [done|]. intros [? _]. by apply Hne.
Qed.

Lemma hand_upd (p q : addr) (gd gd' : PlayerGameData) (w : State) :
  gd_at w p = Some gd ->
  hand (set_pobjs (alter (with_game_data gd') p) w) q
  = if decide (q = p) then cards gd' else hand w q.
Proof.
  intros Hgd. unfold hand. rewrite (gd_at_upd _ _ gd) by done.
  by case_decide.
Qed.

(** ** Dealing *)

Lemma deck_pop_spec (d : list addr) (c : addr) (w : State) :
  deck w = Some (d ++ [c]) -> deck_pop w = Ok c (set_deck d w).
Proof.
  intros Hd. unfold deck_pop, bind, attr, modify, ret. rewrite Hd.
  by rewrite last_snoc, removelast_last.
Qed.

Lemma deck_pop_empty (w : State) :
  deck w = Some [] -> deck_pop w = Raise IndexError w.
Proof. intros Hd. unfold deck_pop, bind, attr. by rewrite Hd. Qed.

Lemma give_card_spec (p c : addr) (gd : PlayerGameData) (w : State) :
  gd_at w p = Some gd ->
  give_card p c w
  = Ok tt (set_pobjs
             (alter (with_game_data (set_cards (cards gd ++ [c]) gd)) p) w).
Proof.
  intros Hgd. unfold give_card, upd_game_data, bind, the_game_data, bind,
    player_at, gets. unfold gd_at in Hgd. by rewrite Hgd.
Qed.

Lemma keeps_Cards_deal_one (A X : list addr) (p : addr) :
  p ∈ A -> keeps (Cards A X) (deal_one p).
Proof.
  intros Hp w (HA & (Hnd & Hgd & [d Hd] & [ds Hds]) & Hpool).
  unfold post, wp, deal_one, bind.
  destruct (decide (d = [])) as [->|Hne].
  { rewrite deck_pop_empty by done. repeat split; eauto. }
  destruct (exists_last Hne) as (d' & c & ->).
  rewrite (deck_pop_spec d' c) by done.
  destruct (Hgd p) as [gd Hp_gd]; [by rewrite HA|].
  rewrite (give_card_spec _ _ gd) by done.
  set (gd' := set_cards (cards gd ++ [c]) gd).
  set (w' := set_pobjs _ _).
  assert (seats w' = seats w) as Hs.
  { by apply (views_upd_game_data p gd' (set_deck d' w) gd). }
  pose proof (active_seats _ _ Hs) as Ha.
  unfold Cards, in_play. rewrite Ha, HA. rewrite HA in Hnd, Hgd.
  repeat split; try done.
  { intros q Hq. apply (gd_at_seats _ _ _ Hs). by apply Hgd. }
  rewrite <- Hpool. unfold pool. rewrite Ha, HA, Hd, Hds. simpl.
  destruct (concat_map_but_one (hand w) (hand w') A p Hnd Hp) as (rest & H1 & H2).
  { intros q Hq. unfold w'. rewrite (hand_upd _ _ gd) by done.
    by rewrite decide_False. }
  rewrite H1, H2. unfold w'. rewrite (hand_upd _ _ gd) by done.
  rewrite decide_True by done. simpl.
  change (hand (set_deck d' w) p) with (hand w p).
  unfold hand. rewrite Hp_gd, Hds. simpl. solve_Permutation.
Qed.

Lemma wp_ok {A} (m : M A) (a : A) (w w' : State) Q E D :
  m w = Ok a w' -> Q a w' -> wp m w Q E D.
Proof. unfold wp. by intros ->. Qed.

Lemma stable_modify {V} (view : State -> V) (f : State -> State) :
  (forall w, view (f w) = view w) -> stable view (modify f).
Proof. intros H v w Hw. unfold post. wp_steps. by rewrite H. Qed.

Lemma stable_board_table {A} (m : M A) : stable board m -> stable table m.
Proof.
  intros H v. apply (stable_keeps _ _ _ H).
  intros w w' (Hs & Hl & _)%board_inv. unfold table. congruence.
Qed.

Lemma stable_board_spread {A} (m : M A) : stable board m -> stable spread m.
Proof.
  intros H v. apply (stable_keeps _ _ _ H).
  intros w w' (Hs & _ & Hl)%board_inv. unfold spread. congruence.
Qed.

Lemma stable_spread_upd_game_data p f :
  (forall gd, cards (f gd) = cards gd) -> stable spread (upd_game_data p f).
Proof.
  intros Hc v w Hw. unfold post, upd_game_data. wp_steps. 2:done.
  rewrite <- Hw. unfold spread.
  edestruct views_upd_game_data as (-> & _ & ->); eauto.
Qed.

Lemma stable_table_seats {A} (m : M A) : stable table m -> stable seats m.
Proof. apply stable_fst. Qed.

Lemma stable_table_lights {A} (m : M A) : stable table m -> stable lights m.
Proof. apply stable_snd. Qed.

#[local] Hint Extern 1 (stable _ (modify _)) => apply stable_modify; done : inv.
#[local] Hint Extern 1 (stable table (upd_game_data _ _)) =>
  apply stable_table_upd_game_data; done : inv.
#[local] Hint Extern 8 (stable table _) =>
  apply stable_board_table; solve [auto with inv] : inv.
#[local] Hint Extern 1 (stable spread (upd_game_data _ _)) =>
  apply stable_spread_upd_game_data; done : inv.
#[local] Hint Extern 8 (stable spread _) =>
  apply stable_board_spread; solve [auto with inv] : inv.
#[local] Hint Extern 4 (keeps (Cards _ _) _) =>
  eapply (stable_keeps spread);
    [solve [auto with inv] | intros ? ?; apply Cards_spread] : inv.

(** *** Dealing keeps the table *)

Lemma stable_table_deck_pop : stable table deck_pop.
Proof. intros v. unfold deck_pop. inv_go. Qed.
#[local] Hint Resolve stable_table_deck_pop : inv.

Lemma stable_table_deal_one p : stable table (deal_one p).
Proof. intros v. unfold deal_one, give_card. inv_go. Qed.
#[local] Hint Resolve stable_table_deal_one : inv.

Lemma stable_table_deal_loop fuel : stable table (deal_loop fuel).
Proof.
  intros v. induction fuel as [|fuel IH]; cbn [deal_loop]; inv_go.
Qed.
#[local] Hint Resolve stable_table_deal_loop : inv.

Lemma stable_table_deal_cards r : stable table (deal_cards r).
Proof. intros v. unfold deal_cards. inv_go. Qed.
#[local] Hint Resolve stable_table_deal_cards : inv.

(** *** Dealing keeps the cards *)

Lemma keeps_Cards_deal_loop (A X : list addr) (fuel : nat) :
  keeps (Cards A X) (deal_loop fuel).
Proof.
  induction fuel as [|fuel IH]; cbn [deal_loop]; intros w Hw; unfold post.
  { done. }
  wp_steps; try done.
  apply (wp_for_each (Cards A X)); [done| |].
  - intros p w' Hp Hw'. apply keeps_Cards_deal_one; [|done].
    destruct Hw as [<- _]. done.
  - intros w' Hw'. by apply IH.
Qed.

Lemma keeps_Cards_deal_cards (A X : list addr) (r : Random) :
  fair r -> keeps (Cards A X) (deal_cards r).
Proof.
  intros [_ Hfair] w Hw. unfold post, deal_cards.
  wp_step. wp_step; [|done]. wp_step. wp_step.
  set (w' := set_deck _ w).
  assert (Cards A X w') as Hw'.
  { destruct Hw as (HA & (Hnd & Hgd & Hd & Hds) & Hp).
    repeat split; try done.
    rewrite <- Hp. unfold pool. simpl. rewrite H. simpl. by rewrite Hfair. }
  wp_step. wp_step; [|done].
  by apply keeps_Cards_deal_loop.
Qed.

(** ** Game.new_round *)

Lemma stable_table_return_card c : stable table (return_card c).
Proof. intros v. unfold return_card. inv_go. Qed.
#[local] Hint Resolve stable_table_return_card : inv.

Lemma stable_table_recollect p : stable table (recollect p).
Proof. intros v. unfold recollect. inv_go. Qed.
#[local] Hint Resolve stable_table_recollect : inv.

Lemma stable_table_new_round r : stable table (new_round r).
Proof. intros v. unfold new_round. inv_go. Qed.
#[local] Hint Resolve stable_table_new_round : inv.

Lemma stable_table_new_turn r : stable table (new_turn r).
Proof. intros v. unfold new_turn. inv_go. Qed.
#[local] Hint Resolve stable_table_new_turn : inv.

Lemma stable_table_set_claim p b e c r :
  stable table (set_claim card_title p b e c r).
Proof. intros v. unfold set_claim. inv_go. Qed.

(** The inner loop of [new_round] sorts the cards of a hand into the two
    piles. *)
Lemma return_cards_spec (cs d ds : list addr) (w : State) :
  deck w = Some d -> discard w = Some ds ->
  for_each cs return_card w
  = Ok tt (set_discard (ds ++ filter (fun c => face_up w c = true) cs)
             (set_deck (d ++ filter (fun c => face_up w c = false) cs) w)).
Proof.
  revert d ds w. induction cs as [|c cs IH]; intros d ds w Hd Hds.
  { cbn. unfold ret. destruct w; simpl in *. subst.
    unfold set_discard, set_deck. simpl. by rewrite !app_nil_r. }
  cbn [for_each]. unfold bind at 1, return_card at 1, bind at 1, card_at, gets.
  rewrite !filter_cons. change (face_up w c) with (is_flipped (cobjs w !!! c)).
  destruct (is_flipped (cobjs w !!! c)); simpl.
  - unfold bind, attr, modify. rewrite Hds.
    rewrite (IH d (ds ++ [c])) by done.
    unfold set_discard, set_deck. simpl. by rewrite <- app_assoc.
  - unfold bind, attr, modify. rewrite Hd.
    rewrite (IH (d ++ [c]) ds) by done.
    unfold set_discard, set_deck. simpl. by rewrite <- app_assoc.
Qed.

Lemma filter_face_split (w : State) (cs : list addr) :
  filter (fun c => face_up w c = false) cs
  ++ filter (fun c => face_up w c = true) cs ≡ₚ cs.
Proof.
  induction cs as [|c cs IH]; [done|]. rewrite !filter_cons.
  destruct (face_up w c); simpl.
  - rewrite <- IH at 3. solve_Permutation.
  - by rewrite IH.
Qed.

Lemma keeps_Cards_recollect (A X : list addr) (p : addr) :
  p ∈ A -> keeps (Cards A X) (recollect p).
Proof.
  intros Hp w Hw. unfold post, recollect.
  destruct Hw as (HA & (Hnd & Hgd & [d Hd] & [ds Hds]) & Hpool).
  destruct (Hgd p) as [gd Hp_gd]; [by rewrite HA|].
  apply wp_bind. eapply wp_ok.
  { unfold the_game_data, bind, player_at, gets. unfold gd_at in Hp_gd.
    by rewrite Hp_gd. }
  apply wp_bind. eapply wp_ok; [by apply (return_cards_spec _ d ds)|].
  set (w1 := set_discard _ _).
  apply wp_bind. eapply wp_ok.
  { unfold upd_game_data, the_game_data, bind, player_at, gets, bind.
    change (pobjs w1) with (pobjs w). unfold gd_at in Hp_gd. rewrite Hp_gd.
    unfold upd_player, modify. reflexivity. }
  set (w2 := set_pobjs _ w1).
  assert (Cards A X w2) as Hw2.
  { assert (seats w2 = seats w) as Hs.
    { by apply (views_upd_game_data p _ w1 gd). }
    pose proof (active_seats _ _ Hs) as Ha.
    unfold Cards, in_play. rewrite Ha, HA. rewrite HA in Hnd, Hgd.
    repeat split; try done.
    { intros q Hq. apply (gd_at_seats _ _ _ Hs). by apply Hgd. }
    rewrite <- Hpool. unfold pool. rewrite Ha, HA, Hd, Hds. simpl.
    destruct (concat_map_but_one (hand w) (hand w2) A p Hnd Hp)
      as (rest & H1 & H2).
    { intros q Hq. unfold w2. rewrite (hand_upd _ _ gd) by done.
      by rewrite decide_False. }
    rewrite H1, H2. unfold w2. rewrite (hand_upd _ _ gd) by done.
    rewrite decide_True by done. simpl.
    unfold hand. rewrite Hp_gd.
    rewrite <- (filter_face_split w (cards gd)) at 3. solve_Permutation. }
  clearbody w2. clear -Hw2. repeat inv_step.
Qed.

Lemma keeps_Cards_new_round (A X : list addr) (r : Random) :
  fair r -> keeps (Cards A X) (new_round r).
Proof.
  intros Hr w Hw. unfold post, new_round.
  wp_step. wp_step. wp_step. wp_step. wp_step. wp_step.
  set (w' := set_turn _ _).
  assert (Cards A X w') as Hw' by (by eapply Cards_board; [|apply Hw]).
  apply wp_bind. apply (wp_for_each (Cards A X)); [done| |].
  - intros p w'' Hp Hw''. apply keeps_Cards_recollect; [|done].
    destruct Hw as [<- _]. done.
  - intros w'' Hw''. by apply keeps_Cards_deal_cards.
Qed.
#[local] Hint Resolve keeps_Cards_new_round : inv.

Lemma keeps_Cards_new_turn (A X : list addr) (r : Random) :
  fair r -> keeps (Cards A X) (new_turn r).
Proof. intros Hr. unfold new_turn. inv_go. Qed.
#[local] Hint Resolve keeps_Cards_new_turn : inv.

Lemma keeps_Cards_set_claim (A X : list addr) p b e c (r : Random) :
  fair r -> keeps (Cards A X) (set_claim card_title p b e c r).
Proof. intros Hr. unfold set_claim. inv_go. Qed.

Lemma keeps_Cards_investigate (A X : list addr) u t pos (r : Random) :
  fair r -> keeps (Cards A X) (investigate u t pos r).
Proof. intros Hr. unfold investigate. inv_go. Qed.

#[local] Hint Resolve stable_seats_upd_game_data : inv.
#[local] Hint Extern 8 (stable seats _) =>
  apply stable_table_seats; solve [auto with inv] : inv.
#[local] Hint Extern 8 (stable lights _) =>
  apply stable_table_lights; solve [auto with inv] : inv.

Lemma stable_seats_investigate u t pos r : stable seats (investigate u t pos r).
Proof. intros v. unfold investigate. inv_go. Qed.

(** ** The flashlight *)

Lemma lit_lights (w w' : State) (p : addr) :
  lights w' = lights w -> lit w' p <-> lit w p.
Proof.
  intros H. unfold lit.
  by rewrite (map_eq_lookup_total holds_flashlight _ _ p H).
Qed.

Lemma dark_one_light (w : State) : dark w -> one_light w.
Proof. intros H p q Hp. by destruct (H p). Qed.

Lemma lit_upd (p q : addr) (gd gd' : PlayerGameData) (w : State) :
  gd_at w p = Some gd ->
  lit (set_pobjs (alter (with_game_data gd') p) w) q
  <-> if decide (q = p) then has_flashlight gd' = true else lit w q.
Proof.
  intros Hgd. unfold lit, holds_flashlight.
  change (game_data (pobjs ?w !!! ?q)) with (gd_at w q).
  rewrite (gd_at_upd _ _ gd) by done. by case_decide.
Qed.

Lemma table_inv (w w' : State) :
  table w' = table w ->
  lights w' = lights w /\ game_status w' = game_status w.
Proof. unfold table, seats. intros H. split; congruence. Qed.

Lemma Dark_table (w w' : State) : table w' = table w -> Dark w -> Dark w'.
Proof.
  intros [Hl Hg]%table_inv [Hd Hu]. split; [|congruence].
  intros p Hp. apply (Hd p). by apply (lit_lights w w').
Qed.

Lemma Lit_table (w w' : State) : table w' = table w -> Lit w -> Lit w'.
Proof.
  intros [Hl Hg]%table_inv [H1 Hd]. split.
  - intros p q Hp Hq. apply H1; by apply (lit_lights w w').
  - rewrite Hg. intros Hu p Hp.
    apply (Hd Hu p). by apply (lit_lights w w').
Qed.

#[local] Hint Extern 4 (keeps Lit _) =>
  eapply (stable_keeps table);
    [solve [auto with inv] | intros ? ?; apply Lit_table] : inv.
#[local] Hint Extern 4 (keeps Dark _) =>
  eapply (stable_keeps table);
    [solve [auto with inv] | intros ? ?; apply Dark_table] : inv.

Lemma keeps_Lit_set_claim p b e c r :
  keeps Lit (set_claim card_title p b e c r).
Proof.
  eapply (stable_keeps table); [apply stable_table_set_claim|].
  intros ? ?. apply Lit_table.
Qed.

(** A player without the flashlight cannot investigate; the user's
    flashlight goes out before the target's goes on. *)
Lemma keeps_Lit_investigate u t pos r : keeps Lit (investigate u t pos r).
Proof.
  intros w Hw. unfold post, investigate.
  unfold upd_game_data at 1, the_game_data. wp_steps.
  all: try done.
  simplify_eq.
  match goal with H : negb _ = false |- _ =>
    apply negb_false_iff in H; rename H into Hf end.
  match goal with H : game_data _ = Some _ |- _ => rename H into Hu end.
  set (w1 := set_pobjs _ w).
  assert (dark w1 /\ game_status w1 <> Unstarted) as Hw1.
  { destruct Hw as [H1 Hd]. split.
    - intros q Hq. apply (lit_upd _ _ p) in Hq; [|done].
      case_decide as E; [done|]. apply E. apply H1; [done|].
      unfold lit, holds_flashlight. by rewrite Hu.
    - intros Hs. apply (Hd Hs u). unfold lit, holds_flashlight.
      by rewrite Hu. }
  clearbody w1. clear -Hw1.
  eapply (wp_keeps (fun w => dark w /\ game_status w <> Unstarted)); try done.
  { eapply (stable_keeps table); [apply stable_board_table; auto with inv|].
    intros w w' [Hl Hg]%table_inv [Hd Hs]. split; [|congruence].
    intros q Hq. apply (Hd q). by apply (lit_lights w w'). }
  2:{ intros w' [Hd Hs]. split; [by apply dark_one_light|done]. }
  intros _ w2 [Hd Hs]. unfold upd_game_data at 1, the_game_data. wp_steps.
  2:{ split; [by apply dark_one_light|done]. }
  simplify_eq.
  match goal with H : game_data _ = Some _ |- _ => rename H into Ht end.
  set (w3 := set_pobjs _ w2).
  assert (Lit w3) as Hw3.
  { split; [|done]. intros a b Ha Hb.
    apply (lit_upd _ _ p) in Ha, Hb; try done.
    destruct (decide (a = t)), (decide (b = t)); try congruence;
      by destruct (Hd a) || by destruct (Hd b). }
  clearbody w3. clear -Hw3. repeat inv_step.
Qed.


Lemma Dark_ext (w w' : State) :
  lights w' = lights w -> game_status w' = game_status w -> Dark w -> Dark w'.
Proof.
  intros Hl Hg [Hd Hu]. split; [|congruence].
  intros p Hp. apply (Hd p). by apply (lit_lights w w').
Qed.

Lemma Lit_ext (w w' : State) :
  lights w' = lights w -> game_status w' = game_status w -> Lit w -> Lit w'.
Proof.
  intros Hl Hg [H1 Hd]. split.
  - intros p q Hp Hq. apply H1; by apply (lit_lights w w').
  - rewrite Hg. intros Hu p Hp.
    apply (Hd Hu p). by apply (lit_lights w w').
Qed.

Lemma Dark_Lit (w : State) : Dark w -> Lit w.
Proof. intros [Hd Hu]. split; [by apply dark_one_light|done]. Qed.

Lemma keeps_Dark_upd_player p f :
  (forall pl, holds_flashlight (f pl) = true -> holds_flashlight pl = true) ->
  keeps Dark (upd_player p f).
Proof.
  intros Hf w [Hd Hu]. unfold post, upd_player. wp_step. split; [|done].
  intros q Hq. apply (Hd q). revert Hq. unfold lit. simpl.
  rewrite list_lookup_total_alter. case_decide as E; [|done].
  destruct E as [-> _]. apply Hf.
Qed.

Lemma keeps_Dark_start_playing p ro : keeps Dark (start_playing p ro).
Proof.
  unfold start_playing. intros w Hw. unfold post.
  apply wp_bind. eapply (wp_keeps Dark); try done.
  { by apply keeps_Dark_upd_player. }
  intros _ w1 Hw1.
  apply wp_bind. eapply (wp_keeps Dark); try done.
  { by apply keeps_Dark_upd_player. }
  intros _ w2 Hw2. inv_call. done.
Qed.
#[local] Hint Resolve keeps_Dark_start_playing : inv.

Lemma keeps_Dark_assign_roles roles i ps :
  keeps Dark (assign_roles roles i ps).
Proof.
  revert i. induction ps as [|p ps IH]; intros i; cbn [assign_roles]; inv_go.
Qed.
#[local] Hint Resolve keeps_Dark_assign_roles : inv.

Lemma keeps_Dark_make_roles r : keeps Dark (make_roles role_info r).
Proof. unfold make_roles. inv_go. Qed.
#[local] Hint Resolve keeps_Dark_make_roles : inv.

Lemma keeps_Dark_create_deck : keeps Dark (create_deck card_title).
Proof.
  intros w Hw. unfold post, wp. rewrite create_deck_spec.
  by apply (Dark_ext w).
Qed.
#[local] Hint Resolve keeps_Dark_create_deck : inv.

Lemma keeps_Lit_start_game r : keeps Lit (start_game card_title role_info r).
Proof.
  intros w Hw. unfold post, start_game.
  wp_step. wp_step. wp_step; [done|].
  assert (Dark w) as HD.
  { destruct Hw as [_ Hd]. split; [apply Hd|];
      by destruct (game_status w). }
  clear Hw.
  repeat (apply wp_bind;
          first [apply wp_gets
                |eapply (wp_keeps Dark);
                 [solve [eauto with inv]|done|intros ? ? ?
                 |intros ? ?; by apply Dark_Lit|exact I]]; cbv beta).
  match goal with H : Dark ?w0 |- wp _ ?w0 _ _ _ =>
    revert H; generalize w0; clear; intros w HD end.
  apply wp_bind. destruct (active w !! _) as [p|]; [|by apply Dark_Lit].
  unfold toggle_flashlight, upd_game_data, the_game_data. wp_steps.
  2:{ by apply Dark_Lit. }
  simplify_eq. split; [|done]. simpl.
  match goal with H : game_data _ = Some _ |- _ => rename H into Hp end.
  destruct HD as [Hd _]. intros a b Ha Hb.
  change (lit (set_pobjs (alter (with_game_data
            (set_has_flashlight (negb (has_flashlight p0)) p0)) p) w) a) in Ha.
  change (lit (set_pobjs (alter (with_game_data
            (set_has_flashlight (negb (has_flashlight p0)) p0)) p) w) b) in Hb.
  apply (lit_upd _ _ p0) in Ha, Hb; try done.
  destruct (decide (a = p)), (decide (b = p)); try congruence;
    by destruct (Hd a) || by destruct (Hd b).
Qed.

Lemma keeps_Lit_add_player p playing : keeps Lit (add_player p playing).
Proof.
  intros w Hw. unfold post, add_player, upd_player. wp_steps; try done.
  apply (Lit_ext w); [|done|done].
  unfold lights. simpl. by apply map_alter_same.
Qed.

Lemma keeps_Lit_remove_player p : keeps Lit (remove_player p).
Proof. intros w Hw. unfold post, remove_player. wp_steps; done. Qed.

Lemma keeps_Lit_end_game : keeps Lit end_game.
Proof.
  intros w [H1 _]. unfold post, end_game. wp_step. split; [done|].
  simpl. done.
Qed.

Lemma keeps_Lit_call (op : Op) :
  (forall r, op_random op = Some r -> fair r) ->
  keeps Lit (call card_title role_info op).
Proof.
  intros Hr. destruct op; simpl.
  - apply keeps_Lit_add_player.
  - apply keeps_Lit_remove_player.
  - apply keeps_Lit_start_game.
  - apply keeps_Lit_set_claim.
  - apply keeps_Lit_investigate.
  - apply keeps_Lit_end_game.
Qed.

Lemma Lit_Game_init (n : nat) : Lit (Game_init n).
Proof.
  apply Dark_Lit. split; [|done]. intros p. unfold lit. simpl.
  destruct (decide (p < n)) as [Hlt|Hge].
  - rewrite list_lookup_total_alt, list_lookup_fmap, lookup_seq_lt by done.
    done.
  - rewrite list_lookup_total_alt, lookup_ge_None_2; [done|].
    rewrite length_map, length_seq. lia.
Qed.

Lemma post_after {A} (m : M A) (w w' : State) (Q : State -> Prop) :
  post m w Q -> after (m w) = Some w' -> Q w'.
Proof. unfold post, wp, after. destruct (m w); naive_solver. Qed.

Lemma reachable_Lit (w : State) :
  reachable card_title role_info w -> Lit w.
Proof.
  induction 1 as [n|w op w' _ IH [_ Hr] _ Hcall]; [apply Lit_Game_init|].
  eapply post_after; [|exact Hcall]. by apply keeps_Lit_call.
Qed.

(** C6: in every reachable state of an ongoing game at most one active
    player holds the flashlight; every call keeps it so, [investigate]
    included, which puts out the user's flashlight before it lights the
    target's. *)
Theorem at_most_one_flashlight (w : State) :
  reachable card_title role_info w ->
  game_status w = Ongoing ->
  forall p q, p ∈ active w -> q ∈ active w ->
    holds_flashlight (pobjs w !!! p) = true ->
    holds_flashlight (pobjs w !!! q) = true ->
    p = q.
Proof.
  intros Hw _ p q _ _ Hp Hq. destruct (reachable_Lit w Hw) as [H1 _].
  by apply H1.
Qed.

(** ** Dealing evenly *)

Lemma returns_ok {A} (m : M A) (w : State) (Q : State -> Prop) :
  returns m w Q <-> exists a w', m w = Ok a w' /\ Q w'.
Proof.
  unfold returns, wp. destruct (m w) as [a w'|e w'|].
  - split; [by eauto|]. by intros (? & ? & [= <- <-] & ?).
  - split; [done|]. by intros (? & ? & ? & ?).
  - split; [done|]. by intros (? & ? & ? & ?).
Qed.

Lemma wp_conj {A} (m : M A) (w : State) Q1 Q2 E1 E2 D1 D2 :
  wp m w Q1 E1 D1 -> wp m w Q2 E2 D2 ->
  wp m w (fun a w' => Q1 a w' /\ Q2 a w') (fun w' => E1 w' /\ E2 w')
     (D1 /\ D2).
Proof. unfold wp. by destruct (m w). Qed.

Lemma returns_post {A} (m : M A) (w : State) (Q1 Q2 : State -> Prop) :
  returns m w Q1 -> post m w Q2 -> returns m w (fun w' => Q1 w' /\ Q2 w').
Proof.
  intros H1 H2. unfold returns.
  eapply wp_mono; [apply (wp_conj _ _ _ _ _ _ _ _ H1 H2)|..]; simpl.
  - done.
  - by intros ? [? _].
  - by intros [? _].
Qed.

Lemma active_valid (w : State) (p : addr) :
  p ∈ active w -> p < length (pobjs w).
Proof.
  intros [Hp _]%list_elem_of_filter. unfold is_playing in Hp.
  destruct (decide (p < length (pobjs w))) as [|Hge]; [done|].
  rewrite list_lookup_total_alt, lookup_ge_None_2 in Hp by lia. done.
Qed.

Lemma deal_one_spec (p c : addr) (d : list addr) (gd : PlayerGameData)
  (w : State) :
  deck w = Some (d ++ [c]) -> gd_at w p = Some gd ->
  deal_one p w
  = Ok tt (set_pobjs
             (alter (with_game_data (set_cards (cards gd ++ [c]) gd)) p)
             (set_deck d w)).
Proof.
  intros Hd Hgd. unfold deal_one, bind. rewrite (deck_pop_spec d c) by done.
  by rewrite (give_card_spec _ _ gd).
Qed.

(** One pass of the inner loop over distinct players, with cards enough
    for all of them. *)
Lemma deal_pass_exact (ps : list addr) (w : State) (d : list addr) :
  NoDup ps -> (forall p, p ∈ ps -> is_Some (gd_at w p)) ->
  deck w = Some d -> length ps <= length d ->
  returns (for_each ps deal_one) w (fun w' =>
    undealt w' = undealt w /\
    (exists d', deck w' = Some d' /\ length d' = length d - length ps) /\
    (forall p, p ∈ ps -> length (hand w' p) = S (length (hand w p))) /\
    (forall p, p ∉ ps -> hand w' p = hand w p)).
Proof.
  revert w d. induction ps as [|p ps IH]; intros w d Hnd Hgd Hd Hlen.
  { unfold returns. cbn. repeat split; try done.
    - exists d. split; [done|]. simpl. lia.
    - intros p Hp. by apply elem_of_nil in Hp. }
  apply list.NoDup_cons in Hnd as [Hp Hnd].
  destruct (Hgd p) as [gd Hp_gd]; [by left|].
  destruct (decide (d = [])) as [->|Hne]; [simpl in Hlen; lia|].
  destruct (exists_last Hne) as (d' & c & ->).
  rewrite length_app in Hlen. simpl in Hlen.
  unfold returns. cbn [for_each]. apply wp_bind.
  eapply wp_ok; [by apply (deal_one_spec p c d' gd)|].
  set (w1 := set_pobjs _ _).
  assert (forall q, hand w1 q = if decide (q = p) then cards gd ++ [c]
                                else hand w q) as Hh.
  { intros q. unfold w1. by rewrite (hand_upd _ _ gd). }
  assert (undealt w1 = undealt w) as Hu.
  { unfold undealt. f_equal. f_equal.
    by apply (views_upd_game_data p _ (set_deck d' w) gd). }
  eapply wp_mono; [apply (IH w1 d')|..]; try done.
  - intros q Hq. unfold w1, gd_at. simpl.
    change (is_Some (gd_at (set_pobjs (alter (with_game_data
      (set_cards (cards gd ++ [c]) gd)) p) w) q)).
    rewrite (gd_at_upd _ _ gd) by done. case_decide; [done|].
    apply Hgd. by right.
  - lia.
  - intros _ w' (Hu' & (d'' & Hd'' & Hl'') & Hin & Hout).
    repeat split.
    + congruence.
    + exists d''. split; [done|]. rewrite length_app. simpl. lia.
    + intros q [->|Hq]%elem_of_cons.
      * rewrite (Hout p Hp), Hh, decide_True by done.
        rewrite length_app. simpl. unfold hand. rewrite Hp_gd. lia.
      * rewrite (Hin q Hq), Hh, decide_False; [done|]. by intros ->.
    + intros q Hq. apply not_elem_of_cons in Hq as [Hne' Hq].
      by rewrite (Hout q Hq), Hh, decide_False.
Qed.

Lemma undealt_inv (w w' : State) :
  undealt w' = undealt w ->
  seats w' = seats w /\ discard w' = discard w /\ cobjs w' = cobjs w.
Proof. unfold undealt. intros H. repeat split; congruence. Qed.

(** The while loop, on a deck of [k] cards for each of the players. *)
Lemma deal_loop_exact (k : nat) (fuel : nat) (w : State) (d : list addr) :
  k < fuel -> NoDup (active w) -> active w <> [] ->
  (forall p, p ∈ active w -> is_Some (gd_at w p)) ->
  deck w = Some d -> length d = k * length (active w) ->
  returns (deal_loop fuel) w (fun w' =>
    undealt w' = undealt w /\ deck w' = Some [] /\
    (forall p, p ∈ active w -> length (hand w' p) = length (hand w p) + k) /\
    (forall p, p ∉ active w -> hand w' p = hand w p)).
Proof.
  revert fuel w d. induction k as [|k IH]; intros fuel w d Hf Hnd Hne Hgd Hd Hl.
  { destruct fuel as [|fuel]; [lia|]. simpl in Hl.
    apply nil_length_inv in Hl as ->.
    unfold returns. cbn [deal_loop]. apply wp_bind. unfold attr, wp at 1.
    rewrite Hd. simpl. unfold ret, wp. repeat split; try done;
      intros; lia. }
  destruct fuel as [|fuel]; [lia|].
  assert (0 < length (active w)) as Hn.
  { destruct (active w); [done|simpl; lia]. }
  unfold returns. cbn [deal_loop]. apply wp_bind. unfold attr, wp at 1.
  rewrite Hd.
  assert ((0 <? length d) = true) as -> by (apply Nat.ltb_lt; simpl in Hl; lia).
  apply wp_bind, wp_gets, wp_bind.
  eapply wp_mono; [apply (deal_pass_exact (active w) w d)|..]; try done.
  { simpl in Hl. lia. }
  intros _ w1 (Hu & (d1 & Hd1 & Hl1) & Hin & Hout). cbv beta.
  destruct (undealt_inv _ _ Hu) as (Hs & _ & _).
  pose proof (active_seats _ _ Hs) as Ha.
  eapply wp_mono; [apply (IH fuel w1 d1)|..]; try done; rewrite ?Ha; try done.
  - lia.
  - intros p Hp. apply (gd_at_seats _ _ _ Hs). by apply Hgd.
  - rewrite Hl1, Hl. simpl. lia.
  - intros _ w2 (Hu2 & Hd2 & Hin2 & Hout2).
    repeat split; try done.
    + congruence.
    + intros p Hp. rewrite (Hin2 p Hp), (Hin p Hp). lia.
    + intros p Hp. by rewrite (Hout2 p Hp), (Hout p Hp).
Qed.

Lemma deal_cards_exact (r : Random) (k : nat) (w : State) (d : list addr) :
  fair r -> NoDup (active w) -> active w <> [] ->
  (forall p, p ∈ active w -> is_Some (gd_at w p)) ->
  deck w = Some d -> length d = k * length (active w) ->
  returns (deal_cards r) w (fun w' =>
    undealt w' = undealt w /\ deck w' = Some [] /\
    (forall p, p ∈ active w -> length (hand w' p) = length (hand w p) + k) /\
    (forall p, p ∉ active w -> hand w' p = hand w p)).
Proof.
  intros [_ Hr] Hnd Hne Hgd Hd Hl.
  assert (0 < length (active w)) as Hn.
  { destruct (active w); [done|simpl; lia]. }
  unfold returns, deal_cards. apply wp_bind. unfold attr, wp at 1. rewrite Hd.
  apply wp_bind, wp_modify, wp_bind.
  set (w1 := set_deck _ w).
  eapply wp_ok; [by unfold attr|].
  assert (length (shuffle_cards r d) = length d) as Hsl by (by rewrite Hr).
  eapply wp_mono;
    [apply (deal_loop_exact k _ w1 (shuffle_cards r d))|..]; try done.
  - rewrite Hsl, Hl. nia.
  - by rewrite Hsl.
Qed.

(** ** Game.new_round, as a whole *)

Lemma ends_after {A} (m : M A) (w : State) (Q : State -> Prop) :
  ends m w Q <-> exists w', after (m w) = Some w' /\ Q w'.
Proof.
  unfold ends, wp, after. destruct (m w) as [a w'|e w'|].
  - split; [by eauto|]. by intros (? & [= <-] & ?).
  - split; [by eauto|]. by intros (? & [= <-] & ?).
  - split; [done|]. by intros (? & ? & ?).
Qed.

Lemma ends_post {A} (m : M A) (w : State) (Q1 Q2 : State -> Prop) :
  ends m w Q1 -> post m w Q2 -> ends m w (fun w' => Q1 w' /\ Q2 w').
Proof.
  intros H1 H2. unfold ends.
  eapply wp_mono; [apply (wp_conj _ _ _ _ _ _ _ _ H1 H2)|..]; simpl.
  - done.
  - done.
  - by intros [? _].
Qed.

Lemma ends_for_each {A} (I : State -> Prop) (l : list A) (body : A -> M unit)
  (w : State) :
  I w -> (forall x w', x ∈ l -> I w' -> ends (body x) w' I) ->
  ends (for_each l body) w I.
Proof. intros Hw Hb. unfold ends. by apply (wp_for_each I). Qed.

(** A method that only reads and writes comes to an end. *)
Ltac ends_go := unfold ends; wp_steps; try done.

Lemma ends_return_card c w : ends (return_card c) w (fun _ => True).
Proof. unfold return_card. ends_go. Qed.

Lemma ends_recollect p w : ends (recollect p) w (fun _ => True).
Proof.
  unfold recollect, ends. wp_step. unfold the_game_data. wp_steps; try done.
  eapply wp_mono;
    [apply (ends_for_each (fun _ => True)); [done|]|..]; try done.
  { intros. apply ends_return_card. }
  intros _ w' _. cbv beta. unfold upd_game_data, the_game_data.
  wp_steps; done.
Qed.

(** A pass over the players takes a card for each, or raises. *)
Lemma ends_deal_pass (ps : list addr) (w : State) (d : list addr) :
  deck w = Some d ->
  wp (for_each ps deal_one) w
     (fun _ w' => seats w' = seats w /\
                  exists d', deck w' = Some d' /\
                             length d' + length ps = length d)
     (fun _ => True) False.
Proof.
  revert w d. induction ps as [|p ps IH]; intros w d Hd.
  { cbn. split; [done|]. by exists d. }
  cbn [for_each]. apply wp_bind. unfold deal_one. apply wp_bind.
  unfold deck_pop. apply wp_bind. unfold attr, wp at 1. rewrite Hd.
  destruct (decide (d = [])) as [->|Hne]; [done|].
  destruct (exists_last Hne) as (d' & c & ->).
  rewrite last_snoc, removelast_last. apply wp_bind, wp_modify, wp_ret.
  unfold give_card, upd_game_data, the_game_data. wp_steps; try done.
  simplify_eq.
  match goal with H : game_data _ = Some ?gd |- _ => rename H into Hp end.
  set (w1 := set_pobjs _ _).
  assert (seats w1 = seats w) as Hs.
  { by eapply (views_upd_game_data p _ (set_deck d' w)). }
  eapply wp_mono; [apply (IH w1 d'); done|..]; try done.
  intros _ w2 (Hs2 & d2 & Hd2 & Hl2). split; [congruence|].
  exists d2. split; [done|]. rewrite length_app. simpl. lia.
Qed.

Lemma ends_deal_loop (fuel : nat) (w : State) (d : list addr) :
  active w <> [] -> deck w = Some d -> length d < fuel ->
  ends (deal_loop fuel) w (fun _ => True).
Proof.
  revert w d. induction fuel as [|fuel IH]; intros w d Hne Hd Hl; [lia|].
  unfold ends. cbn [deal_loop]. apply wp_bind. unfold attr, wp at 1.
  rewrite Hd. destruct (0 <? length d) eqn:E; [|done].
  apply wp_bind, wp_gets, wp_bind.
  eapply wp_mono; [apply (ends_deal_pass _ w d Hd)|..]; try done.
  intros _ w1 (Hs & d1 & Hd1 & Hl1). cbv beta.
  apply (IH w1 d1); [|done|].
  - by rewrite (active_seats _ _ Hs).
  - destruct (active w); [done|]. simpl in Hl1. lia.
Qed.

Lemma ends_deal_cards (r : Random) (w : State) :
  active w <> [] -> ends (deal_cards r) w (fun _ => True).
Proof.
  intros Hne. unfold ends, deal_cards. wp_step. wp_step; [|done].
  wp_step. wp_step. wp_step. wp_step; [|done].
  match goal with H : deck _ = Some ?a |- wp _ ?w1 _ _ _ =>
    apply (ends_deal_loop _ w1 a); [done|done|lia] end.
Qed.

Lemma ends_new_round (r : Random) (w : State) :
  active w <> [] -> ends (new_round r) w (fun _ => True).
Proof.
  intros Hne. unfold ends, new_round, get_active_players.
  do 2 (apply wp_bind, wp_modify). apply wp_bind, wp_gets, wp_bind.
  set (w1 := set_turn _ _).
  eapply wp_mono.
  - apply (ends_post _ _ (fun _ => True) (fun w' => table w' = table w1)).
    + apply ends_for_each; [done|]. intros. apply ends_recollect.
    + apply (wp_for_each (fun w' => table w' = table w1)); [done| |done].
      intros p w' _ Hw'. by apply stable_table_recollect.
  - intros _ w2 [_ Hw2]. cbv beta. apply ends_deal_cards.
    assert (seats w2 = seats w1) as Hs by (unfold table in Hw2; congruence).
    by rewrite (active_seats _ _ Hs).
  - done.
  - done.
Qed.

Lemma stable_cobjs_upd_game_data p f : stable cobjs (upd_game_data p f).
Proof. intros v w Hw. unfold post, upd_game_data. wp_steps; done. Qed.
#[local] Hint Resolve stable_cobjs_upd_game_data : inv.

Lemma stable_cobjs_deal_loop fuel : stable cobjs (deal_loop fuel).
Proof.
  intros v. induction fuel as [|fuel IH]; cbn [deal_loop];
    unfold deal_one, deck_pop, give_card; inv_go.
Qed.
#[local] Hint Resolve stable_cobjs_deal_loop : inv.

Lemma stable_cobjs_new_round r : stable cobjs (new_round r).
Proof.
  intros v. unfold new_round, deal_cards, recollect, return_card. inv_go.
Qed.

(** C9: [new_round] comes to an end and leaves the pool of cards (deck,
    discard and the active players' hands) a rearrangement of what it
    was: the same card objects, so the same number of cards and the same
    kinds. *)
Theorem new_round_round_trip (r : Random) (w : State) :
  fair r -> in_play w -> active w <> [] ->
  exists w', after (new_round r w) = Some w' /\
    pool w' ≡ₚ pool w /\
    length (pool w') = length (pool w) /\
    map (title_at w') (pool w') ≡ₚ map (title_at w) (pool w).
Proof.
  intros Hr Hw Hne. apply ends_after.
  assert (Cards (active w) (pool w) w) as HC by done.
  pose proof (ends_post _ _ _ _
    (ends_post _ _ _ _ (ends_new_round r w Hne)
       (keeps_Cards_new_round _ _ r Hr w HC))
    (stable_cobjs_new_round r _ w eq_refl)) as H.
  unfold ends in *. eapply wp_mono; [exact H|..]; try done.
  - intros _ w' [[_ (_ & _ & Hp)] Hc]. repeat split; [done|by rewrite Hp|].
    unfold title_at. rewrite Hc. by rewrite Hp.
  - intros w' [[_ (_ & _ & Hp)] Hc]. repeat split; [done|by rewrite Hp|].
    unfold title_at. rewrite Hc. by rewrite Hp.
Qed.

(** ** Game.start_game *)

Lemma start_playing_spec (p : addr) (ro : Role) (w : State) :
  p < length (pobjs w) ->
  start_playing p ro w = Ok tt (set_pobjs (alter (seated ro) p) w).
Proof.
  intros Hp. unfold start_playing, upd_game_data, the_game_data.
  unfold upd_player, player_at, bind, gets, modify, ret. simpl.
  rewrite !list_lookup_total_alter_eq by (by rewrite ?length_alter).
  simpl. f_equal. unfold set_pobjs. simpl. f_equal.
  rewrite !list_alter_alter_eq. by apply list_alter_ext.
Qed.

Lemma assign_roles_spec (roles : list Role) (ps : list addr) (i : nat)
  (w : State) :
  (forall p, p ∈ ps -> is_playing w p) ->
  wp (assign_roles roles i ps) w
     (fun _ w' => reseated w w' /\
                  (forall q, q ∈ ps \/ blank w q -> blank w' q))
     (fun w' => reseated w w' /\ length roles < i + length ps)
     False.
Proof.
  revert i w. induction ps as [|p ps IH]; intros i w Hps.
  { cbn. repeat split; [by destruct w|]. by intros q [?%elem_of_nil|]. }
  cbn [assign_roles].
  destruct (roles !! i) as [ro|] eqn:Hro.
  2:{ apply lookup_ge_None_1 in Hro. repeat split; [by destruct w|].
      simpl. lia. }
  apply lookup_lt_Some in Hro.
  assert (p < length (pobjs w)) as Hlt.
  { assert (is_playing w p) as Hp by (apply Hps; by left).
    unfold is_playing in Hp.
    destruct (decide (p < length (pobjs w))) as [|Hge]; [done|].
    rewrite list_lookup_total_alt, lookup_ge_None_2 in Hp by lia. done. }
  apply wp_bind. eapply wp_ok; [by apply start_playing_spec|].
  set (w1 := set_pobjs _ w).
  assert (map status (pobjs w1) = map status (pobjs w)) as Hs1.
  { unfold w1. simpl. apply map_alter_same. simpl. symmetry. apply Hps. by left. }
  assert (forall q, status (pobjs w1 !!! q) = status (pobjs w !!! q)) as Hst.
  { intros q. by apply (map_eq_lookup_total status). }
  assert (forall q, gd_at w1 q = if decide (q = p)
            then Some (set_can_claim true (PlayerGameData_init ro))
            else gd_at w q) as Hgd.
  { intros q. unfold gd_at, w1. simpl. rewrite list_lookup_total_alter.
    destruct (decide (q = p)) as [->|Hne].
    - by rewrite decide_True.
    - rewrite decide_False; [done|]. intros [? _]. by apply Hne. }
  assert (forall w', reseated w1 w' -> reseated w w') as Hre.
  { intros w' [Hw' Hs']. split; [|congruence]. rewrite Hw'. by destruct w. }
  eapply wp_mono; [apply (IH (S i) w1)|..]; try done.
  - intros q Hq. unfold is_playing. rewrite Hst. apply Hps. by right.
  - intros _ w' (Hw' & Hb'). split; [by apply Hre|].
    intros q Hq. apply Hb'.
    destruct (decide (q = p)) as [->|Hne].
    { right. eexists. rewrite Hgd, decide_True by done. done. }
    destruct Hq as [[->|Hq]%elem_of_cons|(gd & Hq & Hc)]; [done|by left|].
    right. exists gd. by rewrite Hgd, decide_False.
  - intros w' (Hw' & Hl). split; [by apply Hre|]. simpl. lia.
Qed.

Lemma deal_loop_nobody (fuel : nat) (w : State) (d : list addr) :
  active w = [] -> deck w = Some d -> d <> [] -> deal_loop fuel w = Diverge.
Proof.
  intros Ha Hd Hne. induction fuel as [|fuel IH]; [done|].
  cbn [deal_loop]. unfold bind at 1, attr. rewrite Hd.
  assert ((0 <? length d) = true) as ->.
  { apply Nat.ltb_lt. destruct d; [done|simpl; lia]. }
  unfold bind at 1, get_active_players, gets. rewrite Ha. cbn. apply IH.
Qed.

Lemma make_roles_spec (r : Random) (w : State) :
  fair r ->
  make_roles role_info r w
  = match role_info (count_active w) with
    | None => Raise (GameError "Failed to find a role setup.") w
    | Some (ni, nc) =>
        Ok (shuffle_roles r (replicate ni Investigator
                             ++ replicate nc Cultist)) w
    end.
Proof.
  intros _. unfold make_roles, bind, count_active_players, gets.
  by destruct (role_info (count_active w)) as [[ni nc]|].
Qed.

Lemma deck_types_five (n : nat) : 0 < n -> length (deck_types n) = 5 * n.
Proof.
  intros Hn. rewrite deck_types_length. destruct (8 <? n); lia.
Qed.

Lemma concat_nils {X} (h : addr -> list X) (l : list addr) :
  (forall p, p ∈ l -> h p = []) -> concat (map h l) = [].
Proof.
  induction l as [|p l IH]; intros H; [done|]. simpl.
  rewrite (H p) by (by left). apply IH. intros q Hq. apply H. by right.
Qed.

Lemma layout_piles (w w' : State) :
  layout w' = layout w -> deck w' = deck w /\ discard w' = discard w.
Proof. unfold layout. intros H. split; congruence. Qed.

Lemma seats_players (w w' : State) :
  seats w' = seats w -> players w' = players w.
Proof. unfold seats. congruence. Qed.

Lemma deal_cards_nobody (r : Random) (w : State) (d : list addr) :
  active w = [] -> deck w = Some d -> d <> [] -> fair r ->
  deal_cards r w = Diverge.
Proof.
  intros Ha Hd Hne [_ Hr]. unfold deal_cards, bind at 1, attr. rewrite Hd.
  unfold bind at 1, modify. unfold bind at 1, attr. cbn [deck set_deck].
  apply (deal_loop_nobody _ _ (shuffle_cards r d)); try done.
  intros Hs. apply Hne. apply Permutation_nil_r. by rewrite <- Hr, Hs.
Qed.

Lemma reseated_refl (w : State) : reseated w w.
Proof. split; [by destruct w|done]. Qed.

(** [start_game] on a game that has not seated: it returns with the
    cards dealt, or raises for want of a role set-up and leaves all but
    the players' game data as it was; it never ends only when nobody is
    playing. *)
Lemma start_game_wp (r : Random) (w : State) :
  game_status w = Unstarted -> NoDup (active w) -> fair r ->
  wp (start_game card_title role_info r) w
     (fun _ w' => dealt_from card_title w w')
     (fun w' => reseated w w' /\ no_setup role_info w)
     (active w = []).
Proof.
  intros Hu Hnd Hr.
  unfold start_game. apply wp_bind, wp_gets. rewrite Hu.
  rewrite bool_decide_false by (by intros ?).
  apply wp_bind. unfold wp at 1. rewrite make_roles_spec by done.
  unfold no_setup.
  destruct (role_info (count_active w)) as [[ni nc]|] eqn:Hri.
  2:{ split; [apply reseated_refl|done]. }
  set (roles := shuffle_roles r _).
  assert (length roles = ni + nc) as Hlen.
  { unfold roles. destruct Hr as [-> _].
    by rewrite length_app, !length_replicate. }
  apply wp_bind, wp_gets, wp_bind.
  eapply wp_mono; [apply (assign_roles_spec roles (active w) 0 w)|..].
  { intros p Hp. by apply list_elem_of_filter in Hp as [? _]. }
  3:{ done. }
  2:{ intros w' [Hw' Hl]. split; [done|].
      rewrite count_active_length. simpl in Hl. lia. }
  intros _ w1 ((Hw1 & Hs1) & Hb1). cbv beta.
  assert (players w1 = players w) as Hp1 by (by rewrite Hw1).
  assert (cobjs w1 = cobjs w) as Hc1 by (by rewrite Hw1).
  assert (game_status w1 = game_status w) as Hg1 by (by rewrite Hw1).
  assert (active w1 = active w) as Ha1.
  { unfold active. rewrite Hp1. apply list_filter_iff. intros p.
    unfold is_playing. by rewrite (map_eq_lookup_total status _ _ p Hs1). }
  assert (count_active w1 = count_active w) as Hn1.
  { by rewrite !count_active_length, Ha1. }
  assert (round_counter w1 = round_counter w) as Hrc1 by (by rewrite Hw1).
  clear Hw1.
  apply wp_bind. eapply wp_ok; [apply create_deck_spec|]. rewrite Hn1.
  destruct (decide (active w = [])) as [Hnil|Hne].
  { apply wp_bind. unfold wp at 1.
    rewrite (deal_cards_nobody r _ (seq (length (cobjs w1))
               (length (deck_types (count_active w))))); try done.
    - by rewrite <- Hnil, <- Ha1.
    - intros Hs. apply (f_equal length) in Hs.
      rewrite length_seq, deck_types_length in Hs. simpl in Hs.
      destruct (8 <? count_active w); lia. }
  assert (0 < count_active w) as Hpos.
  { rewrite count_active_length. destruct (active w); [done|simpl; lia]. }
  set (T := deck_types (count_active w)).
  set (w2 := grow card_title T _).
  assert (deck w2 = Some (seq (length (cobjs w)) (length T))) as Hd2.
  { unfold w2, grow. simpl. by rewrite Hc1. }
  assert (forall p, gd_at w2 p = gd_at w1 p) as Hgd2 by done.
  assert (forall p, hand w2 p = hand w1 p) as Hh2 by done.
  assert (active w2 = active w) as Ha2 by (by rewrite <- Ha1).
  assert (forall p, p ∈ active w -> hand w2 p = []) as Hempty.
  { intros p Hp. destruct (Hb1 p) as (gd & Hgd & Hc); [by left|].
    rewrite Hh2. unfold hand. by rewrite Hgd. }
  assert (in_play w2) as Hin2.
  { repeat split; try (by eexists).
    - by rewrite Ha2.
    - intros p Hp. rewrite Ha2 in Hp. rewrite Hgd2.
      destruct (Hb1 p) as (gd & -> & _); [by left|done]. }
  assert (pool w2 ≡ₚ seq (length (cobjs w)) (5 * count_active w)) as Hpool2.
  { unfold pool. rewrite Hd2, Ha2, concat_nils by done. simpl.
    rewrite !app_nil_r. unfold T. by rewrite deck_types_five. }
  apply wp_bind.
  eapply wp_mono;
    [apply (returns_post _ _ _ (Cards (active w) (pool w2))
              (deal_cards_exact r 5 w2 _ Hr ltac:(by rewrite Ha2)
                 ltac:(by rewrite Ha2) ltac:(by destruct Hin2 as (_ & ? & _))
                 Hd2 ltac:(rewrite length_seq, Ha2, <- count_active_length;
                           unfold T; rewrite deck_types_five by done; lia)));
     by apply keeps_Cards_deal_cards| |by intros ? []|by intros []].
  intros _ w3 ((Hu3 & Hd3 & Hh3 & _) & (Ha3 & Hin3 & Hpool3)). cbv beta.
  destruct (undealt_inv _ _ Hu3) as (Hs3 & Hds3 & Hc3).
  rewrite Ha2 in Hh3.
  apply wp_bind, wp_gets. rewrite Ha3.
  destruct (lookup_lt_is_Some_2 (active w) (choice r `mod` length (active w)))
    as [p Hp].
  { apply Nat.mod_upper_bound. rewrite <- count_active_length. lia. }
  rewrite Hp. apply list_elem_of_lookup_2 in Hp.
  destruct Hin3 as (Hnd3 & Hgd3 & _ & _).
  destruct (Hgd3 p) as [gd Hgd]; [by rewrite Ha3|].
  apply wp_bind. eapply wp_ok.
  { unfold toggle_flashlight, upd_game_data, the_game_data, bind, player_at,
      gets, bind. unfold gd_at in Hgd. rewrite Hgd. reflexivity. }
  set (w4 := set_pobjs _ w3).
  destruct (views_upd_game_data p
    (set_has_flashlight (negb (has_flashlight gd)) gd) w3 gd Hgd)
    as (Hs4 & _ & Hl4).
  specialize (Hl4 eq_refl). fold w4 in Hs4, Hl4.
  do 3 (apply wp_bind, wp_modify). apply wp_modify.
  set (w5 := set_turn _ _).
  assert (active w5 = active w) as Ha5.
  { change (active w5) with (active w4).
    by rewrite (active_seats _ _ Hs4), Ha3. }
  assert (forall q, hand w5 q = hand w3 q) as Hh5.
  { intros q. change (hand w5 q) with (hand w4 q). by apply hand_layout. }
  assert (deck w5 = Some [] /\ discard w5 = Some []) as [Hd5 Hds5].
  { change (deck w5) with (deck w4). change (discard w5) with (discard w4).
    destruct (layout_piles _ _ Hl4) as [-> ->]. split; [done|].
    by rewrite Hds3. }
  unfold dealt_from. repeat split; try done.
  - change (players w5) with (players w4).
    by rewrite (seats_players _ _ Hs4), (seats_players _ _ Hs3).
  - change (pobjs w5) with (pobjs w4). rewrite <- Hs1.
    change (pobjs w1) with (pobjs w2).
    unfold seats in Hs4, Hs3. congruence.
  - by rewrite Ha5.
  - intros q Hq. rewrite Ha5 in Hq. change (gd_at w5 q) with (gd_at w4 q).
    apply (gd_at_seats _ _ _ Hs4), Hgd3. by rewrite Ha3.
  - change (cobjs w5) with (cobjs w3). rewrite Hc3. unfold w2, grow. simpl.
    by rewrite Hc1.
  - intros q Hq. rewrite Hh5, (Hh3 q Hq), (Hempty q Hq). done.
  - rewrite <- Hpool2, <- Hpool3. unfold pool. rewrite Hd3, Hds3, Ha3. simpl.
    apply Permutation_refl'. f_equal. apply map_ext. intros q. apply Hh5.
Qed.

Lemma start_game_spec (r : Random) (w : State) (ni nc : nat) :
  game_status w = Unstarted -> NoDup (active w) -> active w <> [] ->
  role_info (count_active w) = Some (ni, nc) -> count_active w <= ni + nc ->
  fair r ->
  exists w', start_game card_title role_info r w = Ok tt w' /\
             dealt_from card_title w w'.
Proof.
  intros Hu Hnd Hne Hri Hn Hr.
  pose proof (start_game_wp r w Hu Hnd Hr) as H. unfold wp in H.
  destruct (start_game card_title role_info r w) as [[] w'|e w'|].
  - by exists w'.
  - destruct H as [_ H]. unfold no_setup in H. rewrite Hri in H. lia.
  - done.
Qed.

(** C8: with exactly five active players (and a role set-up for five),
    [create_deck] makes a deck of 25 cards, one Cthulhu, five Elder Signs
    and nineteen Blanks, and [start_game] makes just these cards and deals
    them all, five to each active player. *)
Theorem start_game_five_players (r : Random) (w : State) (ni nc : nat) :
  fair r -> game_status w = Unstarted -> NoDup (active w) ->
  count_active w = 5 -> role_info 5 = Some (ni, nc) -> 5 <= ni + nc ->
  let made := map (Card_init card_title)
                (["Cthulhu"] ++ replicate 5 "Elder Sign"
                 ++ replicate 19 "Blank") in
  (exists w1, create_deck card_title w = Ok tt w1 /\
     cobjs w1 = cobjs w ++ made /\
     deck w1 = Some (seq (length (cobjs w)) 25)) /\
  exists w', start_game card_title role_info r w = Ok tt w' /\
    cobjs w' = cobjs w ++ made /\
    deck w' = Some [] /\
    concat (map (hand w') (active w')) ≡ₚ seq (length (cobjs w)) 25 /\
    forall p, p ∈ active w' -> length (hand w' p) = 5.
Proof.
  intros Hr Hu Hnd H5 Hri Hn made. split.
  - eexists. split; [apply create_deck_spec|]. rewrite H5. by split.
  - assert (active w <> []) as Hne.
    { intros Ha. rewrite count_active_length, Ha in H5. done. }
    rewrite <- H5 in Hri, Hn.
    destruct (start_game_spec r w ni nc Hu Hnd Hne Hri Hn Hr)
      as (w' & Hw' & _ & Hg & Hrc & Hp & Hst & Ha & Hin & Hc & Hd & Hds & Hh & Hall).
    rewrite H5 in Hc, Hall.
    exists w'. rewrite Ha. by repeat split.
Qed.

(** ** The cards of a game *)

Lemma seats_status (w w' : State) (p : addr) :
  seats w' = seats w -> status (pobjs w' !!! p) = status (pobjs w !!! p).
Proof.
  intros Hs. apply (map_eq_lookup_total status). unfold seats in Hs. congruence.
Qed.

Lemma Sound_seats (w w' : State) :
  Sound w -> seats w' = seats w ->
  (started w -> Cards (active w) (seq 0 (length (cobjs w))) w') ->
  Sound w'.
Proof.
  intros (Hnd & Hst & Hrc) Hs HC.
  assert (players w' = players w) as Hp by (by apply seats_players).
  assert (round_counter w' = round_counter w /\ game_status w' = game_status w
          /\ length (cobjs w') = length (cobjs w)) as (Hr & Hg & Hl).
  { unfold seats in Hs. repeat split; congruence. }
  split; [|split].
  - by rewrite Hp.
  - intros p Hpin. rewrite (seats_status _ _ _ Hs). apply Hst. by rewrite <- Hp.
  - rewrite Hr. destruct (round_counter w) as [n|] eqn:E.
    + destruct Hrc as (Hu & _ & H5). split; [|split].
      * by rewrite Hg.
      * rewrite (active_seats _ _ Hs), Hl. apply HC. by exists n.
      * by rewrite Hl, !count_active_length, (active_seats _ _ Hs),
          <- count_active_length.
    + rewrite Hrc in Hl. by apply nil_length_inv.
Qed.

Lemma Sound_post {A} (m : M A) (w : State) :
  Sound w -> stable seats m ->
  (forall X, keeps (Cards (active w) X) m) ->
  post m w Sound.
Proof.
  intros Hw Hs HC. unfold post.
  destruct (decide (started w)) as [Hst|Hst].
  - assert (Cards (active w) (seq 0 (length (cobjs w))) w) as HCw.
    { destruct Hw as (_ & _ & Hrc). destruct Hst as [n Hn]. rewrite Hn in Hrc.
      by destruct Hrc as (_ & ? & _). }
    eapply wp_mono;
      [apply (wp_conj _ _ _ _ _ _ _ _ (Hs _ w eq_refl) (HC _ w HCw))|..];
      try done.
    + intros ? w' [H1 H2]. by apply (Sound_seats w).
    + intros w' [H1 H2]. by apply (Sound_seats w).
  - eapply wp_mono; [apply (Hs _ w eq_refl)|..]; try done.
    + intros ? w' H1. by apply (Sound_seats w).
    + intros w' H1. by apply (Sound_seats w).
Qed.

Lemma keeps_Sound_set_claim p b e c r :
  fair r -> keeps Sound (set_claim card_title p b e c r).
Proof.
  intros Hr w Hw. apply Sound_post; [done| |].
  - apply stable_table_seats, stable_table_set_claim.
  - intros X. by apply keeps_Cards_set_claim.
Qed.

Lemma keeps_Sound_investigate u t pos r :
  fair r -> keeps Sound (investigate u t pos r).
Proof.
  intros Hr w Hw. apply Sound_post; [done| |].
  - apply stable_seats_investigate.
  - intros X. by apply keeps_Cards_investigate.
Qed.

Lemma layout_gd_at (w w' : State) (p : addr) :
  layout w' = layout w -> is_Some (gd_at w' p) <-> is_Some (gd_at w p).
Proof.
  intros Hl. unfold gd_at.
  assert (cards <$> game_data (pobjs w' !!! p)
          = cards <$> game_data (pobjs w !!! p)) as H.
  { apply (map_eq_lookup_total (fun pl => cards <$> game_data pl)).
    unfold layout in Hl. congruence. }
  destruct (game_data (pobjs w' !!! p)), (game_data (pobjs w !!! p));
    simpl in H; try done; split; by eauto.
Qed.

Lemma Cards_ext (X : list addr) (w w' : State) :
  active w' = active w -> layout w' = layout w ->
  Cards (active w) X w -> Cards (active w') X w'.
Proof.
  intros Ha Hl (_ & (Hnd & Hgd & Hd & Hds) & Hp).
  destruct (layout_piles _ _ Hl) as [Hdk Hdc].
  assert (map (hand w') (active w) = map (hand w) (active w)) as Hh.
  { apply map_ext. intros p. by apply hand_layout. }
  unfold Cards, in_play, pool. rewrite Ha, Hh, Hdk, Hdc.
  repeat split; try done.
  intros p Hpa. apply (layout_gd_at _ _ _ Hl). by apply Hgd.
Qed.

Lemma Sound_ext (w w' : State) :
  Sound w -> NoDup (players w') ->
  (forall p, p ∈ players w' -> status (pobjs w' !!! p) <> Idle) ->
  round_counter w' = round_counter w -> cobjs w' = cobjs w ->
  (started w ->
   game_status w' <> Unstarted /\ active w' = active w
   /\ layout w' = layout w) ->
  Sound w'.
Proof.
  intros (_ & _ & Hrc) Hnd Hst Hr Hc HS. split; [done|]. split; [done|].
  rewrite Hr, Hc. destruct (round_counter w) as [n|] eqn:E; [|done].
  destruct Hrc as (_ & HC & H5).
  destruct HS as (Hg & Ha & Hl); [by exists n|].
  split; [done|]. split.
  - by apply (Cards_ext _ w).
  - by rewrite H5, !count_active_length, Ha.
Qed.

Lemma filter_ext_elem (P Q : addr -> Prop) `{!forall x, Decision (P x)}
  `{!forall x, Decision (Q x)} (l : list addr) :
  (forall x, x ∈ l -> P x <-> Q x) -> filter P l = filter Q l.
Proof.
  induction l as [|x l IH]; intros Hext; [done|].
  rewrite !filter_cons.
  assert (filter P l = filter Q l) as ->
    by (apply IH; intros; apply Hext; by right).
  destruct (decide (P x)) as [HP|HP], (decide (Q x)) as [HQ|HQ]; try done.
  - destruct HQ. by apply (Hext x); [left|].
  - destruct HP. by apply (Hext x); [left|].
Qed.

Lemma keeps_Sound_add_player (p : addr) (playing : bool) (w : State) :
  p < length (pobjs w) -> Sound w -> post (add_player p playing) w Sound.
Proof.
  intros Hlt Hw. unfold post, add_player, upd_player. wp_steps; try done.
  destruct Hw as (Hnd & Hst & Hrc).
  assert (p ∉ players w) as Hnew.
  { intros Hin. specialize (Hst p Hin).
    rewrite !(bool_decide_true (p ∈ players w)) in * by done.
    simpl in *.
    repeat match goal with H : bool_decide (status _ = _) = false |- _ =>
             apply bool_decide_eq_false in H end.
    by destruct (status (pobjs w !!! p)). }
  set (s := if playing then Playing else Spectating).
  set (w' := set_players _ _).
  assert (forall q, status (pobjs w' !!! q)
                    = if decide (q = p) then s else status (pobjs w !!! q))
    as Hs'.
  { intros q. unfold w'. simpl. rewrite list_lookup_total_alter.
    destruct (decide (q = p)) as [->|Hne].
    - by rewrite decide_True.
    - rewrite decide_False; [done|]. intros [? _]. by apply Hne. }
  apply (Sound_ext w); try done.
  - change (players w') with (players w ++ [p]).
    apply list.NoDup_app. repeat split; [done| |apply NoDup_singleton].
    intros q Hq ->%list_elem_of_singleton. done.
  - intros q Hq. rewrite Hs'.
    destruct (decide (q = p)) as [->|Hne]; [unfold s; by destruct playing|].
    apply Hst. change (players w') with (players w ++ [p]) in Hq.
    apply elem_of_app in Hq as [Hq|Hq%list_elem_of_singleton]; done.
  - intros [n Hn]. rewrite Hn in Hrc. destruct Hrc as (Hu & _ & _).
    assert (playing = false) as ->.
    { match goal with H : bool_decide (game_status w ≠ Unstarted) && _ = false
        |- _ => rewrite bool_decide_true in H by done; by destruct playing end. }
    repeat split; [done| |].
    + unfold active. change (players w') with (players w ++ [p]).
      rewrite list.filter_app, filter_cons, filter_nil.
      rewrite decide_False.
      2:{ unfold is_playing. rewrite Hs', decide_True by done. done. }
      rewrite app_nil_r. apply filter_ext_elem. intros q Hq.
      unfold is_playing. rewrite Hs', decide_False; [done|]. by intros ->.
    + unfold layout, w'. simpl. f_equal. f_equal.
      by apply map_alter_same.
Qed.

Lemma remove_first_elem (p q : addr) (l : list addr) :
  q ∈ remove_first p l -> q ∈ l.
Proof.
  induction l as [|y l IH]; [done|]. simpl.
  destruct (decide (p = y)) as [<-|E].
  - by right.
  - intros [->|Hq]%elem_of_cons; [by left|]. right. by apply IH.
Qed.

Lemma remove_first_NoDup (p : addr) (l : list addr) :
  NoDup l -> NoDup (remove_first p l).
Proof.
  induction 1 as [|y l Hy Hl IH]; [apply NoDup_nil_2|]. simpl.
  destruct (decide (p = y)) as [<-|E]; [done|].
  apply NoDup_cons_2; [|done]. intros Hin. apply Hy.
  by apply (remove_first_elem p).
Qed.

Lemma filter_remove_first (P : addr -> Prop) `{!forall x, Decision (P x)}
  (p : addr) (l : list addr) :
  p ∉ filter P l -> filter P (remove_first p l) = filter P l.
Proof.
  induction l as [|y l IH]; intros Hp; [done|]. simpl.
  rewrite filter_cons in Hp.
  destruct (decide (p = y)) as [->|E], (decide (P y)) as [HP|HP].
  - destruct Hp. by left.
  - by rewrite filter_cons, decide_False.
  - rewrite !filter_cons, !decide_True by done.
    f_equal. apply IH. intros Hin. apply Hp. by right.
  - rewrite !filter_cons, !decide_False by done. by apply IH.
Qed.

Lemma keeps_Sound_remove_player (p : addr) (w : State) :
  game_status w = Unstarted \/ p ∉ active w ->
  Sound w -> post (remove_player p) w Sound.
Proof.
  intros Hstay Hw. unfold post, remove_player. wp_steps; try done.
  destruct Hw as (Hnd & Hst & Hrc).
  apply (Sound_ext w); try done.
  - by apply remove_first_NoDup.
  - intros q Hq. apply Hst. by apply (remove_first_elem p).
  - intros [n Hn]. rewrite Hn in Hrc. destruct Hrc as (Hu & _ & _).
    destruct Hstay as [?|Hp]; [done|].
    repeat split; [done|]. by apply filter_remove_first.
Qed.

Lemma keeps_Sound_end_game : keeps Sound end_game.
Proof.
  intros w Hw. unfold post, end_game. wp_step.
  destruct Hw as (Hnd & Hst & Hrc). apply (Sound_ext w); done.
Qed.

Lemma keeps_Sound_start_game (r : Random) :
  fair r -> keeps Sound (start_game card_title role_info r).
Proof.
  intros Hr w Hw. unfold post.
  destruct (decide (game_status w = Unstarted)) as [Hu|Hu].
  2:{ unfold start_game. apply wp_bind, wp_gets.
      by rewrite bool_decide_true. }
  pose proof Hw as (Hnd & Hst & Hrc).
  assert (round_counter w = None /\ cobjs w = []) as [Hn Hc].
  { destruct (round_counter w); [by destruct Hrc|done]. }
  eapply wp_mono; [apply (start_game_wp r w)|..];
    try done.
  - by apply list.NoDup_filter.
  - intros ? w' (Hne & Hg & Hrc' & Hp & Hs & Ha & Hin & Hc' & Hd & Hds
                 & Hh & Hall).
    split; [by rewrite Hp|]. split.
    { intros p Hpin. rewrite (map_eq_lookup_total status _ _ p Hs).
      apply Hst. by rewrite <- Hp. }
    rewrite Hrc'. split; [by rewrite Hg|].
    assert (length (cobjs w') = 5 * count_active w) as Hl.
    { rewrite Hc', Hc, length_app, length_map. simpl.
      apply deck_types_five. rewrite count_active_length.
      destruct (active w); [done|simpl; lia]. }
    split.
    + split; [done|]. split; [done|]. unfold pool. rewrite Hd, Hds, Ha. simpl.
      rewrite Hall, Hl, Hc. done.
    + by rewrite Hl, !count_active_length, Ha.
  - intros w' [[Hw' Hs] _]. apply (Sound_ext w); try done.
    + by rewrite Hw'.
    + intros p Hpin. rewrite (map_eq_lookup_total status _ _ p Hs).
      apply Hst. by rewrite Hw' in Hpin.
    + by rewrite Hw'.
    + by rewrite Hw'.
    + intros [n Hn']. by rewrite Hn in Hn'.
Qed.

Lemma Sound_Game_init (n : nat) : Sound (Game_init n).
Proof. split; [apply NoDup_nil_2|]. split; [|done]. by intros p ?%elem_of_nil. Qed.

Lemma reachable_Sound (w : State) :
  reachable_by card_title role_info stays w -> Sound w.
Proof.
  induction 1 as [n|w op w' _ IH [Hp Hr] Hstay Hcall]; [apply Sound_Game_init|].
  eapply post_after; [|exact Hcall]. destruct op; simpl in *.
  - apply keeps_Sound_add_player; [|done]. apply Hp. by left.
  - by apply keeps_Sound_remove_player.
  - apply keeps_Sound_start_game; [|done]. by apply Hr.
  - apply keeps_Sound_set_claim; [|done]. by apply Hr.
  - apply keeps_Sound_investigate; [|done]. by apply Hr.
  - by apply keeps_Sound_end_game.
Qed.

(** C4, as amended: in every state reached after [start_game] by calls
    that remove no active player, the deck, the discard and the hands of
    the active players together hold each card made exactly once, and the
    cards are five for each active player. *)
Theorem cards_conserved (w : State) :
  reachable_by card_title role_info stays w -> started w ->
  pool w ≡ₚ seq 0 (length (cobjs w)) /\
  NoDup (pool w) /\
  length (pool w) = 5 * count_active w.
Proof.
  intros Hw [n Hn]. destruct (reachable_Sound w Hw) as (_ & _ & Hrc).
  rewrite Hn in Hrc. destruct Hrc as (_ & (_ & _ & Hp) & H5).
  repeat split; [done| |].
  - rewrite Hp. apply NoDup_seq.
  - by rewrite Hp, length_seq.
Qed.

(** ** Runs *)

Lemma staysb_stays (w : State) (op : Op) : staysb w op = true -> stays w op.
Proof.
  destruct op; simpl; try done. intros [H|H]%orb_true_iff.
  - left. by apply bool_decide_eq_true in H.
  - right. by apply bool_decide_eq_true in H.
Qed.

Lemma checked_reachable (strict : bool) (ops : list Op) (w w' : State) :
  let allowed := if strict then stays else fun _ _ => True in
  reachable_by card_title role_info allowed w ->
  all_fair ops -> checked card_title role_info strict ops w = true ->
  run card_title role_info ops w = Some w' ->
  reachable_by card_title role_info allowed w'.
Proof.
  intros allowed. revert w. induction ops as [|op ops IH]; intros w Hw Hf Hc Hrun.
  { by injection Hrun as <-. }
  destruct Hf as [Hr Hf]. cbn [checked run] in *.
  apply andb_true_iff in Hc as [[Hb Hs]%andb_true_iff Hc].
  destruct (after (call card_title role_info op w)) as [w1|] eqn:E; [|done].
  apply (IH w1); try done.
  apply (reach_call _ _ _ w op w1); try done.
  - split; [|done]. intros p Hp.
    rewrite forallb_forall in Hb. apply Nat.ltb_lt, Hb.
    by apply list_elem_of_In.
  - unfold allowed. destruct strict; [|done]. by apply staysb_stays.
Qed.

Lemma reachable_by_any (allowed : State -> Op -> Prop) (w : State) :
  reachable_by card_title role_info allowed w ->
  reachable card_title role_info w.
Proof.
  induction 1 as [n|w op w' _ IH Hok _ Hcall]; [apply reach_init|].
  by apply (reach_call _ _ _ w op w').
Qed.

Lemma fair_in_order : fair Sample.in_order.
Proof. by split. Qed.

Lemma fair_reversed : fair Sample.reversed.
Proof.
  split; [done|]. intros l. simpl. symmetry. apply Permutation_rev.
Qed.

Lemma in_playb_in_play (w : State) : in_playb w = true -> in_play w.
Proof.
  unfold in_playb.
  intros [[[H1 H2]%andb_true_iff H3]%andb_true_iff H4]%andb_true_iff.
  repeat split.
  - by apply bool_decide_eq_true in H1.
  - intros p Hp. rewrite forallb_forall in H2.
    apply list_elem_of_In in Hp. specialize (H2 p Hp).
    by apply bool_decide_eq_true in H2.
  - by apply bool_decide_eq_true in H3.
  - by apply bool_decide_eq_true in H4.
Qed.

(** ** The summaries of a player *)

Lemma string_app_assoc (a b c : string) :
  ((a ++ b) ++ c)%string = (a ++ (b ++ c))%string.
Proof. induction a as [|x a IH]; simpl; [done|]. by rewrite IH. Qed.

Lemma string_app_nil_r (a : string) : (a ++ EmptyString)%string = a.
Proof. induction a as [|x a IH]; simpl; [done|]. by rewrite IH. Qed.

Lemma foldl_append {X} (f : X -> string) (l : list X) (acc : string) :
  foldl (fun contents e => (contents ++ f e)%string) acc l
  = (acc ++ String.concat EmptyString (map f l))%string.
Proof.
  revert acc. induction l as [|x l IH]; intros acc; simpl.
  - by rewrite string_app_nil_r.
  - rewrite IH. destruct l as [|y l]; simpl.
    + by rewrite string_app_nil_r.
    + by rewrite string_app_assoc.
Qed.

Lemma elem_of_distinct (t : string) (l : list string) :
  t ∈ distinct l <-> t ∈ l.
Proof.
  induction l as [|a l IH]; simpl; [done|].
  rewrite !elem_of_cons, list_elem_of_filter, IH. split.
  - intros [->|[_ H]]; auto.
  - intros [->|H]; [by left|].
    destruct (decide (t = a)); [by left|by right].
Qed.

Lemma distinct_snoc (l : list string) (t : string) :
  distinct (l ++ [t]) = if decide (t ∈ l) then distinct l else distinct l ++ [t].
Proof.
  induction l as [|a l IH]; simpl.
  - destruct (decide (t ∈ [])) as [H|_]; [by apply elem_of_nil in H|done].
  - rewrite IH.
    destruct (decide (t ∈ l)) as [Hin|Hin], (decide (t ∈ a :: l)) as [Hin'|Hin'];
      try done.
    + exfalso. apply Hin'. by apply list_elem_of_further.
    + apply elem_of_cons in Hin' as [->|Hin']; [|done].
      rewrite list.filter_app, filter_cons.
      destruct (decide (a <> a)) as [Hne|_]; [done|].
      by rewrite filter_nil, app_nil_r.
    + rewrite list.filter_app, filter_cons.
      destruct (decide (t <> a)) as [_|Heq]; [by rewrite filter_nil|].
      exfalso. apply Hin'. apply dec_stable in Heq as ->. apply list_elem_of_here.
Qed.

Lemma occurrences_snoc (u t : string) (l : list string) :
  occurrences u (l ++ [t])
  = occurrences u l + (if decide (t = u) then 1 else 0).
Proof.
  unfold occurrences. rewrite list.filter_app, length_app, filter_cons.
  case_decide; simpl; done.
Qed.

Lemma occurrences_none (t : string) (l : list string) :
  t ∉ l -> occurrences t l = 0.
Proof.
  intros Hn. unfold occurrences.
  induction l as [|a l IH]; [done|]. rewrite filter_cons.
  rewrite not_elem_of_cons in Hn. destruct Hn as [Hne Hn].
  rewrite decide_False by done. by apply IH.
Qed.

Lemma dict_has_keys (t : string) (f : string -> nat) (d : list string) :
  dict_has t (map (fun u => (u, f u)) d) = bool_decide (t ∈ d).
Proof.
  unfold dict_has. induction d as [|a d IH]; cbn [existsb map fst].
  - by rewrite bool_decide_eq_false_2 by apply not_elem_of_nil.
  - rewrite IH. destruct (String.eqb_spec t a) as [->|Hne]; cbn [orb].
    + by rewrite bool_decide_eq_true_2 by apply list_elem_of_here.
    + apply bool_decide_ext. rewrite elem_of_cons. split; [by right|].
      by intros [?|?].
Qed.

(** The dict that the loop of [hand_summary] holds after the titles [l]. *)
Lemma dict_has_tally (t : string) (l : list string) :
  dict_has t (map (fun u => (u, occurrences u l)) (distinct l))
  = bool_decide (t ∈ l).
Proof.
  rewrite dict_has_keys. apply bool_decide_ext, elem_of_distinct.
Qed.

Lemma count_titles_spec (cs : list addr) (seen : list string) (w : State) :
  count_titles cs (map (fun u => (u, occurrences u seen)) (distinct seen)) w
  = Ok (map (fun u => (u, occurrences u (seen ++ map (title_at w) cs)))
            (distinct (seen ++ map (title_at w) cs))) w.
Proof.
  revert seen. induction cs as [|c cs IH]; intros seen; simpl.
  - by rewrite app_nil_r.
  - unfold bind at 1, card_at, gets.
    change (title (cobjs w !!! c)) with (title_at w c).
    rewrite dict_has_tally.
    replace (seen ++ title_at w c :: map (title_at w) cs)
      with ((seen ++ [title_at w c]) ++ map (title_at w) cs)
      by by rewrite <- app_assoc.
    rewrite <- IH.
    rewrite distinct_snoc. case_bool_decide as Hin.
    + rewrite decide_True by done. f_equal. unfold dict_incr. rewrite map_map.
      apply map_ext. intros u. simpl. rewrite occurrences_snoc.
      destruct (String.eqb_spec (title_at w c) u) as [->|Hne].
      * by rewrite decide_True.
      * rewrite decide_False by done. by rewrite Nat.add_0_r.
    + rewrite decide_False by done. f_equal. unfold dict_new.
      rewrite map_app. simpl. f_equal.
      * apply map_ext_in. intros u Hu. rewrite occurrences_snoc.
        rewrite decide_False; [by rewrite Nat.add_0_r|].
        intros Heq. apply Hin. rewrite Heq.
        apply elem_of_distinct. by apply list_elem_of_In.
      * rewrite occurrences_snoc, occurrences_none by done.
        by rewrite decide_True.
Qed.

Lemma NoDup_distinct (l : list string) : NoDup (distinct l).
Proof.
  induction l as [|x l IH]; simpl; [constructor|].
  constructor; [|by apply list.NoDup_filter].
  rewrite list_elem_of_filter. by intros [Hne _].
Qed.

Lemma occurrences_total_snoc (l d : list string) (a : string) :
  NoDup d ->
  sum_list_with (fun t => occurrences t (l ++ [a])) d
  = sum_list_with (fun t => occurrences t l) d
    + (if decide (a ∈ d) then 1 else 0).
Proof.
  induction 1 as [|x d Hx Hd IH]; simpl.
  - destruct (decide (a ∈ [])) as [H|_]; [by apply elem_of_nil in H|done].
  - rewrite IH, occurrences_snoc.
    destruct (decide (a = x)) as [->|Hne].
    + destruct (decide (x ∈ d)) as [?|_]; [done|].
      destruct (decide (x ∈ x :: d)) as [_|Hn]; [lia|].
      exfalso. apply Hn, list_elem_of_here.
    + destruct (decide (a ∈ d)) as [Hin|Hin],
               (decide (a ∈ x :: d)) as [Hin'|Hin']; try lia.
      * exfalso. apply Hin'. by apply list_elem_of_further.
      * apply elem_of_cons in Hin' as [?|?]; done.
Qed.

Lemma occurrences_total (l : list string) :
  sum_list_with (fun t => occurrences t l) (distinct l) = length l.
Proof.
  induction l as [|a l IH] using rev_ind; [done|].
  rewrite distinct_snoc, length_app. simpl.
  destruct (decide (a ∈ l)) as [Hin|Hin].
  - rewrite occurrences_total_snoc by apply NoDup_distinct.
    rewrite decide_True by by apply elem_of_distinct. by rewrite IH.
  - rewrite sum_list_with_app. simpl.
    rewrite occurrences_total_snoc by apply NoDup_distinct.
    rewrite decide_False by by rewrite elem_of_distinct.
    rewrite occurrences_snoc, occurrences_none, decide_True by done.
    rewrite IH. lia.
Qed.

(** X1 (Player.hand_summary): for a player without game data the summary
    raises GameError; otherwise it returns, without a change of the state,
    the listing of the titles in the hand: each distinct title once, in
    the order in which the titles first occur in the hand, with the number
    of cards of that title, face-up or not, before it.  The numbers add up
    to the size of the hand. *)
Theorem hand_summary_lists_titles (p : addr) (w : State) :
  hand_summary p w
  = match gd_at w p with
    | None => Raise (GameError "It appears this player isn't in a game.") w
    | Some gd => Ok (listing (map (title_at w) (cards gd))) w
    end
  /\ sum_list_with (fun t => occurrences t (map (title_at w) (hand w p)))
                    (distinct (map (title_at w) (hand w p)))
     = length (hand w p).
Proof.
  split.
  - unfold hand_summary, bind, player_at, gets, gd_at.
    destruct (game_data (pobjs w !!! p)) as [gd|]; [|done].
    pose proof (count_titles_spec (cards gd) [] w) as H. simpl in H.
    rewrite H. unfold ret. f_equal.
    by rewrite foldl_fmap, foldl_append.
  - by rewrite occurrences_total, length_map.
Qed.

(** ** The next player *)

Lemma index_of_split (x : addr) (l : list addr) :
  match index_of x l with
  | Some i => exists l1 l2, l = l1 ++ x :: l2 /\ (x ∉ l1) /\ i = length l1
  | None => x ∉ l
  end.
Proof.
  induction l as [|y l IH]; simpl; [apply not_elem_of_nil|].
  destruct (decide (x = y)) as [->|Hne].
  - exists [], l. split; [done|]. split; [apply not_elem_of_nil|done].
  - destruct (index_of x l) as [i|]; simpl.
    + destruct IH as (l1 & l2 & -> & Hx & ->).
      exists (y :: l1), l2. split; [done|]. split; [|done].
      rewrite not_elem_of_cons. done.
    + rewrite not_elem_of_cons. done.
Qed.

Lemma split_at_first (x : addr) (l1 l2 k1 k2 : list addr) :
  x ∉ l1 -> x ∉ k1 -> l1 ++ x :: l2 = k1 ++ x :: k2 -> l1 = k1 /\ l2 = k2.
Proof.
  revert k1. induction l1 as [|a l1 IH]; intros [|b k1] Hl Hk Heq;
    simpl in Heq.
  - by injection Heq as ->.
  - injection Heq as -> _. exfalso. apply Hk, list_elem_of_here.
  - injection Heq as -> _. exfalso. apply Hl, list_elem_of_here.
  - injection Heq as -> Heq.
    rewrite not_elem_of_cons in Hl, Hk.
    destruct (IH k1) as [-> ->]; try done; by destruct Hl, Hk.
Qed.

(** X2 (Game.get_next_player): the next player is the successor in the
    cyclic order of the active players.  For a player who is not in the
    roster the call raises ValueError; in a roster where nobody is playing
    it never returns; and when the roster holds distinct players and the
    active ones are [A1], then [p], then [A2], it returns the first of
    [A2], or of [A1] when [p] is the last active player, or [p] itself
    when nobody else is playing.  The state is left as it is. *)
Theorem get_next_player_cycles (p : addr) (w : State) :
  (p ∉ players w -> get_next_player p w = Raise ValueError w) /\
  (p ∈ players w -> active w = [] -> get_next_player p w = Diverge) /\
  (forall A1 A2, NoDup (players w) -> active w = A1 ++ p :: A2 ->
     get_next_player p w = Ok (default p (head (A2 ++ A1))) w).
Proof.
  unfold get_next_player, bind, gets.
  pose proof (index_of_split p (players w)) as Hix.
  destruct (index_of p (players w)) as [i|].
  - destruct Hix as (l1 & l2 & Hps & Hp & ->).
    assert (Hrot : drop (S (length l1)) (players w)
                   ++ take (S (length l1)) (players w) = l2 ++ l1 ++ [p]).
    { rewrite Hps.
      replace (l1 ++ p :: l2) with ((l1 ++ [p]) ++ l2)
        by by rewrite <- app_assoc.
      rewrite drop_app_length', take_app_length'; try done;
        rewrite length_app; simpl; lia. }
    rewrite Hrot. unfold id. split; [|split].
    + intros Hn. exfalso. apply Hn. rewrite Hps.
      apply elem_of_app. right. apply list_elem_of_here.
    + intros _ Hact. unfold active in Hact. rewrite Hps in Hact.
      rewrite list.filter_app, filter_cons in Hact.
      rewrite !list.filter_app, filter_cons, filter_nil.
      apply app_eq_nil in Hact as [H1 H2].
      destruct (decide (is_playing w p)); [done|].
      by rewrite H1, H2.
    + intros A1 A2 Hnd Hact. unfold active in Hact. rewrite Hps in Hact.
      rewrite list.filter_app, filter_cons in Hact.
      rewrite !list.filter_app, filter_cons, filter_nil.
      assert (Hin : p ∈ filter (is_playing w) (l1 ++ p :: l2)).
      { rewrite list.filter_app, filter_cons, Hact.
        apply elem_of_app. right. apply list_elem_of_here. }
      apply list_elem_of_filter in Hin as [Hpl _].
      rewrite decide_True in Hact |- * by done.
      assert (Hnd' : NoDup (A1 ++ p :: A2)).
      { rewrite <- Hact.
        replace (filter (is_playing w) l1 ++ p :: filter (is_playing w) l2)
          with (filter (is_playing w) (l1 ++ p :: l2)).
        - apply list.NoDup_filter. by rewrite <- Hps.
        - by rewrite list.filter_app, filter_cons, decide_True. }
      apply list.NoDup_app in Hnd' as (_ & Hd & _).
      apply split_at_first in Hact as [H1 H2].
      * rewrite H1, H2, app_assoc. by destruct (A2 ++ A1).
      * rewrite list_elem_of_filter. by intros [_ ?].
      * intros Hin. apply (Hd p Hin), list_elem_of_here.
  - split; [done|]. split; [done|].
    intros A1 A2 _ Hact. exfalso. apply Hix.
    assert (Hin : p ∈ active w).
    { rewrite Hact. apply elem_of_app. right. apply list_elem_of_here. }
    by apply list_elem_of_filter in Hin as [_ ?].
Qed.

(** ** The status of the game and the round counter *)

Lemma stable_seats_clock {A} (m : M A) : stable seats m -> stable clock m.
Proof.
  intros H v. eapply (stable_keeps seats); [done|].
  intros w w' Hs <-. unfold seats in Hs. unfold clock. congruence.
Qed.

#[local] Hint Extern 8 (stable clock _) =>
  apply stable_seats_clock; solve [auto with inv] : inv.

Lemma stable_clock_upd_player p f : stable clock (upd_player p f).
Proof. unfold upd_player. auto with inv. Qed.
#[local] Hint Resolve stable_clock_upd_player : inv.

Lemma stable_clock_start_playing p ro : stable clock (start_playing p ro).
Proof. intros v. unfold start_playing. inv_go. Qed.
#[local] Hint Resolve stable_clock_start_playing : inv.

Lemma stable_clock_assign_roles roles i ps :
  stable clock (assign_roles roles i ps).
Proof.
  intros v. revert i. induction ps as [|p ps IH]; intros i;
    cbn [assign_roles]; inv_go.
Qed.

Lemma stable_clock_make_roles r : stable clock (make_roles role_info r).
Proof. intros v. unfold make_roles. inv_go. Qed.

Lemma stable_clock_create_deck : stable clock (create_deck card_title).
Proof.
  intros v w Hw. unfold post, wp. rewrite create_deck_spec. by rewrite <- Hw.
Qed.

Lemma stable_clock_toggle_flashlight p : stable clock (toggle_flashlight p).
Proof. unfold toggle_flashlight. auto with inv. Qed.

#[local] Hint Resolve stable_clock_assign_roles stable_clock_make_roles
  stable_clock_create_deck stable_clock_toggle_flashlight : inv.

Lemma start_game_clock (r : Random) (w : State) :
  post (start_game card_title role_info r) w (fun w' =>
    clock w' = clock w \/
    (game_status w = Unstarted /\ clock w' = (Ongoing, Some 1))).
Proof.
  unfold post, start_game. wp_step. wp_step. wp_step; [by left|].
  match goal with H : bool_decide _ = false |- _ =>
    apply bool_decide_eq_false in H; apply dec_stable in H; rename H into Hu
  end.
  assert (clock w = clock w) as HJ by done. revert HJ.
  generalize w at 1 3. intros w0 HJ.
  repeat (apply wp_bind;
          first [apply wp_gets
                |eapply (wp_keeps (fun w' => clock w' = clock w));
                 [solve [eauto with inv]|done|intros ? ? ?
                 |intros ? ?; by left|exact I]]; cbv beta).
  apply wp_bind.
  destruct (active _ !! _) as [p|]; [|apply wp_raise; by left].
  eapply (wp_keeps (fun w' => clock w' = clock w));
    [solve [eauto with inv]|done|intros ? ? ?|intros ? ?; by left|exact I].
  wp_steps. by right.
Qed.

Lemma call_clock (op : Op) (w : State) :
  post (call card_title role_info op) w (fun w' =>
    clock w' = clock w \/
    (op = EndGame /\ clock w' = (Ended, round_counter w)) \/
    (exists r, op = StartGame r /\ game_status w = Unstarted /\
               clock w' = (Ongoing, Some 1))).
Proof.
  destruct op as [p pl|p|r|p b e c r|u t pos r|]; simpl.
  - unfold post, add_player, upd_player. wp_steps; by left.
  - unfold post, remove_player. wp_steps; by left.
  - assert (forall w' : State,
              clock w' = clock w \/
              (game_status w = Unstarted /\ clock w' = (Ongoing, Some 1)) ->
              clock w' = clock w \/
              (StartGame r = EndGame /\ clock w' = (Ended, round_counter w)) \/
              (exists r0, StartGame r = StartGame r0 /\
                          game_status w = Unstarted /\
                          clock w' = (Ongoing, Some 1))) as Hto.
    { intros w' [H|[H1 H2]]; [by left|]. right. right. by exists r. }
    eapply wp_mono; [apply start_game_clock|..]; try done.
  - assert (stable clock (set_claim card_title p b e c r)) as H.
    { apply stable_seats_clock, stable_table_seats, stable_table_set_claim. }
    eapply wp_mono; [apply (H (clock w) w eq_refl)|..]; try done;
      intros; by left.
  - assert (stable clock (investigate u t pos r)) as H.
    { apply stable_seats_clock, stable_seats_investigate. }
    eapply wp_mono; [apply (H (clock w) w eq_refl)|..]; try done;
      intros; by left.
  - unfold post, end_game. wp_steps. right. by left.
Qed.

(** X3 (Game.start_game, Game.end_game and the other calls): the status
    of a game only moves forward.  A call leaves the status as it is,
    unless it is [end_game], which sets Ended, or a [start_game] on an
    unstarted game, which sets Ongoing; in particular no claim and no
    investigation ends the game, whoever has won, an ended game stays
    ended, and a game starts at most once. *)
Theorem game_status_moves_forward (op : Op) (w w' : State) :
  after (call card_title role_info op w) = Some w' ->
  (game_status w' = game_status w \/
   (op = EndGame /\ game_status w' = Ended) \/
   (exists r, op = StartGame r /\ game_status w = Unstarted /\
              game_status w' = Ongoing)) /\
  (game_status w = Ended -> game_status w' = Ended) /\
  (game_status w <> Unstarted -> game_status w' <> Unstarted).
Proof.
  intros Hcall.
  pose proof (post_after _ _ _ _ (call_clock op w) Hcall) as H.
  unfold clock in H.
  destruct H as [H|[[-> H]|(r & -> & Hu & H)]]; injection H as Hg Hr.
  - rewrite Hg. split; [by left|]. done.
  - rewrite Hg. split; [right; by left|]. done.
  - rewrite Hg, Hu. split; [right; right; by exists r|]. done.
Qed.

(** X4 (Game.new_round, Game.start_game): the round counter does not
    count.  In every reachable state it is unset or 1: [start_game] sets
    it to 1 and nothing, [new_round] included, writes it again; and it is
    1 whenever the game is ongoing. *)
Theorem round_counter_stays_one (w : State) :
  reachable card_title role_info w ->
  (round_counter w = None \/ round_counter w = Some 1) /\
  (game_status w = Ongoing -> round_counter w = Some 1).
Proof.
  induction 1 as [n|w op w' _ IH _ _ Hcall]; [split; [by left|done]|].
  pose proof (post_after _ _ _ _ (call_clock op w) Hcall) as H.
  unfold clock in H. destruct IH as [IH1 IH2].
  destruct H as [H|[[-> H]|(r & -> & Hu & H)]]; injection H as Hg Hr;
    rewrite Hg, Hr; split; auto; done.
Qed.

(** ** The roster *)

Lemma Roster_ext (w w' : State) :
  players w' = players w -> map status (pobjs w') = map status (pobjs w) ->
  Roster w -> Roster w'.
Proof.
  intros Hp Hs [Hnd Hst]. split; [by rewrite Hp|].
  intros p Hin. rewrite (map_eq_lookup_total status _ _ p Hs).
  apply Hst. by rewrite <- Hp.
Qed.

Lemma Roster_seats (w w' : State) : seats w' = seats w -> Roster w -> Roster w'.
Proof.
  intros Hs. apply Roster_ext; unfold seats in Hs; congruence.
Qed.

Lemma Roster_add_player (p : addr) (playing : bool) (w : State) :
  p < length (pobjs w) -> Roster w -> post (add_player p playing) w Roster.
Proof.
  intros Hlt Hw. unfold post, add_player, upd_player. wp_steps; try done.
  destruct Hw as (Hnd & Hst).
  assert (p ∉ players w) as Hnew.
  { intros Hin. specialize (Hst p Hin).
    rewrite !(bool_decide_true (p ∈ players w)) in * by done.
    simpl in *.
    repeat match goal with H : bool_decide (status _ = _) = false |- _ =>
             apply bool_decide_eq_false in H end.
    by destruct (status (pobjs w !!! p)). }
  set (s := if playing then Playing else Spectating).
  set (w' := set_players _ _).
  assert (forall q, status (pobjs w' !!! q)
                    = if decide (q = p) then s else status (pobjs w !!! q))
    as Hs'.
  { intros q. unfold w'. simpl. rewrite list_lookup_total_alter.
    destruct (decide (q = p)) as [->|Hne].
    - by rewrite decide_True.
    - rewrite decide_False; [done|]. intros [? _]. by apply Hne. }
  split.
  - change (players w') with (players w ++ [p]).
    apply list.NoDup_app. repeat split; [done| |apply NoDup_singleton].
    intros q Hq ->%list_elem_of_singleton. done.
  - intros q Hq. rewrite Hs'.
    destruct (decide (q = p)) as [->|Hne]; [unfold s; by destruct playing|].
    apply Hst. change (players w') with (players w ++ [p]) in Hq.
    apply elem_of_app in Hq as [Hq|Hq%list_elem_of_singleton]; done.
Qed.

Lemma Roster_remove_player (p : addr) : keeps Roster (remove_player p).
Proof.
  intros w [Hnd Hst]. unfold post, remove_player. wp_steps; try done.
  split.
  - by apply remove_first_NoDup.
  - intros q Hq. apply Hst. by apply (remove_first_elem p).
Qed.

Lemma Roster_start_game (r : Random) :
  fair r -> keeps Roster (start_game card_title role_info r).
Proof.
  intros Hr w Hw. unfold post.
  destruct (decide (game_status w = Unstarted)) as [Hu|Hu].
  2:{ unfold start_game. apply wp_bind, wp_gets.
      by rewrite bool_decide_true. }
  eapply wp_mono; [apply (start_game_wp r w)|..]; try done.
  - apply list.NoDup_filter, Hw.
  - intros ? w' (_ & _ & _ & Hp & Hs & _). by apply (Roster_ext w).
  - intros w' [[Hw' Hs] _]. apply (Roster_ext w); [by rewrite Hw'|done|done].
Qed.

Lemma Roster_call (op : Op) (w : State) :
  op_ok w op -> Roster w -> post (call card_title role_info op) w Roster.
Proof.
  intros [Hp Hr] Hw. destruct op as [p pl|p|r|p b e c r|u t pos r|]; simpl.
  - apply Roster_add_player; [|done]. apply Hp. by left.
  - by apply Roster_remove_player.
  - apply Roster_start_game; [|done]. by apply Hr.
  - eapply (stable_keeps seats); [| |exact Hw].
    + apply stable_table_seats, stable_table_set_claim.
    + intros ? ?. apply Roster_seats.
  - eapply (stable_keeps seats); [| |exact Hw].
    + apply stable_seats_investigate.
    + intros ? ?. apply Roster_seats.
  - unfold post, end_game. by wp_step.
Qed.

Lemma reachable_Roster (w : State) :
  reachable card_title role_info w -> Roster w.
Proof.
  induction 1 as [n|w op w' _ IH Hok _ Hcall].
  - split; [apply NoDup_nil_2|]. by intros p ?%elem_of_nil.
  - eapply post_after; [|exact Hcall]. by apply Roster_call.
Qed.

Lemma playing_or_spectating (w : State) (l : list addr) :
  (forall p, p ∈ l -> status (pobjs w !!! p) <> Idle) ->
  length (filter (is_playing w) l)
  + length (filter (fun p => status (pobjs w !!! p) = Spectating) l)
  = length l.
Proof.
  induction l as [|a l IH]; intros Hst; [done|].
  rewrite !filter_cons.
  assert (status (pobjs w !!! a) <> Idle) as Ha by apply Hst, list_elem_of_here.
  assert (IH' := IH (fun p Hp => Hst p (list_elem_of_further _ _ _ Hp))).
  destruct (decide (is_playing w a)) as [Hpl|Hpl],
           (decide (status (pobjs w !!! a) = Spectating)) as [Hsp|Hsp];
    unfold is_playing in Hpl; simpl; try lia.
  - congruence.
  - by destruct (status (pobjs w !!! a)).
Qed.

(** X5 (Game.add_player, Game.remove_player, Game.get_active_players,
    Game.get_spectators): in every reachable state the roster holds each
    player once, and each player of the roster is either playing or
    spectating: the active players and the spectators split the roster,
    and their numbers add up to its length. *)
Theorem roster_splits (w : State) :
  reachable card_title role_info w ->
  NoDup (players w) /\
  (forall p, p ∈ players w -> p ∈ active w <-> p ∉ spectators w) /\
  length (active w) + length (spectators w) = length (players w).
Proof.
  intros [Hnd Hst]%reachable_Roster. split; [done|]. split.
  - intros p Hp. unfold active, spectators.
    rewrite !list_elem_of_filter. unfold is_playing.
    specialize (Hst p Hp). split.
    + intros [Hpl _] [Hsp _]. congruence.
    + intros Hn. split; [|done].
      destruct (status (pobjs w !!! p)); [done|done|].
      exfalso. by apply Hn.
  - by apply playing_or_spectating.
Qed.

(** ** What turns, phases and rounds leave alone *)

Lemma fixed_upd_game_data p gd' w gd :
  game_data (pobjs w !!! p) = Some gd ->
  role gd' = role gd -> claim gd' = claim gd ->
  fixed (set_pobjs (alter (with_game_data gd') p) w) = fixed w.
Proof.
  intros Hgd Hr Hc. unfold fixed, roles_of, claims_of. simpl.
  rewrite !(map_alter_same _ _ p); try done; simpl; rewrite Hgd; simpl;
    congruence.
Qed.

Lemma stable_fixed_upd_game_data p f :
  (forall gd, role (f gd) = role gd) -> (forall gd, claim (f gd) = claim gd) ->
  stable fixed (upd_game_data p f).
Proof.
  intros Hr Hc v w Hw. unfold post, upd_game_data. wp_steps. 2:done.
  rewrite <- Hw. by eapply fixed_upd_game_data.
Qed.

#[local] Hint Extern 1 (stable fixed (upd_game_data _ _)) =>
  apply stable_fixed_upd_game_data; done : inv.

Lemma stable_fixed_hands_of ps : stable fixed (hands_of ps).
Proof. intros v. induction ps as [|p ps IH]; cbn [hands_of]; inv_go. Qed.

Lemma stable_fixed_scan_cards cs n k : stable fixed (scan_cards cs n k).
Proof.
  intros v. revert n k. induction cs as [|c cs IH]; intros n k;
    cbn [scan_cards]; inv_go.
Qed.
#[local] Hint Resolve stable_fixed_hands_of stable_fixed_scan_cards : inv.

Lemma stable_fixed_check_winner : stable fixed check_winner.
Proof. intros v. unfold check_winner. inv_go. Qed.

Lemma stable_fixed_new_phase : stable fixed new_phase.
Proof. intros v. unfold new_phase. inv_go. Qed.

Lemma stable_fixed_get_next_player p : stable fixed (get_next_player p).
Proof. intros v. unfold get_next_player. inv_go. Qed.
#[local] Hint Resolve stable_fixed_check_winner stable_fixed_new_phase
  stable_fixed_get_next_player : inv.

Lemma stable_fixed_deck_pop : stable fixed deck_pop.
Proof. intros v. unfold deck_pop. inv_go. Qed.
#[local] Hint Resolve stable_fixed_deck_pop : inv.

Lemma stable_fixed_deal_one p : stable fixed (deal_one p).
Proof. intros v. unfold deal_one, give_card. inv_go. Qed.
#[local] Hint Resolve stable_fixed_deal_one : inv.

Lemma stable_fixed_deal_loop fuel : stable fixed (deal_loop fuel).
Proof.
  intros v. induction fuel as [|fuel IH]; cbn [deal_loop]; inv_go.
Qed.
#[local] Hint Resolve stable_fixed_deal_loop : inv.

Lemma stable_fixed_deal_cards r : stable fixed (deal_cards r).
Proof. intros v. unfold deal_cards. inv_go. Qed.
#[local] Hint Resolve stable_fixed_deal_cards : inv.

Lemma stable_fixed_return_card c : stable fixed (return_card c).
Proof. intros v. unfold return_card. inv_go. Qed.
#[local] Hint Resolve stable_fixed_return_card : inv.

Lemma stable_fixed_recollect p : stable fixed (recollect p).
Proof. intros v. unfold recollect. inv_go. Qed.
#[local] Hint Resolve stable_fixed_recollect : inv.

Lemma stable_fixed_new_round r : stable fixed (new_round r).
Proof. intros v. unfold new_round. inv_go. Qed.
#[local] Hint Resolve stable_fixed_new_round : inv.

Lemma stable_fixed_new_turn r : stable fixed (new_turn r).
Proof. intros v. unfold new_turn. inv_go. Qed.
#[local] Hint Resolve stable_fixed_new_turn : inv.

Lemma fixed_inv (w w' : State) :
  fixed w' = fixed w ->
  roles_of w' = roles_of w /\ claims_of w' = claims_of w /\ cobjs w' = cobjs w.
Proof. unfold fixed. intros H. repeat split; congruence. Qed.

Lemma ages_refl (w : State) : ages w w.
Proof. split; [done|]. by intros c _. Qed.

Lemma ages_cobjs (w0 w w' : State) :
  cobjs w' = cobjs w -> ages w0 w -> ages w0 w'.
Proof. unfold ages, title_at, face_up. by intros ->. Qed.

Lemma ages_flip_up (w0 w : State) (c : addr) :
  ages w0 w -> ages w0 (set_cobjs (alter card_flip_up c) w).
Proof.
  intros [Hl Hc]. split; [simpl; by rewrite length_alter|].
  intros d Hd. destruct (Hc d Hd) as [Ht Hf].
  unfold title_at, face_up in *. simpl. rewrite list_lookup_total_alter.
  case_decide as Hcd; [|split; [done|exact Hf]].
  destruct Hcd as [-> _]. simpl. split; [done|]. by intros _.
Qed.

Lemma ages_grow (w0 w : State) (cts : list string) :
  ages w0 w -> ages w0 (grow card_title cts w).
Proof.
  intros [Hl Hc]. split; [simpl; rewrite length_app; lia|].
  intros d Hd. destruct (Hc d Hd) as [Ht Hf].
  unfold title_at, face_up in *. simpl.
  by rewrite lookup_total_app_l by lia.
Qed.

Lemma same_but_claim_fixed (p : addr) (w0 w w' : State) :
  fixed w' = fixed w -> same_but_claim p w0 w -> same_but_claim p w0 w'.
Proof.
  intros (Hr & Hc & Ho)%fixed_inv (H1 & H2 & H3).
  split; [congruence|]. split; [congruence|].
  intros q Hq. rewrite Hc. by apply H3.
Qed.

Lemma turned_fixed (w0 w w' : State) :
  fixed w' = fixed w -> turned w0 w -> turned w0 w'.
Proof.
  intros (Hr & Hc & Ho)%fixed_inv (H1 & H2 & H3).
  split; [congruence|]. split; [congruence|]. by apply (ages_cobjs _ w).
Qed.

#[local] Hint Extern 4 (keeps (same_but_claim _ _) _) =>
  eapply (stable_keeps fixed);
    [solve [auto with inv] | intros ? ?; apply same_but_claim_fixed] : inv.
#[local] Hint Extern 4 (keeps (turned _) _) =>
  eapply (stable_keeps fixed);
    [solve [auto with inv] | intros ? ?; apply turned_fixed] : inv.

Lemma same_but_claim_upd_game_data (p : addr) f (w0 : State) :
  (forall gd, role (f gd) = role gd) ->
  keeps (same_but_claim p w0) (upd_game_data p f).
Proof.
  intros Hf w (H1 & H2 & H3). unfold post, upd_game_data. wp_steps. 2:done.
  match goal with H : game_data _ = Some _ |- _ => rename H into Hgd end.
  split; [|split; [done|]].
  - rewrite <- H1. unfold roles_of. simpl.
    apply map_alter_same. simpl. rewrite Hgd. simpl. by rewrite Hf.
  - intros q Hq. rewrite <- (H3 q Hq). unfold claims_of. simpl.
    rewrite !list_lookup_fmap, list_lookup_alter_ne; [done|]. congruence.
Qed.
#[local] Hint Extern 1 (keeps (same_but_claim _ _) (upd_game_data _ _)) =>
  apply same_but_claim_upd_game_data; done : inv.

Lemma same_but_claim_player_set_claim (p : addr) (cl : list Card) (w0 : State) :
  keeps (same_but_claim p w0) (player_set_claim p cl).
Proof. unfold player_set_claim. inv_go. Qed.
#[local] Hint Resolve same_but_claim_player_set_claim : inv.

Lemma same_but_claim_set_claim (p : addr) (b e c : nat) (r : Random)
  (w0 : State) :
  keeps (same_but_claim p w0) (set_claim card_title p b e c r).
Proof. unfold set_claim. inv_go. Qed.

Lemma turned_flip_up (c : addr) (w0 : State) : keeps (turned w0) (flip_up c).
Proof.
  intros w (H1 & H2 & H3). unfold post, flip_up. wp_step.
  split; [done|]. split; [done|]. by apply ages_flip_up.
Qed.
#[local] Hint Resolve turned_flip_up : inv.

Lemma turned_flip_first (cs : list addr) (w0 : State) :
  keeps (turned w0) (flip_first cs).
Proof. induction cs as [|c cs IH]; cbn [flip_first]; inv_go. Qed.
#[local] Hint Resolve turned_flip_first : inv.

Lemma turned_reveal_card (p : addr) (pos : option Z) (w0 : State) :
  keeps (turned w0) (reveal_card p pos).
Proof. unfold reveal_card. inv_go. Qed.
#[local] Hint Resolve turned_reveal_card : inv.

Lemma turned_investigate (u t : addr) (pos : option Z) (r : Random)
  (w0 : State) :
  keeps (turned w0) (investigate u t pos r).
Proof. unfold investigate. inv_go. Qed.

(** X6 (Game.set_claim, Game.investigate and what they call): what a
    claim and an investigation leave alone, whether they return or raise.
    Neither changes the roster, a status or a role.  A claim touches no
    card object and no claim but that of the claiming player; an
    investigation changes no claim: the claims of a round stay as they
    are until the players claim again, through every new round. *)
Theorem claims_and_looks_keep_the_cast :
  (forall p b e c r w w',
      after (set_claim card_title p b e c r w) = Some w' ->
      players w' = players w /\
      map status (pobjs w') = map status (pobjs w) /\
      roles_of w' = roles_of w /\ cobjs w' = cobjs w /\
      forall q, q <> p -> claims_of w' !! q = claims_of w !! q) /\
  (forall u t pos r w w',
      after (investigate u t pos r w) = Some w' ->
      players w' = players w /\
      map status (pobjs w') = map status (pobjs w) /\
      roles_of w' = roles_of w /\ claims_of w' = claims_of w).
Proof.
  split.
  - intros p b e c r w w' Hcall.
    assert (seats w' = seats w) as Hs.
    { eapply (post_after _ _ _ (fun w' => seats w' = seats w)); [|exact Hcall].
      apply (stable_table_seats _ (stable_table_set_claim p b e c r)).
      done. }
    assert (same_but_claim p w w') as (H1 & H2 & H3).
    { eapply post_after; [|exact Hcall].
      apply same_but_claim_set_claim. split; [done|]. split; done. }
    unfold seats in Hs. repeat split; try congruence. done.
  - intros u t pos r w w' Hcall.
    assert (seats w' = seats w) as Hs.
    { eapply (post_after _ _ _ (fun w' => seats w' = seats w)); [|exact Hcall].
      by apply stable_seats_investigate. }
    assert (turned w w') as (H1 & H2 & H3).
    { eapply post_after; [|exact Hcall].
      apply turned_investigate. split; [done|]. split; [done|].
      apply ages_refl. }
    unfold seats in Hs. repeat split; congruence.
Qed.

(** ** Cards only turn up *)

Lemma stable_fixed_cobjs {A} (m : M A) : stable fixed m -> stable cobjs m.
Proof.
  intros H v. eapply (stable_keeps fixed); [done|].
  intros w w' (_ & _ & Hc)%fixed_inv <-. done.
Qed.

#[local] Hint Extern 8 (stable cobjs _) =>
  apply stable_fixed_cobjs; solve [auto with inv] : inv.
#[local] Hint Extern 4 (keeps (ages _) _) =>
  eapply (stable_keeps cobjs);
    [solve [auto with inv] | intros ? ?; apply ages_cobjs] : inv.

Lemma stable_cobjs_upd_player p f : stable cobjs (upd_player p f).
Proof. unfold upd_player. auto with inv. Qed.
#[local] Hint Resolve stable_cobjs_upd_player : inv.

Lemma stable_cobjs_start_playing p ro : stable cobjs (start_playing p ro).
Proof. intros v. unfold start_playing. inv_go. Qed.
#[local] Hint Resolve stable_cobjs_start_playing : inv.

Lemma stable_cobjs_assign_roles roles i ps :
  stable cobjs (assign_roles roles i ps).
Proof.
  intros v. revert i. induction ps as [|p ps IH]; intros i;
    cbn [assign_roles]; inv_go.
Qed.

Lemma stable_cobjs_make_roles r : stable cobjs (make_roles role_info r).
Proof. intros v. unfold make_roles. inv_go. Qed.

Lemma stable_cobjs_toggle_flashlight p : stable cobjs (toggle_flashlight p).
Proof. unfold toggle_flashlight. auto with inv. Qed.
#[local] Hint Resolve stable_cobjs_assign_roles stable_cobjs_make_roles
  stable_cobjs_toggle_flashlight : inv.

Lemma ages_create_deck (w0 : State) : keeps (ages w0) (create_deck card_title).
Proof.
  intros w Hw. unfold post, wp. rewrite create_deck_spec.
  apply ages_grow. by apply (ages_cobjs _ w).
Qed.
#[local] Hint Resolve ages_create_deck : inv.

Lemma ages_start_game (r : Random) (w0 : State) :
  keeps (ages w0) (start_game card_title role_info r).
Proof.
  intros w Hw. unfold post, start_game.
  wp_step. wp_step. wp_step; [done|].
  repeat (apply wp_bind;
          first [apply wp_gets
                |eapply (wp_keeps (ages w0));
                 [solve [eauto with inv]|done|intros ? ? ?
                 |done|exact I]]; cbv beta).
  apply wp_bind.
  destruct (active _ !! _) as [p|]; [|by apply wp_raise].
  eapply (wp_keeps (ages w0));
    [solve [eauto with inv]|done|intros ? ? ?|done|exact I].
  wp_steps. by eapply ages_cobjs.
Qed.

Lemma call_ages (op : Op) (w : State) :
  post (call card_title role_info op) w (ages w).
Proof.
  assert (forall w1 : State, cobjs w1 = cobjs w -> ages w w1) as Hsame.
  { intros w1 H1. apply (ages_cobjs w w); [done|apply ages_refl]. }
  destruct op as [p pl|p|r|p b e c r|u t pos r|]; simpl.
  - unfold post, add_player, upd_player. wp_steps; by apply Hsame.
  - unfold post, remove_player. wp_steps; by apply Hsame.
  - apply ages_start_game, ages_refl.
  - assert (same_but_claim p w w) as Hw.
    { split; [done|]. by split. }
    eapply wp_mono; [apply (same_but_claim_set_claim p b e c r w w Hw)|..];
      try done; cbv beta.
    + intros _ w1 (_ & H1 & _). by apply Hsame.
    + intros w1 (_ & H1 & _). by apply Hsame.
  - assert (turned w w) as Hw.
    { split; [done|]. split; [done|]. apply ages_refl. }
    eapply wp_mono; [apply (turned_investigate u t pos r w w Hw)|..];
      try done; cbv beta.
    + by intros _ w1 (_ & _ & H1).
    + by intros w1 (_ & _ & H1).
  - unfold post, end_game. wp_steps. by apply Hsame.
Qed.

(** X7 (every call of the game; Card.flip_up is the only writer of a card):
    cards only turn up.  Whatever a call does, and whether it returns or
    raises, the card objects that were there are still there, with their
    titles, and a card that was face-up is face-up: no call turns a card
    face-down again, not even one that starts a new round. *)
Theorem cards_only_turn_up (op : Op) (w w' : State) :
  after (call card_title role_info op w) = Some w' ->
  length (cobjs w) <= length (cobjs w') /\
  forall c, c < length (cobjs w) ->
    title_at w' c = title_at w c /\
    (face_up w c = true -> face_up w' c = true).
Proof.
  intros Hcall. change (ages w w').
  eapply post_after; [apply call_ages|exact Hcall].
Qed.

(** ** What dealing leaves of a player *)

Lemma dealt_to_refl (w : State) : dealt_to w w.
Proof. by repeat split. Qed.

Lemma dealt_to_active (w0 w : State) : dealt_to w0 w -> active w = active w0.
Proof.
  intros (Hp & Hs & _). unfold active. rewrite Hp. apply list_filter_iff.
  intros p. unfold is_playing.
  pose proof (map_eq_lookup_total persona _ _ p Hs) as H.
  unfold persona in H. by injection H as _ -> _.
Qed.

Lemma dealt_to_ext (w0 w w' : State) :
  players w' = players w -> pobjs w' = pobjs w ->
  dealt_to w0 w -> dealt_to w0 w'.
Proof. unfold dealt_to. by intros -> ->. Qed.

Lemma dealt_to_modify (f : State -> State) (w0 : State) :
  (forall w, players (f w) = players w) -> (forall w, pobjs (f w) = pobjs w) ->
  keeps (dealt_to w0) (modify f).
Proof.
  intros Hp Ho w Hw. unfold post. wp_step. by apply (dealt_to_ext _ w).
Qed.
#[local] Hint Extern 1 (keeps (dealt_to _) (modify _)) =>
  apply dealt_to_modify; done : inv.

Lemma dealt_to_give_card (p c : addr) (w0 : State) :
  p ∈ active w0 -> keeps (dealt_to w0) (give_card p c).
Proof.
  intros Hp w (H1 & H2 & H3). unfold post, give_card, upd_game_data.
  wp_steps. 2:done.
  match goal with H : game_data _ = Some _ |- _ => rename H into Hgd end.
  split; [done|]. split.
  - rewrite <- H2. simpl. apply map_alter_same.
    unfold persona. simpl. by rewrite Hgd.
  - intros q Hq. rewrite <- (H3 q Hq). simpl.
    apply list_lookup_total_alter_ne. by intros ->.
Qed.

Lemma dealt_to_deck_pop (w0 : State) : keeps (dealt_to w0) deck_pop.
Proof. unfold deck_pop. inv_go. Qed.
#[local] Hint Resolve dealt_to_deck_pop : inv.

Lemma dealt_to_deal_one (p : addr) (w0 : State) :
  p ∈ active w0 -> keeps (dealt_to w0) (deal_one p).
Proof.
  intros Hp w Hw. unfold post, deal_one. apply wp_bind.
  eapply (wp_keeps (dealt_to w0)); try done; [auto with inv|].
  intros c w1 Hw1. by apply dealt_to_give_card.
Qed.

Lemma dealt_to_deal_loop (fuel : nat) (w0 : State) :
  keeps (dealt_to w0) (deal_loop fuel).
Proof.
  induction fuel as [|fuel IH]; cbn [deal_loop]; intros w Hw; unfold post.
  { done. }
  wp_steps; try done.
  apply (wp_for_each (dealt_to w0)); [done| |].
  - intros p w' Hp Hw'. apply dealt_to_deal_one; [|done].
    by rewrite <- (dealt_to_active _ _ Hw).
  - intros w' Hw'. by apply IH.
Qed.
#[local] Hint Resolve dealt_to_deal_loop : inv.

Lemma dealt_to_deal_cards (r : Random) (w0 : State) :
  keeps (dealt_to w0) (deal_cards r).
Proof. unfold deal_cards. inv_go. Qed.

(** ** What [start_game] makes of the players *)

Lemma assign_roles_seats (roles : list Role) (ps : list addr) (i : nat)
  (w : State) :
  NoDup ps -> (forall p, p ∈ ps -> p < length (pobjs w)) ->
  wp (assign_roles roles i ps) w
     (fun _ w' =>
        length (pobjs w') = length (pobjs w) /\
        (forall j p, ps !! j = Some p ->
           exists ro, roles !! (i + j) = Some ro /\
                      pobjs w' !!! p = seated ro (pobjs w !!! p)) /\
        (forall q, q ∉ ps -> pobjs w' !!! q = pobjs w !!! q))
     (fun _ => True) True.
Proof.
  revert i w. induction ps as [|p ps IH]; intros i w Hnd Hlt;
    cbn [assign_roles].
  { apply wp_ret. split; [done|]. split; [|done]. by intros j p [=]. }
  apply list.NoDup_cons in Hnd as [Hp Hnd].
  destruct (roles !! i) as [ro|] eqn:Hro; [|done].
  apply wp_bind. eapply wp_ok.
  { apply start_playing_spec, Hlt, list_elem_of_here. }
  set (w1 := set_pobjs _ w).
  assert (length (pobjs w1) = length (pobjs w)) as Hl1.
  { unfold w1. simpl. by rewrite length_alter. }
  eapply wp_mono; [apply (IH (S i) w1 Hnd)|..]; try done.
  { intros q Hq. rewrite Hl1. apply Hlt. by apply list_elem_of_further. }
  intros _ w' (Hl & Hin & Hout). cbv beta. split; [congruence|]. split.
  - intros [|j] q Hq; simpl in Hq.
    + injection Hq as <-. exists ro. rewrite Nat.add_0_r. split; [done|].
      rewrite (Hout p Hp). unfold w1. simpl.
      rewrite list_lookup_total_alter, decide_True; [done|].
      split; [done|]. apply Hlt, list_elem_of_here.
    + destruct (Hin j q Hq) as (ro' & Hro' & Hq').
      exists ro'. split; [by rewrite <- Nat.add_succ_comm|].
      rewrite Hq'. unfold w1. simpl. f_equal.
      apply list_lookup_total_alter_ne. intros ->. apply Hp.
      by eapply list_elem_of_lookup_2.
  - intros q Hq. rewrite not_elem_of_cons in Hq. destruct Hq as [Hne Hq].
    rewrite (Hout q Hq). unfold w1. simpl.
    by apply list_lookup_total_alter_ne.
Qed.

Lemma persona_game_data (pl : Player) (i : nat) (s : Status) (ro : Role)
  (cc : bool) (cl : option (list Card)) (fl : bool) :
  persona pl = (i, s, Some (ro, cc, cl, fl)) ->
  status pl = s /\
  exists gd, game_data pl = Some gd /\ role gd = ro /\ can_claim gd = cc /\
             claim gd = cl /\ has_flashlight gd = fl.
Proof.
  unfold persona. destruct (game_data pl) as [gd|]; simpl; [|done].
  intros [= _ <- <- <- <- <-]. split; [done|]. by exists gd.
Qed.

Lemma start_game_persons (r : Random) (w : State) :
  NoDup (active w) ->
  wp (start_game card_title role_info r) w
     (fun _ w' =>
        game_status w = Unstarted /\
        phase w' = Some Claims /\ turn w' = Some 1 /\
        exists ni nc, role_info (count_active w) = Some (ni, nc) /\
          (forall i p, active w !! i = Some p ->
             exists ro,
               shuffle_roles r (replicate ni Investigator
                                ++ replicate nc Cultist) !! i = Some ro /\
               persona (pobjs w' !!! p)
               = (p_id (pobjs w !!! p), Playing,
                  Some (ro, true, None,
                        bool_decide (i = choice r `mod` length (active w))))) /\
          (forall q, q ∉ active w -> pobjs w' !!! q = pobjs w !!! q))
     (fun _ => True) True.
Proof.
  intros Hnd. unfold start_game. apply wp_bind, wp_gets.
  destruct (bool_decide (game_status w <> Unstarted)) eqn:Hu; [done|].
  apply bool_decide_eq_false in Hu. apply dec_stable in Hu.
  apply wp_bind. unfold make_roles, count_active_players.
  apply wp_bind, wp_gets.
  destruct (role_info (count_active w)) as [[ni nc]|] eqn:Hri; [|done].
  apply wp_ret. set (roles := shuffle_roles r _).
  unfold get_active_players at 1. apply wp_bind, wp_gets, wp_bind.
  eapply wp_mono;
    [apply (wp_conj _ _ _ _ _ _ _ _
              (assign_roles_seats roles (active w) 0 w Hnd
                 (fun p Hp => active_valid w p Hp))
              (assign_roles_spec roles (active w) 0 w
                 (fun p Hp => proj1 (proj1 (list_elem_of_filter _ _ _) Hp))))
    | |done|done].
  intros _ w1 ((Hl1 & Hin1 & Hout1) & ((Hw1 & Hs1) & _)). cbv beta.
  assert (players w1 = players w) as Hp1 by (by rewrite Hw1).
  assert (active w1 = active w) as Ha1.
  { unfold active. rewrite Hp1. apply list_filter_iff. intros p.
    unfold is_playing. by rewrite (map_eq_lookup_total status _ _ p Hs1). }
  clear Hw1.
  apply wp_bind. eapply wp_ok; [apply create_deck_spec|].
  set (w2 := grow card_title _ _).
  assert (active w2 = active w) as Ha2 by (by rewrite <- Ha1).
  apply wp_bind.
  eapply (wp_keeps (dealt_to w2));
    [apply dealt_to_deal_cards|apply dealt_to_refl| |done|done].
  intros _ w3 Hw3.
  pose proof (dealt_to_active _ _ Hw3) as Ha3. rewrite Ha2 in Ha3.
  destruct Hw3 as (_ & Hps3 & Hout3).
  unfold get_active_players. apply wp_bind, wp_gets. rewrite Ha3.
  set (k := choice r `mod` length (active w)).
  destruct (active w !! k) as [px|] eqn:Hk; [|by apply wp_bind, wp_raise].
  assert (forall i p, active w !! i = Some p ->
            exists ro, roles !! i = Some ro /\
              persona (pobjs w3 !!! p)
              = (p_id (pobjs w !!! p), Playing, Some (ro, true, None, false)))
    as Hin3.
  { intros i p Hp. destruct (Hin1 i p Hp) as (ro & Hro & Hpl).
    exists ro. split; [done|].
    rewrite (map_eq_lookup_total persona _ _ p Hps3).
    change (pobjs w2) with (pobjs w1). by rewrite Hpl. }
  destruct (Hin3 k px Hk) as (rox & _ & Hpx).
  apply persona_game_data in Hpx as (_ & gdx & Hgdx & _ & _ & _ & Hfx).
  apply wp_bind. eapply wp_ok.
  { unfold toggle_flashlight, upd_game_data, the_game_data, bind, player_at,
      gets, bind. rewrite Hgdx. reflexivity. }
  do 3 (apply wp_bind, wp_modify). apply wp_modify.
  split; [done|]. split; [done|]. split; [done|].
  exists ni, nc. split; [done|]. simpl. split.
  - intros i p Hp. destruct (Hin3 i p Hp) as (ro & Hro & Hpl).
    exists ro. split; [done|].
    rewrite list_lookup_total_alter.
    destruct (decide (p = px)) as [->|Hne].
    + assert (i = k) as ->.
      { eapply NoDup_lookup; [exact Hnd|exact Hp|exact Hk]. }
      rewrite bool_decide_eq_true_2 by done.
      pose proof Hpl as Hpl'.
      apply persona_game_data in Hpl' as (Hst & gd & Hgd & <- & <- & <- & _).
      rewrite Hgdx in Hgd. injection Hgd as <-.
      case_decide as Hd.
      * unfold persona in *. simpl. rewrite Hgdx in Hpl. simpl in Hpl.
        rewrite Hfx. simpl. congruence.
      * exfalso. apply Hd. split; [done|].
        destruct (decide (px < length (pobjs w3))) as [|Hge]; [done|].
        rewrite list_lookup_total_alt, lookup_ge_None_2 in Hgdx by lia.
        done.
    + rewrite bool_decide_eq_false_2.
      * case_decide as Hd; [by destruct Hd as [-> _]|done].
      * intros ->. apply Hne. congruence.
  - intros q Hq. rewrite list_lookup_total_alter_ne.
    + rewrite (Hout3 q) by by rewrite Ha2.
      change (pobjs w2) with (pobjs w1). by apply Hout1.
    + intros ->. apply Hq. by eapply list_elem_of_lookup_2.
Qed.

(** X8 (Game.start_game, Game.make_roles, Player.start_playing,
    Player.toggle_flashlight, Player.role_summary): what a successful
    [start_game] makes of the players.  The phase is Claims and the turn
    is 1.  The active player at seat [i] gets the role at position [i] of
    the shuffled roles that the role file gives for the number of active
    players, may claim, has no claim yet, and holds the flashlight exactly
    when [i] is the seat that [random.choice] picks; [role_summary] then
    returns that role.  A player object that is not active is left
    untouched. *)
Theorem start_game_seats_the_players (r : Random) (w w' : State) :
  NoDup (active w) ->
  start_game card_title role_info r w = Ok tt w' ->
  game_status w = Unstarted /\
  phase w' = Some Claims /\ turn w' = Some 1 /\
  exists ni nc, role_info (count_active w) = Some (ni, nc) /\
    (forall i p, active w !! i = Some p ->
       exists gd, gd_at w' p = Some gd /\
         shuffle_roles r (replicate ni Investigator ++ replicate nc Cultist)
           !! i = Some (role gd) /\
         can_claim gd = true /\ claim gd = None /\
         has_flashlight gd
         = bool_decide (i = choice r `mod` length (active w)) /\
         role_summary p w' = Ok (role gd) w') /\
    (forall q, q ∉ active w -> pobjs w' !!! q = pobjs w !!! q).
Proof.
  intros Hnd Hstart. pose proof (start_game_persons r w Hnd) as H.
  unfold wp in H. rewrite Hstart in H.
  destruct H as (Hu & Hph & Ht & ni & nc & Hri & Hin & Hout).
  split; [done|]. split; [done|]. split; [done|].
  exists ni, nc. split; [done|]. split; [|done].
  intros i p Hp. destruct (Hin i p Hp) as (ro & Hro & Hpl).
  apply persona_game_data in Hpl as (Hst & gd & Hgd & <- & Hcc & Hcl & Hfl).
  exists gd. repeat split; try done.
  unfold role_summary, bind, player_at, gets, the_game_data, bind, player_at,
    gets. rewrite Hst, bool_decide_eq_false_2 by (by intros H; apply H).
  by rewrite Hgd.
Qed.

(** ** The current player *)

Lemma first_with_spec (flag : PlayerGameData -> bool) (ps : list addr)
  (w : State) :
  (forall p, p ∈ ps -> is_Some (gd_at w p)) ->
  first_with flag ps w
  = Ok (head (filter (fun p => (flag <$> gd_at w p) = Some true) ps)) w.
Proof.
  induction ps as [|p ps IH]; intros Hgd; [done|].
  cbn [first_with]. unfold bind at 1, the_game_data, bind, player_at, gets.
  destruct (Hgd p) as [gd Hp]; [apply list_elem_of_here|].
  pose proof Hp as Hp'. unfold gd_at in Hp'. rewrite Hp'. unfold ret.
  rewrite filter_cons.
  destruct (decide ((flag <$> gd_at w p) = Some true)) as [Hf|Hf];
    rewrite Hp in Hf; simpl in Hf.
  - injection Hf as ->. done.
  - destruct (flag gd); [done|]. apply IH.
    intros q Hq. apply Hgd. by apply list_elem_of_further.
Qed.

(** X9 (Game.get_current_player): in a state whose active players all
    have game data, the call returns without a change of the state.  In
    the Claims phase it returns the first active player, in seat order,
    who may claim.  In the Investigation phase of a reachable state it
    returns the one player object that holds the flashlight, if that
    player is active, and [None] if no active player holds it (as after
    an investigation that failed, or when the holder was removed). *)
Theorem current_player_holds_the_flashlight (w : State) :
  reachable card_title role_info w ->
  (forall p, p ∈ active w -> is_Some (gd_at w p)) ->
  (phase w = Some Claims ->
   get_current_player w = Ok (head (filter (may_claim w) (active w))) w) /\
  (phase w = Some Investigation ->
   exists res, get_current_player w = Ok res w /\
     match res with
     | Some p => p ∈ active w /\ lit w p /\ forall q, lit w q -> q = p
     | None => forall q, q ∈ active w -> ~ lit w q
     end).
Proof.
  intros Hreach Hgd. split; intros Hph.
  - unfold get_current_player, bind, attr. rewrite Hph. simpl.
    unfold get_active_players, gets. by rewrite first_with_spec.
  - unfold get_current_player, bind, attr. rewrite Hph. simpl.
    unfold get_active_players, gets. rewrite first_with_spec by done.
    eexists. split; [done|].
    assert (forall p, (has_flashlight <$> gd_at w p) = Some true <-> lit w p)
      as Hlit.
    { intros p. unfold lit, holds_flashlight, gd_at.
      destruct (game_data (pobjs w !!! p)); simpl; [|done].
      split; congruence. }
    destruct (head _) as [p|] eqn:Hhd.
    + apply head_Some_elem_of in Hhd.
      apply list_elem_of_filter in Hhd as [Hp Hin].
      apply Hlit in Hp. split; [done|]. split; [done|].
      intros q Hq. by apply (reachable_Lit w Hreach).
    + apply head_None in Hhd. intros q Hq Hl.
      assert (q ∈ filter (fun p => (has_flashlight <$> gd_at w p) = Some true)
                         (active w)) as Hin.
      { apply list_elem_of_filter. split; [by apply Hlit|done]. }
      rewrite Hhd in Hin. by apply elem_of_nil in Hin.
Qed.

(** ** Who may claim in a new round *)

Lemma stable_tempo_upd_game_data p f : stable tempo (upd_game_data p f).
Proof.
  intros v w Hw. unfold post, upd_game_data. wp_steps; done.
Qed.
#[local] Hint Resolve stable_tempo_upd_game_data : inv.

Lemma stable_tempo_return_card c : stable tempo (return_card c).
Proof. intros v. unfold return_card. inv_go. Qed.
#[local] Hint Resolve stable_tempo_return_card : inv.

Lemma stable_tempo_recollect p : stable tempo (recollect p).
Proof. intros v. unfold recollect. inv_go. Qed.
#[local] Hint Resolve stable_tempo_recollect : inv.

Lemma stable_tempo_deck_pop : stable tempo deck_pop.
Proof. intros v. unfold deck_pop. inv_go. Qed.
#[local] Hint Resolve stable_tempo_deck_pop : inv.

Lemma stable_tempo_deal_one p : stable tempo (deal_one p).
Proof. intros v. unfold deal_one, give_card. inv_go. Qed.
#[local] Hint Resolve stable_tempo_deal_one : inv.

Lemma stable_tempo_deal_loop fuel : stable tempo (deal_loop fuel).
Proof.
  intros v. induction fuel as [|fuel IH]; cbn [deal_loop]; inv_go.
Qed.
#[local] Hint Resolve stable_tempo_deal_loop : inv.

Lemma stable_tempo_deal_cards r : stable tempo (deal_cards r).
Proof. intros v. unfold deal_cards. inv_go. Qed.
#[local] Hint Resolve stable_tempo_deal_cards : inv.

Lemma stable_pobjs_return_card c : stable pobjs (return_card c).
Proof. intros v. unfold return_card. inv_go. Qed.
#[local] Hint Resolve stable_pobjs_return_card : inv.

Lemma recollect_pobjs (q : addr) (w : State) :
  wp (recollect q) w
     (fun _ w' => exists gd, gd_at w q = Some gd /\
        pobjs w' = alter (with_game_data
                            (set_can_claim (has_flashlight gd)
                               (set_cards [] gd))) q (pobjs w))
     (fun _ => True) True.
Proof.
  unfold recollect. apply wp_bind. unfold the_game_data, player_at.
  apply wp_bind, wp_gets.
  destruct (game_data (pobjs w !!! q)) as [gd|] eqn:Hgd; [|done].
  apply wp_ret, wp_bind.
  eapply (wp_keeps (fun w' => pobjs w' = pobjs w)); try done.
  { apply stable_apply. intros v. inv_go. }
  intros _ w1 Hw1.
  assert (q < length (pobjs w)) as Hlt.
  { destruct (decide (q < length (pobjs w))) as [|Hge]; [done|].
    rewrite list_lookup_total_alt, lookup_ge_None_2 in Hgd by lia. done. }
  apply wp_bind. unfold upd_game_data at 1, the_game_data, player_at,
    upd_player.
  apply wp_bind, wp_bind, wp_gets. rewrite Hw1, Hgd.
  apply wp_ret, wp_modify, wp_bind.
  unfold the_game_data, player_at. apply wp_bind, wp_gets. simpl.
  rewrite Hw1, list_lookup_total_alter, decide_True by done. simpl.
  apply wp_ret.
  assert (forall b (w2 : State),
    pobjs w2 = alter (with_game_data (set_cards [] gd)) q (pobjs w) ->
    wp (upd_game_data q (set_can_claim b)) w2
       (fun _ w' =>
          pobjs w' = alter (with_game_data
                              (set_can_claim b (set_cards [] gd))) q
                       (pobjs w))
       (fun _ => True) True) as Hupd.
  { intros b w2 Hw2. unfold upd_game_data, the_game_data, player_at,
      upd_player. apply wp_bind, wp_bind, wp_gets.
    rewrite Hw2, list_lookup_total_alter, decide_True by done. simpl.
    apply wp_ret, wp_modify. simpl.
    rewrite Hw2, list_alter_alter_eq. by apply list_alter_ext. }
  change (has_flashlight (set_cards [] gd)) with (has_flashlight gd).
  assert (forall b, b = has_flashlight gd ->
    wp (upd_game_data q (set_can_claim b))
       (set_pobjs (alter (with_game_data (set_cards [] gd)) q) w1)
       (fun _ w' => exists gd0, gd_at w q = Some gd0 /\
          pobjs w' = alter (with_game_data
                              (set_can_claim (has_flashlight gd0)
                                 (set_cards [] gd0))) q (pobjs w))
       (fun _ => True) True) as Hfin.
  { intros b ->. eapply wp_mono; [apply Hupd|..]; try done.
    - simpl. by rewrite Hw1.
    - intros ? w' Hw'. by exists gd. }
  destruct (has_flashlight gd); by apply Hfin.
Qed.

Lemma settled_alter (w w' : State) (q p : addr) (gd : PlayerGameData) :
  gd_at w q = Some gd ->
  pobjs w' = alter (with_game_data
                      (set_can_claim (has_flashlight gd) (set_cards [] gd)))
                   q (pobjs w) ->
  settled w' q /\ (settled w p -> settled w' p).
Proof.
  intros Hgd Hw'.
  assert (q < length (pobjs w)) as Hlt.
  { destruct (decide (q < length (pobjs w))) as [|Hge]; [done|].
    unfold gd_at in Hgd.
    rewrite list_lookup_total_alt, lookup_ge_None_2 in Hgd by lia. done. }
  assert (settled w' q) as Hq.
  { eexists. unfold gd_at. rewrite Hw', list_lookup_total_alter,
      decide_True by done. simpl. split; done. }
  split; [done|]. destruct (decide (p = q)) as [->|Hne]; [done|].
  intros (gd' & Hp & Hs). exists gd'. split; [|done]. unfold gd_at in *.
  rewrite Hw', list_lookup_total_alter_ne by done. done.
Qed.

Lemma recollect_all_settled (l : list addr) (w : State) :
  wp (for_each l recollect) w
     (fun _ w' => (forall p, p ∈ l -> settled w' p) /\
                  (forall p, settled w p -> settled w' p))
     (fun _ => True) True.
Proof.
  revert w. induction l as [|q l IH]; intros w; cbn [for_each].
  { apply wp_ret. split; [by intros p ?%elem_of_nil|done]. }
  apply wp_bind. eapply wp_mono; [apply recollect_pobjs|..]; try done.
  intros _ w1 (gd & Hgd & Hw1). cbv beta.
  eapply wp_mono; [apply IH|..]; try done.
  intros _ w' [Hin Hkeep]. cbv beta. split.
  - intros p [->|Hp]%elem_of_cons; [|by apply Hin].
    apply Hkeep. by destruct (settled_alter w w1 q q gd Hgd Hw1).
  - intros p Hp. apply Hkeep.
    destruct (settled_alter w w1 q p gd Hgd Hw1) as [_ H]. by apply H.
Qed.

Lemma settled_persona (w w' : State) (p : addr) :
  map persona (pobjs w') = map persona (pobjs w) ->
  settled w p -> settled w' p.
Proof.
  intros Hps (gd & Hgd & Hs).
  pose proof (map_eq_lookup_total persona _ _ p Hps) as H.
  unfold settled, persona, gd_at in *. rewrite Hgd in H. simpl in H.
  destruct (game_data (pobjs w' !!! p)) as [gd'|]; simpl in H;
    [|congruence].
  exists gd'. split; [done|]. congruence.
Qed.

(** X10 (Game.new_round): who may claim in a new round.  When [new_round]
    returns, the phase is Claims, the turn is 1, nobody has gained or lost
    the flashlight, and an active player may claim exactly if that player
    holds the flashlight: the holder of the flashlight opens the claims of
    the new round. *)
Theorem new_round_lets_the_holder_claim (r : Random) (w w' : State) :
  new_round r w = Ok tt w' ->
  phase w' = Some Claims /\ turn w' = Some 1 /\
  active w' = active w /\ lights w' = lights w /\
  forall p, p ∈ active w ->
    exists gd, gd_at w' p = Some gd /\ can_claim gd = has_flashlight gd.
Proof.
  intros Hcall.
  assert (table w' = table w) as Ht.
  { apply (post_after (new_round r) w w' (fun w' => table w' = table w)).
    - by apply stable_table_new_round.
    - by rewrite Hcall. }
  assert (seats w' = seats w /\ lights w' = lights w) as [Hs Hl].
  { unfold table in Ht. split; congruence. }
  assert (wp (new_round r) w
            (fun _ w' => phase w' = Some Claims /\ turn w' = Some 1 /\
                         forall p, p ∈ active w -> settled w' p)
            (fun _ => True) True) as H.
  { unfold new_round. do 2 (apply wp_bind, wp_modify).
    unfold get_active_players. apply wp_bind, wp_gets, wp_bind.
    set (w0 := set_turn 1 (set_phase Claims w)).
    change (active w0) with (active w).
    assert (stable tempo (for_each (active w) recollect)) as Hst
      by (intros v; inv_go).
    eapply wp_mono;
      [apply (wp_conj _ _ _ _ _ _ _ _
                (recollect_all_settled (active w) w0)
                (Hst (tempo w0) w0 eq_refl))|..]; try done.
    intros _ w1 [[Hin _] Ht1]. cbv beta.
    eapply wp_mono;
      [apply (wp_conj _ _ _ _ _ _ _ _
                (stable_tempo_deal_cards r (tempo w1) w1 eq_refl)
                (dealt_to_deal_cards r w1 w1 (dealt_to_refl w1)))|..];
      try done.
    intros _ w2 [Ht2 (_ & Hps & _)]. cbv beta.
    rewrite Ht1 in Ht2. unfold tempo in Ht2. simpl in Ht2.
    injection Ht2 as -> ->. split; [done|]. split; [done|].
    intros p Hp. apply (settled_persona w1); [done|]. by apply Hin. }
  unfold wp in H. rewrite Hcall in H. destruct H as (Hph & Htu & Hset).
  split; [done|]. split; [done|]. split; [by apply active_seats|].
  split; [done|]. done.
Qed.

(** ** Which calls raise GameError, and what it leaves *)

Section Raises.
Context {A B : Type} (P : Exn -> Prop).

Lemma ro_ret (a : A) : raises_only P (ret a).
Proof. by intros w e w'. Qed.

Lemma ro_gets (f : State -> A) : raises_only P (gets f).
Proof. by intros w e w'. Qed.

Lemma ro_raise (e : Exn) : P e -> raises_only P (@raise A e).
Proof. intros He w e' w' [= <- _]. done. Qed.

Lemma ro_diverge : raises_only P (@diverge A).
Proof. by intros w e w'. Qed.

Lemma ro_attr (f : State -> option A) :
  P AttributeError -> raises_only P (attr f).
Proof.
  intros He w e w'. unfold attr. destruct (f w); [done|]. by intros [= <- _].
Qed.

Lemma ro_bind (m : M A) (k : A -> M B) :
  raises_only P m -> (forall a, raises_only P (k a)) ->
  raises_only P (bind m k).
Proof.
  intros Hm Hk w e w'. unfold bind.
  destruct (m w) as [a w1|e1 w1|] eqn:E; [apply Hk| |done].
  intros [= <- <-]. by eapply Hm.
Qed.

End Raises.

Lemma ro_modify (P : Exn -> Prop) (f : State -> State) :
  raises_only P (modify f).
Proof. by intros w e w'. Qed.

Lemma ro_for_each {A} (P : Exn -> Prop) (l : list A) (body : A -> M unit) :
  (forall x, raises_only P (body x)) -> raises_only P (for_each l body).
Proof.
  intros Hb. induction l as [|x l IH]; cbn [for_each]; [apply ro_ret|].
  apply ro_bind; [apply Hb|done].
Qed.

Lemma ro_repeat_n (P : Exn -> Prop) (n : nat) (body : M unit) :
  raises_only P body -> raises_only P (repeat_n n body).
Proof.
  intros Hb. induction n as [|n IH]; cbn [repeat_n]; [apply ro_ret|].
  by apply ro_bind.
Qed.

Lemma bind_raise {A B} (m : M A) (k : A -> M B) (w w' : State) (e : Exn) :
  bind m k w = Raise e w' ->
  m w = Raise e w' \/ exists a w1, m w = Ok a w1 /\ k a w1 = Raise e w'.
Proof.
  unfold bind. destruct (m w) as [a w1|e1 w1|];
    [|intros [= -> ->]; by left|done].
  intros H. right. by exists a, w1.
Qed.

Create HintDb ro.

Ltac ro_step :=
  lazymatch goal with
  | |- raises_only _ (bind _ _) => apply ro_bind; [|intros ?]
  | |- raises_only _ (ret _) => apply ro_ret
  | |- raises_only _ (gets _) => apply ro_gets
  | |- raises_only _ (modify _) => apply ro_modify
  | |- raises_only _ diverge => apply ro_diverge
  | |- raises_only _ (raise _) => apply ro_raise; done
  | |- raises_only _ (attr _) => apply ro_attr; done
  | |- raises_only _ (for_each _ _) => apply ro_for_each; intros ?
  | |- raises_only _ (repeat_n _ _) => apply ro_repeat_n
  | |- raises_only _ (player_at _) => unfold player_at
  | |- raises_only _ (card_at _) => unfold card_at
  | |- raises_only _ (flip_up _) => unfold flip_up
  | |- raises_only _ (upd_player _ _) => unfold upd_player
  | |- raises_only _ (the_game_data _) => unfold the_game_data
  | |- raises_only _ (upd_game_data _ _) => unfold upd_game_data
  | |- raises_only _ get_active_players => unfold get_active_players
  | |- raises_only _ count_active_players => unfold count_active_players
  | |- raises_only _ (if ?b then _ else _) => destruct b
  | |- raises_only _ (match ?x with _ => _ end) => destruct x
  | |- raises_only _ _ => solve [auto with ro]
  end.

Ltac ro_go := repeat ro_step.

Lemma internal_AttributeError : internal AttributeError.
Proof. by intros msg. Qed.
Lemma internal_IndexError : internal IndexError.
Proof. by intros msg. Qed.
Lemma internal_ValueError : internal ValueError.
Proof. by intros msg. Qed.
#[local] Hint Resolve internal_AttributeError internal_IndexError
  internal_ValueError : core.

Lemma ro_upd_game_data p f : raises_only internal (upd_game_data p f).
Proof. ro_go. Qed.
#[local] Hint Resolve ro_upd_game_data : ro.

Lemma ro_hands_of ps : raises_only internal (hands_of ps).
Proof. induction ps as [|p ps IH]; cbn [hands_of]; ro_go. Qed.

Lemma ro_scan_cards cs n k : raises_only internal (scan_cards cs n k).
Proof.
  revert n k. induction cs as [|c cs IH]; intros n k; cbn [scan_cards]; ro_go.
Qed.
#[local] Hint Resolve ro_hands_of ro_scan_cards : ro.

Lemma ro_check_winner : raises_only internal check_winner.
Proof. unfold check_winner. ro_go. Qed.

Lemma ro_new_phase : raises_only internal new_phase.
Proof. unfold new_phase. ro_go. Qed.

Lemma ro_get_next_player p : raises_only internal (get_next_player p).
Proof. unfold get_next_player. ro_go. Qed.

Lemma ro_deal_one p : raises_only internal (deal_one p).
Proof. unfold deal_one, deck_pop, give_card. ro_go. Qed.
#[local] Hint Resolve ro_check_winner ro_new_phase ro_get_next_player
  ro_deal_one : ro.

Lemma ro_deal_loop fuel : raises_only internal (deal_loop fuel).
Proof. induction fuel as [|fuel IH]; cbn [deal_loop]; ro_go. Qed.
#[local] Hint Resolve ro_deal_loop : ro.

Lemma ro_deal_cards r : raises_only internal (deal_cards r).
Proof. unfold deal_cards. ro_go. Qed.

Lemma ro_recollect p : raises_only internal (recollect p).
Proof. unfold recollect, return_card. ro_go. Qed.
#[local] Hint Resolve ro_deal_cards ro_recollect : ro.

Lemma ro_new_round r : raises_only internal (new_round r).
Proof. unfold new_round. ro_go. Qed.
#[local] Hint Resolve ro_new_round : ro.

Lemma ro_new_turn r : raises_only internal (new_turn r).
Proof. unfold new_turn. ro_go. Qed.
#[local] Hint Resolve ro_new_turn : ro.

Lemma ro_assign_roles roles i ps :
  raises_only internal (assign_roles roles i ps).
Proof.
  revert i. induction ps as [|p ps IH]; intros i; cbn [assign_roles];
    unfold start_playing; ro_go.
Qed.

Lemma ro_create_deck : raises_only internal (create_deck card_title).
Proof. unfold create_deck, deck_append_new. ro_go. Qed.

Lemma ro_toggle_flashlight p : raises_only internal (toggle_flashlight p).
Proof. unfold toggle_flashlight. ro_go. Qed.
#[local] Hint Resolve ro_assign_roles ro_create_deck ro_toggle_flashlight : ro.

Lemma no_game_error {A} (m : M A) (w w' : State) (msg : string) :
  raises_only internal m -> m w = Raise (GameError msg) w' -> False.
Proof. intros Hm H. by apply (Hm _ _ _ H msg). Qed.

Lemma reveal_card_raise (p : addr) (pos : option Z) (w w' : State) (e : Exn) :
  reveal_card p pos w = Raise e w' ->
  w' = w /\
  (e = GameError "No card to flip!" \/ e = GameError "All cards are faceup!"
   \/ internal e).
Proof.
  destruct (truthy pos) eqn:Ht.
  - unfold reveal_card. rewrite Ht.
    unfold bind, the_game_data, bind, player_at, gets, card_at, gets, flip_up,
      modify, raise, ret.
    destruct (game_data (pobjs w !!! p)) as [gd|]; [|intros [= <- <-]; auto].
    destruct (py_index _ _) as [c|]; [|intros [= <- <-]; auto].
    destruct (is_flipped (cobjs w !!! c)); simpl; [done|].
    intros [= <- <-]; auto.
  - rewrite reveal_card_falsy by done.
    destruct (gd_at w p) as [gd|]; [|intros [= <- <-]; auto].
    destruct (first_face_down w (cards gd)); [done|].
    intros [= <- <-]; auto.
Qed.

Lemma player_set_claim_raise (p : addr) (cl : list Card) (w w' : State)
  (msg : string) :
  player_set_claim p cl w = Raise (GameError msg) w' ->
  w' = w /\ msg = "You cannot claim right now.".
Proof.
  unfold player_set_claim. intros [H|(gd & w1 & Hgd & H)]%bind_raise.
  - exfalso. revert H. unfold the_game_data, bind, player_at, gets.
    destruct (game_data (pobjs w !!! p)); [done|]. by intros [=].
  - assert (w1 = w) as ->.
    { revert Hgd. unfold the_game_data, bind, player_at, gets.
      destruct (game_data (pobjs w !!! p)); [|done]. by intros [= _ ->]. }
    destruct (negb (can_claim gd)).
    + by injection H as <- <-.
    + exfalso. revert H. apply no_game_error. solve [ro_go].
Qed.

(** X11 (every call of the game): a GameError leaves the state as it was,
    with one exception.  When a call raises GameError the state is the
    state before the call, unless the call is an [investigate] whose user
    holds the flashlight and the error is one of the two errors of
    [reveal_card]: then the state is the state before the call with the
    user's flashlight put out, and nothing else is changed. *)
Theorem game_error_leaves_the_state (op : Op) (w w' : State) (msg : string) :
  call card_title role_info op w = Raise (GameError msg) w' ->
  w' = w \/
  exists u t pos r gd,
    op = Investigate u t pos r /\
    gd_at w u = Some gd /\ has_flashlight gd = true /\
    (msg = "No card to flip!" \/ msg = "All cards are faceup!") /\
    w' = set_pobjs (alter (with_game_data (set_has_flashlight false gd)) u) w.
Proof.
  destruct op as [p pl|p|r|p b e c r|u t pos r|]; simpl.
  - intros H. left. revert H.
    unfold add_player, bind, gets, player_at, gets, raise.
    destruct (_ && pl); [by intros [= _ ->]|].
    destruct (_ && _); [by intros [= _ ->]|].
    destruct (_ && _); [by intros [= _ ->]|]. done.
  - intros H. left. revert H. unfold remove_player, bind, gets, raise.
    destruct (bool_decide _); [done|]. by intros [= _ ->].
  - intros H. left. revert H. unfold start_game.
    intros [H|(gs & w1 & Hgs & H)]%bind_raise; [done|].
    injection Hgs as <- <-.
    destruct (bool_decide _); [by injection H as _ <-|].
    apply bind_raise in H as [H|(roles & w1 & Hro & H)].
    + revert H. unfold make_roles, bind, count_active_players, gets, raise.
      destruct (role_info _) as [[ni nc]|]; [done|]. by intros [= _ ->].
    + exfalso. revert H. generalize w1. clear.
      intros w1. apply no_game_error. solve [ro_go].
  - intros [H|([] & w1 & Hcl & H)]%bind_raise.
    + left. by apply player_set_claim_raise in H as [-> _].
    + exfalso. revert H. apply no_game_error. solve [ro_go].
  - unfold investigate.
    intros [H|(gd & w1 & Hgd & H)]%bind_raise.
    { exfalso. revert H. unfold the_game_data, bind, player_at, gets.
      destruct (game_data (pobjs w !!! u)); [done|]. by intros [=]. }
    assert (w1 = w /\ gd_at w u = Some gd) as [-> Hu].
    { revert Hgd. unfold the_game_data, bind, player_at, gets, gd_at.
      destruct (game_data (pobjs w !!! u)); [|done]. by intros [= -> ->]. }
    destruct (has_flashlight gd) eqn:Hfl; simpl in H.
    2:{ left. by injection H as _ <-. }
    apply bind_raise in H as [H|([] & w2 & Hw2 & H)].
    { exfalso. revert H. apply no_game_error. solve [ro_go]. }
    assert (w2 = set_pobjs
                   (alter (with_game_data (set_has_flashlight false gd)) u) w)
      as ->.
    { revert Hw2. unfold upd_game_data, bind, the_game_data, bind, player_at,
        gets, upd_player, modify. unfold gd_at in Hu. rewrite Hu.
      by intros [= <-]. }
    apply bind_raise in H as [H|([] & w3 & Hw3 & H)].
    + right. exists u, t, pos, r, gd.
      apply reveal_card_raise in H as [-> [H|[H|H]]].
      * injection H as ->. repeat split; auto.
      * injection H as ->. repeat split; auto.
      * by destruct (H msg).
    + exfalso. revert H. apply no_game_error. solve [ro_go].
  - done.
Qed.

(** ** What a claim stores *)

Lemma gd_at_valid (w : State) (p : addr) (gd : PlayerGameData) :
  gd_at w p = Some gd -> p < length (pobjs w).
Proof.
  intros Hgd. destruct (decide (p < length (pobjs w))) as [|Hge]; [done|].
  unfold gd_at in Hgd.
  rewrite list_lookup_total_alt, lookup_ge_None_2 in Hgd by lia. done.
Qed.

Lemma player_set_claim_ok (p : addr) (cl : list Card) (w : State)
  (gd : PlayerGameData) :
  gd_at w p = Some gd -> can_claim gd = true ->
  player_set_claim p cl w
  = Ok tt (set_pobjs
             (alter (with_game_data (set_can_claim false (set_the_claim cl gd)))
                    p) w).
Proof.
  intros Hgd Hcc. pose proof (gd_at_valid _ _ _ Hgd) as Hlt.
  unfold gd_at in Hgd.
  unfold player_set_claim, upd_game_data, upd_player, bind, the_game_data,
    bind, player_at, gets, modify, ret.
  rewrite Hgd. cbv beta iota. rewrite Hcc. cbn [negb]. cbv beta iota.
  rewrite Hgd. cbv beta iota. cbn [pobjs set_pobjs].
  rewrite list_lookup_total_alter, decide_True by done.
  cbn [game_data with_game_data]. cbv beta iota.
  f_equal. unfold set_pobjs. cbn [pobjs cobjs players game_status
    round_counter phase turn deck discard winner]. f_equal.
  rewrite list_alter_alter_eq. by apply list_alter_ext.
Qed.


(** ** The winner *)

Lemma stable_winner_upd_player p f : stable winner (upd_player p f).
Proof. unfold upd_player. auto with inv. Qed.
#[local] Hint Resolve stable_winner_upd_player : inv.

Lemma stable_winner_upd_game_data p f : stable winner (upd_game_data p f).
Proof. intros v. unfold upd_game_data. inv_go. Qed.
#[local] Hint Resolve stable_winner_upd_game_data : inv.

Lemma stable_winner_return_card c : stable winner (return_card c).
Proof. intros v. unfold return_card. inv_go. Qed.
#[local] Hint Resolve stable_winner_return_card : inv.

Lemma stable_winner_recollect p : stable winner (recollect p).
Proof. intros v. unfold recollect. inv_go. Qed.
#[local] Hint Resolve stable_winner_recollect : inv.

Lemma stable_winner_deck_pop : stable winner deck_pop.
Proof. intros v. unfold deck_pop. inv_go. Qed.
#[local] Hint Resolve stable_winner_deck_pop : inv.

Lemma stable_winner_deal_one p : stable winner (deal_one p).
Proof. intros v. unfold deal_one, give_card. inv_go. Qed.
#[local] Hint Resolve stable_winner_deal_one : inv.

Lemma stable_winner_deal_loop fuel : stable winner (deal_loop fuel).
Proof.
  intros v. induction fuel as [|fuel IH]; cbn [deal_loop]; inv_go.
Qed.
#[local] Hint Resolve stable_winner_deal_loop : inv.

Lemma stable_winner_deal_cards r : stable winner (deal_cards r).
Proof. intros v. unfold deal_cards. inv_go. Qed.
#[local] Hint Resolve stable_winner_deal_cards : inv.

Lemma stable_winner_new_phase : stable winner new_phase.
Proof. intros v. unfold new_phase. inv_go. Qed.

Lemma stable_winner_new_round r : stable winner (new_round r).
Proof. intros v. unfold new_round. inv_go. Qed.

Lemma stable_winner_get_next_player p : stable winner (get_next_player p).
Proof. intros v. unfold get_next_player. inv_go. Qed.

Lemma stable_winner_player_set_claim p cl :
  stable winner (player_set_claim p cl).
Proof. intros v. unfold player_set_claim. inv_go. Qed.

Lemma stable_winner_flip_first cs : stable winner (flip_first cs).
Proof.
  intros v. induction cs as [|c cs IH]; cbn [flip_first]; unfold flip_up;
    inv_go.
Qed.
#[local] Hint Resolve stable_winner_flip_first : inv.

Lemma stable_winner_reveal_card p pos : stable winner (reveal_card p pos).
Proof. intros v. unfold reveal_card, flip_up. inv_go. Qed.

#[local] Hint Resolve stable_winner_new_phase stable_winner_new_round
  stable_winner_get_next_player stable_winner_player_set_claim
  stable_winner_reveal_card : inv.

Lemma stable_winner_start_playing p ro : stable winner (start_playing p ro).
Proof. intros v. unfold start_playing. inv_go. Qed.
#[local] Hint Resolve stable_winner_start_playing : inv.

Lemma stable_winner_assign_roles roles i ps :
  stable winner (assign_roles roles i ps).
Proof.
  intros v. revert i. induction ps as [|p ps IH]; intros i;
    cbn [assign_roles]; inv_go.
Qed.

Lemma stable_winner_make_roles r : stable winner (make_roles role_info r).
Proof. intros v. unfold make_roles. inv_go. Qed.

Lemma stable_winner_create_deck : stable winner (create_deck card_title).
Proof.
  intros v w Hw. unfold post, wp. rewrite create_deck_spec. by rewrite <- Hw.
Qed.

Lemma stable_winner_toggle_flashlight p :
  stable winner (toggle_flashlight p).
Proof. unfold toggle_flashlight. auto with inv. Qed.

#[local] Hint Resolve stable_winner_assign_roles stable_winner_make_roles
  stable_winner_create_deck stable_winner_toggle_flashlight : inv.

Lemma stable_winner_start_game r :
  stable winner (start_game card_title role_info r).
Proof. intros v. unfold start_game. inv_go. Qed.

(** ** A deal that does not come out even *)

(** One pass of the inner loop with fewer cards than players: the first
    players get a card each, then [pop] finds the deck empty. *)
Lemma deal_pass_short (ps : list addr) (w : State) (d : list addr) :
  NoDup ps -> (forall p, p ∈ ps -> is_Some (gd_at w p)) ->
  deck w = Some d -> length d < length ps ->
  exists w', for_each ps deal_one w = Raise IndexError w' /\
    undealt w' = undealt w /\ deck w' = Some [] /\
    (forall i p, ps !! i = Some p ->
       length (hand w' p)
       = length (hand w p) + (if i <? length d then 1 else 0)) /\
    (forall p, p ∉ ps -> hand w' p = hand w p).
Proof.
  revert w d. induction ps as [|p ps IH]; intros w d Hnd Hgd Hd Hlen.
  { simpl in Hlen. lia. }
  apply list.NoDup_cons in Hnd as [Hp Hnd].
  destruct (Hgd p) as [gd Hp_gd]; [by left|].
  destruct (decide (d = [])) as [->|Hne].
  { exists w. cbn [for_each]. unfold bind, deal_one, bind.
    rewrite deck_pop_empty by done. repeat split; try done;
      intros; simpl; lia. }
  destruct (exists_last Hne) as (d' & c & ->).
  rewrite length_app in Hlen. simpl in Hlen.
  cbn [for_each]. unfold bind at 1.
  rewrite (deal_one_spec p c d' gd) by done.
  set (w1 := set_pobjs _ _).
  assert (forall q, hand w1 q = if decide (q = p) then cards gd ++ [c]
                                else hand w q) as Hh.
  { intros q. unfold w1. by rewrite (hand_upd _ _ gd). }
  assert (undealt w1 = undealt w) as Hu.
  { unfold undealt. f_equal. f_equal.
    by apply (views_upd_game_data p _ (set_deck d' w) gd). }
  destruct (IH w1 d') as (w' & Hrun & Hu' & Hd' & Hin & Hout); try done.
  - intros q Hq. unfold w1, gd_at. simpl.
    change (is_Some (gd_at (set_pobjs (alter (with_game_data
      (set_cards (cards gd ++ [c]) gd)) p) w) q)).
    rewrite (gd_at_upd _ _ gd) by done. case_decide; [done|].
    apply Hgd. by right.
  - simpl in Hlen. lia.
  - exists w'. split; [done|]. split; [congruence|]. split; [done|]. split.
    + intros [|i] q Hq; simpl in Hq.
      * injection Hq as <-. rewrite (Hout p Hp), Hh, decide_True by done.
        rewrite !length_app. simpl. unfold hand. rewrite Hp_gd.
        assert ((0 <? length d' + 1) = true) as -> by (apply Nat.ltb_lt; lia).
        done.
      * rewrite (Hin i q Hq), Hh, decide_False.
        2:{ intros ->. apply Hp. by eapply list_elem_of_lookup_2. }
        rewrite length_app. simpl.
        replace (S i <? length d' + 1) with (i <? length d'); [done|].
        destruct (Nat.ltb_spec i (length d')),
                 (Nat.ltb_spec (S i) (length d' + 1)); done || lia.
    + intros q Hq. apply not_elem_of_cons in Hq as [Hne' Hq].
      by rewrite (Hout q Hq), Hh, decide_False.
Qed.

Lemma deal_loop_general (k rem fuel : nat) (w : State) (d : list addr) :
  k < fuel -> NoDup (active w) ->
  (forall p, p ∈ active w -> is_Some (gd_at w p)) ->
  deck w = Some d -> length d = k * length (active w) + rem ->
  rem < length (active w) ->
  exists w', deal_loop fuel w
             = (if decide (rem = 0) then Ok tt w' else Raise IndexError w') /\
             dealt_out k rem w w'.
Proof.
  revert fuel w d. induction k as [|k IH];
    intros fuel w d Hf Hnd Hgd Hd Hl Hrem.
  - destruct fuel as [|fuel]; [lia|]. simpl in Hl.
    cbn [deal_loop]. unfold bind at 1, attr. rewrite Hd.
    destruct (decide (rem = 0)) as [->|Hne].
    + apply nil_length_inv in Hl as ->. simpl. exists w.
      split; [done|]. repeat split; try done. intros i p _. simpl. lia.
    + assert ((0 <? length d) = true) as -> by (apply Nat.ltb_lt; lia).
      unfold bind at 1, get_active_players, gets.
      destruct (deal_pass_short (active w) w d)
        as (w' & Hrun & Hu & Hd' & Hin & Hout); try done; [lia|].
      exists w'. unfold bind. rewrite Hrun. split; [done|].
      repeat split; try done.
      intros i p Hp. rewrite (Hin i p Hp), Hl. lia.
  - destruct fuel as [|fuel]; [lia|].
    cbn [deal_loop]. unfold bind at 1, attr. rewrite Hd.
    assert ((0 <? length d) = true) as ->.
    { apply Nat.ltb_lt. simpl in Hl. lia. }
    unfold bind at 1, get_active_players, gets.
    destruct (proj1 (returns_ok _ _ _)
                (deal_pass_exact (active w) w d Hnd Hgd Hd
                   ltac:(simpl in Hl; lia)))
      as ([] & w1 & Hrun & Hu & (d1 & Hd1 & Hl1) & Hin & Hout).
    unfold bind at 1. rewrite Hrun.
    destruct (undealt_inv _ _ Hu) as (Hs & _ & _).
    pose proof (active_seats _ _ Hs) as Ha.
    destruct (IH fuel w1 d1) as (w' & Hloop & Hu' & Hd' & Hin' & Hout');
      rewrite ?Ha; try done.
    + lia.
    + intros p Hp. apply (gd_at_seats _ _ _ Hs). by apply Hgd.
    + rewrite Hl1, Hl. simpl. lia.
    + exists w'. split; [done|]. split; [congruence|]. split; [done|].
      rewrite Ha in Hin', Hout'. split.
      * intros i p Hp. rewrite (Hin' i p Hp), Hin.
        -- lia.
        -- by eapply list_elem_of_lookup_2.
      * intros p Hp. by rewrite (Hout' p Hp), (Hout p Hp).
Qed.

(** The deal on a deck of any size, as far as the cards go. *)
Lemma deal_cards_general (r : Random) (w : State)
  (d : list addr) :
  fair r -> in_play w -> active w <> [] -> deck w = Some d ->
  let n := length (active w) in
  exists w',
    deal_cards r w = (if decide (length d `mod` n = 0) then Ok tt w'
                      else Raise IndexError w') /\
    deck w' = Some [] /\ discard w' = discard w /\ cobjs w' = cobjs w /\
    active w' = active w /\
    (forall i p, active w !! i = Some p ->
       length (hand w' p)
       = length (hand w p) + length d / n
         + (if i <? length d `mod` n then 1 else 0)) /\
    (forall p, p ∉ active w -> hand w' p = hand w p).
Proof.
  intros [_ Hr] (Hnd & Hgd & _ & _) Hne Hd n.
  assert (0 < n) as Hn.
  { unfold n. destruct (active w); [done|simpl; lia]. }
  unfold deal_cards, bind at 1, attr. rewrite Hd.
  unfold bind at 1, modify. unfold bind at 1, attr.
  set (w1 := set_deck _ w). cbn [deck w1 set_deck].
  assert (length (shuffle_cards r d) = length d) as Hsl by (by rewrite Hr).
  destruct (deal_loop_general (length d / n) (length d `mod` n)
              (S (length (shuffle_cards r d))) w1 (shuffle_cards r d))
    as (w' & Hloop & Hu & Hd' & Hin & Hout); try done.
  - rewrite Hsl.
    assert (length d / n <= length d); [|lia].
    apply Nat.Div0.div_le_upper_bound. nia.
  - rewrite Hsl. change (active w1) with (active w). fold n.
    rewrite (Nat.div_mod_eq (length d) n) at 1. lia.
  - change (active w1) with (active w). by apply Nat.mod_upper_bound, Nat.neq_0_lt_0.
  - exists w'. split; [done|].
    destruct (undealt_inv _ _ Hu) as (Hs & Hds & Hc).
    split; [done|]. split; [done|]. split; [done|].
    split; [exact (active_seats _ _ Hs)|]. split; [exact Hin|exact Hout].
Qed.

(** X13 (Game.deal_cards): a deal hands out every card.  On a game in
    play with [n >= 1] active players and a deck of [d] cards the deal
    comes to an end with the deck empty; each active player has received
    [d / n] cards and each of the first [d mod n] active players, in seat
    order, one more; nothing but the hands of the active players and the
    deck has changed: the discard, the card objects, the roster, the
    status and the round counter, the phase and the turn, the winner, and
    every player's identity, status, role, claim and flags are as before.
    The call returns exactly when [n] divides [d], and raises IndexError
    otherwise, after the last card has been dealt. *)
Theorem deal_cards_hands_out_every_card (r : Random) (w : State)
  (d : list addr) :
  fair r -> in_play w -> active w <> [] -> deck w = Some d ->
  let n := length (active w) in
  exists w',
    deal_cards r w = (if decide (length d `mod` n = 0) then Ok tt w'
                      else Raise IndexError w') /\
    deck w' = Some [] /\ discard w' = discard w /\ cobjs w' = cobjs w /\
    active w' = active w /\
    (forall i p, active w !! i = Some p ->
       length (hand w' p)
       = length (hand w p) + length d / n
         + (if i <? length d `mod` n then 1 else 0)) /\
    (forall p, p ∉ active w -> hand w' p = hand w p) /\
    players w' = players w /\ clock w' = clock w /\ tempo w' = tempo w /\
    winner w' = winner w /\
    (forall q, persona (pobjs w' !!! q) = persona (pobjs w !!! q)).
Proof.
  intros Hr Hin Hne Hd n.
  destruct (deal_cards_general r w d Hr Hin Hne Hd)
    as (w' & Hdeal & H1 & H2 & H3 & H4 & H5 & H6).
  fold n in Hdeal, H5. exists w'.
  assert (after (deal_cards r w) = Some w') as Hafter.
  { rewrite Hdeal. by case_decide. }
  assert (seats w' = seats w) as Hs.
  { apply (post_after (deal_cards r) w w' (fun w' => seats w' = seats w));
      [|done].
    by apply (stable_table_seats _ (stable_table_deal_cards r)). }
  assert (tempo w' = tempo w) as Ht.
  { apply (post_after (deal_cards r) w w' (fun w' => tempo w' = tempo w));
      [|done].
    by apply stable_tempo_deal_cards. }
  assert (winner w' = winner w) as Hv.
  { apply (post_after (deal_cards r) w w' (fun w' => winner w' = winner w));
      [|done].
    by apply stable_winner_deal_cards. }
  assert (dealt_to w w') as (_ & Hp & _).
  { apply (post_after (deal_cards r) w w' (dealt_to w)); [|done].
    apply dealt_to_deal_cards, dealt_to_refl. }
  repeat (split; [done|]). split; [by apply seats_players|].
  split; [unfold clock; unfold seats in Hs; congruence|].
  split; [done|]. split; [done|].
  intros q. by apply (map_eq_lookup_total persona).
Qed.

(** ** Turns and phases *)

Lemma stable_tempo_hands_of ps : stable tempo (hands_of ps).
Proof. intros v. induction ps as [|p ps IH]; cbn [hands_of]; inv_go. Qed.

Lemma stable_tempo_scan_cards cs n k : stable tempo (scan_cards cs n k).
Proof.
  intros v. revert n k. induction cs as [|c cs IH]; intros n k;
    cbn [scan_cards]; inv_go.
Qed.
#[local] Hint Resolve stable_tempo_hands_of stable_tempo_scan_cards : inv.

Lemma stable_tempo_check_winner : stable tempo check_winner.
Proof. intros v. unfold check_winner. inv_go. Qed.

Lemma seats_count_active (w w' : State) :
  seats w' = seats w -> count_active w' = count_active w.
Proof. intros Hs. by rewrite !count_active_length, (active_seats _ _ Hs). Qed.

(** X14 (Game.new_turn, Game.new_phase, Game.new_round): how the turns
    and the phases follow each other.  When [new_turn] returns from turn
    [t], the turn is [t + 1] and the phase is unchanged as long as [t + 1]
    does not exceed the number of active players; otherwise the turn is 1
    again and the phase has changed, from Claims to Investigation or from
    Investigation to Claims.  The number of active players is as before. *)
Theorem new_turn_moves_the_clock (r : Random) (w w' : State) :
  new_turn r w = Ok tt w' ->
  count_active w' = count_active w /\
  exists t, turn w = Some t /\
    if t + 1 <=? count_active w
    then turn w' = Some (t + 1) /\ phase w' = phase w
    else turn w' = Some 1 /\
         exists ph, phase w = Some ph /\ phase w' = Some (other_phase ph).
Proof.
  intros Hcall. split.
  { apply seats_count_active.
    apply (post_after (new_turn r) w w' (fun w' => seats w' = seats w)).
    - by apply (stable_table_seats _ (stable_table_new_turn r)).
    - by rewrite Hcall. }
  assert (wp (new_turn r) w
    (fun _ w' => exists t, turn w = Some t /\
       if t + 1 <=? count_active w
       then turn w' = Some (t + 1) /\ phase w' = phase w
       else turn w' = Some 1 /\
            exists ph, phase w = Some ph /\ phase w' = Some (other_phase ph))
    (fun _ => True) True) as H.
  { unfold new_turn. apply wp_bind.
    eapply wp_mono;
      [apply (wp_conj _ _ _ _ _ _ _ _
                (stable_tempo_check_winner (tempo w) w eq_refl)
                (stable_board_check_winner (board w) w eq_refl))|..];
      try done.
    intros _ w1 [Ht1 Hb1]. cbv beta.
    destruct (board_inv _ _ Hb1) as (Hs1 & _ & _).
    unfold tempo in Ht1. injection Ht1 as Hph1 Htu1.
    apply wp_bind, wp_attr; [|done]. intros t Ht. rewrite Htu1 in Ht.
    apply wp_bind, wp_modify, wp_bind, wp_attr; [|done].
    intros t' [= <-].
    unfold count_active_players. apply wp_bind, wp_gets.
    change (count_active (set_turn (t + 1) w1)) with (count_active w1).
    rewrite (seats_count_active _ _ Hs1).
    destruct (Nat.ltb_spec (count_active w) (t + 1)) as [Hlt|Hge].
    - assert ((t + 1 <=? count_active w) = false) as Hleb
        by (apply Nat.leb_gt; lia).
      apply wp_bind, wp_attr; [|done]. intros ph Hph.
      change (phase (set_turn (t + 1) w1)) with (phase w1) in Hph.
      rewrite Hph1 in Hph.
      assert (forall (m : M unit) (w2 : State),
                stable tempo m -> tempo w2 = (Some (other_phase ph), Some 1) ->
                wp m w2
                   (fun _ w3 => exists t0, turn w = Some t0 /\
                      if t0 + 1 <=? count_active w
                      then turn w3 = Some (t0 + 1) /\ phase w3 = phase w
                      else turn w3 = Some 1 /\
                           exists ph0, phase w = Some ph0 /\
                                       phase w3 = Some (other_phase ph0))
                   (fun _ => True) True) as Hrest.
      { intros m w2 Hm Hw2.
        eapply wp_mono; [apply (Hm _ w2 Hw2)|..]; try done.
        intros ? w3 Hw3. cbv beta. unfold tempo in Hw3.
        injection Hw3 as Hp3 Ht3. exists t. split; [done|]. rewrite Hleb.
        split; [done|]. by exists ph. }
      destruct ph; simpl.
      + unfold new_phase. do 2 (apply wp_bind, wp_modify).
        unfold get_active_players. apply wp_bind, wp_gets.
        apply Hrest; [|done]. intros v. inv_go.
      + unfold new_round. do 2 (apply wp_bind, wp_modify).
        unfold get_active_players. apply wp_bind, wp_gets.
        apply Hrest; [|done]. intros v. inv_go.
    - apply wp_ret. exists t. split; [done|].
      assert ((t + 1 <=? count_active w) = true) as ->
        by (apply Nat.leb_le; lia).
      split; [done|]. done. }
  unfold wp in H. by rewrite Hcall in H.
Qed.

(** ** The win rule *)

(** X15 (Game.check_winner): the win rule as a whole.  On a game whose
    active players have game data and whose discard exists, [check_winner]
    returns and changes nothing but the winner.  The winner is
    Investigator if the face-up Elder Signs in the hands of the active
    players and the discard are at least as many as the active players
    (so also when nobody is playing); otherwise Cultist if a Cthulhu card
    is face-up there or the face-up cards are at least four times the
    active players; otherwise the winner is left as it was, never
    cleared.  A second evaluation changes nothing. *)
Theorem check_winner_decides (w : State) :
  (forall p, p ∈ active w -> is_Some (gd_at w p)) -> is_Some (discard w) ->
  exists w', check_winner w = Ok tt w' /\
    winner w'
    = (if count_active w <=? signs_revealed w then Some Investigator
       else if cthulhu_revealed w || (count_active w * 4 <=? cards_revealed w)
            then Some Cultist
            else winner w) /\
    match winner w' with
    | Some ro => w' = set_winner ro w
    | None => w' = w
    end /\
    check_winner w' = Ok tt w'.
Proof.
  intros Hgd Hds. rewrite check_winner_spec by done.
  eexists. split; [done|].
  assert (forall ro, decided (set_winner ro w) = decided w) as Hsame by done.
  unfold decided in *.
  destruct (count_active w <=? signs_revealed w) eqn:Hs.
  - split; [done|]. split; [done|].
    rewrite check_winner_spec by done. unfold decided.
    change (count_active (set_winner Investigator w)) with (count_active w).
    change (signs_revealed (set_winner Investigator w))
      with (signs_revealed w).
    rewrite Hs. by rewrite set_winner_twice.
  - destruct (cthulhu_revealed w || (count_active w * 4 <=? cards_revealed w))
      eqn:Hc.
    + split; [done|]. split; [done|].
      rewrite check_winner_spec by done. unfold decided.
      change (count_active (set_winner Cultist w)) with (count_active w).
      change (signs_revealed (set_winner Cultist w)) with (signs_revealed w).
      change (cthulhu_revealed (set_winner Cultist w))
        with (cthulhu_revealed w).
      change (cards_revealed (set_winner Cultist w)) with (cards_revealed w).
      rewrite Hs, Hc. by rewrite set_winner_twice.
    + split; [done|]. split.
      * destruct (winner w) eqn:Hw; [|done]. destruct w; simpl in *.
        by subst.
      * rewrite check_winner_spec by done. unfold decided.
        by rewrite Hs, Hc.
Qed.

(** ** A successful investigation *)

Lemma bind_ok {A B} (m : M A) (k : A -> M B) (w w' : State) (b : B) :
  bind m k w = Ok b w' -> exists a w1, m w = Ok a w1 /\ k a w1 = Ok b w'.
Proof.
  unfold bind. destruct (m w) as [a w1|e1 w1|]; [|done|done].
  intros H. by exists a, w1.
Qed.

Lemma the_game_data_ok (p : addr) (w w' : State) (gd : PlayerGameData) :
  the_game_data p w = Ok gd w' -> w' = w /\ gd_at w p = Some gd.
Proof.
  unfold the_game_data, bind, player_at, gets, gd_at.
  destruct (game_data (pobjs w !!! p)); [|done]. by intros [= -> ->].
Qed.

Lemma upd_game_data_ok (p : addr) f (w w' : State) :
  upd_game_data p f w = Ok tt w' ->
  exists gd, gd_at w p = Some gd /\
             w' = set_pobjs (alter (with_game_data (f gd)) p) w.
Proof.
  unfold upd_game_data. intros (gd & w1 & Hgd & H)%bind_ok.
  apply the_game_data_ok in Hgd as [-> Hgd]. exists gd. split; [done|].
  unfold upd_player, modify in H. by injection H as <-.
Qed.

(** X16 (Game.investigate): what a successful investigation does.  When
    [investigate] returns, the user held the flashlight before the call
    and the target holds it after; the user does not hold it any more,
    unless user and target are the same player, and nobody else has
    gained or lost it.  Called without a position, or with position 0, it
    has turned exactly the first face-down card of the target's hand
    face-up and changed no other card; called with another position it
    has changed no card at all. *)
Theorem investigate_passes_the_flashlight (u t : addr) (pos : option Z)
  (r : Random) (w w' : State) :
  investigate u t pos r w = Ok tt w' ->
  lit w u /\ lit w' t /\ (u <> t -> ~ lit w' u) /\
  (forall q, q <> u -> q <> t -> lit w' q <-> lit w q) /\
  (truthy pos = false ->
   exists c, first_face_down w (hand w t) = Some c /\
             cobjs w' = alter card_flip_up c (cobjs w)) /\
  (truthy pos = true -> cobjs w' = cobjs w).
Proof.
  unfold investigate. intros (gd & w0 & Hgd & H)%bind_ok.
  apply the_game_data_ok in Hgd as [-> Hu].
  destruct (has_flashlight gd) eqn:Hfl; [|done]. simpl in H.
  apply bind_ok in H as ([] & w1 & H1 & H).
  apply upd_game_data_ok in H1 as (gd' & Hu' & ->).
  rewrite Hu in Hu'. injection Hu' as <-.
  set (w1 := set_pobjs _ w) in *.
  apply bind_ok in H as ([] & w2 & H2 & H).
  apply bind_ok in H as ([] & w3 & H3 & H).
  apply upd_game_data_ok in H3 as (gdt & Ht & ->).
  set (w3 := set_pobjs _ w2) in *.
  assert (lights w' = lights w3 /\ cobjs w' = cobjs w3) as [Hl Hc].
  { split.
    - apply (post_after (new_turn r) w3 w' (fun w' => lights w' = lights w3)).
      + by apply (stable_table_lights _ (stable_table_new_turn r)).
      + by rewrite H.
    - apply (post_after (new_turn r) w3 w' (fun w' => cobjs w' = cobjs w3)).
      + by apply (stable_fixed_cobjs _ (stable_fixed_new_turn r)).
      + by rewrite H. }
  assert (pobjs w2 = pobjs w1 /\
          (truthy pos = false ->
           exists c, first_face_down w (hand w t) = Some c /\
                     cobjs w2 = alter card_flip_up c (cobjs w)) /\
          (truthy pos = true -> cobjs w2 = cobjs w)) as (Hp2 & Hf & Htr).
  { destruct (truthy pos) eqn:Htp.
    - assert (w2 = w1) as ->.
      { apply (post_after (reveal_card t pos) w1 w2 (fun w' => w' = w1)).
        + by apply reveal_card_truthy_same.
        + by rewrite H2. }
      split; [done|]. split; [done|]. done.
    - rewrite reveal_card_falsy in H2 by done.
      destruct (gd_at w1 t) as [gd1|] eqn:Hg1; [|done].
      destruct (first_face_down w1 (cards gd1)) as [c|] eqn:Hc1; [|done].
      injection H2 as <-. split; [done|]. split; [|done]. intros _.
      exists c. split; [|done].
      replace (hand w t) with (cards gd1); [done|].
      assert (hand w1 t = cards gd1) as <- by (unfold hand; by rewrite Hg1).
      unfold w1. rewrite (hand_upd _ _ gd) by done.
      case_decide as E; [|done]. subst t. unfold hand. by rewrite Hu. }
  assert (forall q, lit w2 q <-> lit w1 q) as Hl2.
  { intros q. unfold lit. by rewrite Hp2. }
  assert (forall q, lit w' q <-> lit w3 q) as Hl'.
  { intros q. by apply lit_lights. }
  assert (forall q, lit w3 q <-> if decide (q = t) then True else lit w2 q)
    as Hl3.
  { intros q. unfold w3. rewrite (lit_upd _ _ gdt) by done.
    case_decide; [|done]. simpl. done. }
  assert (forall q, lit w1 q <-> if decide (q = u) then False else lit w q)
    as Hl1.
  { intros q. unfold w1. rewrite (lit_upd _ _ gd) by done.
    case_decide; [|done]. simpl. done. }
  split; [unfold lit, holds_flashlight; unfold gd_at in Hu; by rewrite Hu|].
  split; [apply Hl', Hl3; by rewrite decide_True|]. split; [|split].
  - intros Hne Hlit. apply Hl', Hl3 in Hlit.
    rewrite decide_False in Hlit by done.
    apply Hl2, Hl1 in Hlit. by rewrite decide_True in Hlit.
  - intros q Hqu Hqt. rewrite Hl', Hl3, decide_False by done.
    rewrite Hl2, Hl1, decide_False by done. done.
  - split.
    + intros Htp. destruct (Hf Htp) as (c & Hc1 & Hc2). exists c.
      split; [done|]. by rewrite Hc.
    + intros Htp. rewrite Hc. by apply Htr.
Qed.

(** ** An empty table *)

(** X17 (Game.start_game, Game.create_deck, Game.deal_cards): starting a
    game that nobody has joined.  If the role file has no line for zero
    players, [start_game] raises GameError and leaves the state as it was;
    if it has one, [create_deck] makes the one Cthulhu card and
    [deal_cards] loops forever, with a card to deal and nobody to deal it
    to. *)
Theorem start_game_on_an_empty_table (r : Random) (w : State) :
  game_status w = Unstarted -> active w = [] -> fair r ->
  start_game card_title role_info r w
  = match role_info 0 with
    | None => Raise (GameError "Failed to find a role setup.") w
    | Some _ => Diverge
    end.
Proof.
  intros Hu Ha Hr.
  assert (count_active w = 0) as Hn by (by rewrite count_active_length, Ha).
  unfold start_game, bind at 1, gets. rewrite Hu.
  rewrite bool_decide_false by (by intros ?).
  unfold bind at 1. rewrite make_roles_spec by done. rewrite Hn.
  destruct (role_info 0) as [[ni nc]|]; [|done].
  unfold bind at 1, get_active_players, gets. rewrite Ha.
  cbn [assign_roles]. unfold bind at 1, ret.
  unfold bind at 1. rewrite create_deck_spec. rewrite Hn.
  unfold bind at 1.
  rewrite (deal_cards_nobody r _ [length (cobjs w)]); done.
Qed.

(** ** Joining and leaving *)

Lemma remove_first_not_elem (p : addr) (l : list addr) :
  NoDup l -> p ∉ remove_first p l.
Proof.
  induction 1 as [|y l Hy Hl IH]; simpl; [apply not_elem_of_nil|].
  destruct (decide (p = y)) as [->|Hne]; [done|].
  rewrite not_elem_of_cons. done.
Qed.

Lemma remove_first_snoc (p : addr) (l : list addr) :
  p ∉ l -> remove_first p (l ++ [p]) = l.
Proof.
  induction l as [|y l IH]; intros Hp; simpl.
  - by rewrite decide_True.
  - rewrite not_elem_of_cons in Hp. destruct Hp as [Hne Hp].
    rewrite decide_False by done. by rewrite IH.
Qed.

(** X18 (Game.add_player, Game.remove_player): joining and leaving, in a
    reachable state.  A player of the roster cannot join again, in either
    way: the call raises GameError and changes nothing.  A player who is
    not in the roster joins at its end, as a player while the game is
    unstarted and as a spectator at any time, and is refused as a player
    once the game is not unstarted; leaving right after joining gives the
    roster back.  A player of the roster leaves it, the player object
    untouched, and cannot leave a second time; one who is not in the
    roster cannot leave at all. *)
Theorem joining_and_leaving (p : addr) (w : State) :
  reachable card_title role_info w -> p < length (pobjs w) ->
  (p ∈ players w ->
   (forall b, exists msg, add_player p b w = Raise (GameError msg) w) /\
   exists w', remove_player p w = Ok tt w' /\
     (p ∉ players w') /\ pobjs w' = pobjs w /\
     remove_player p w'
     = Raise (GameError "You weren't in the game.") w') /\
  (p ∉ players w ->
   remove_player p w = Raise (GameError "You weren't in the game.") w /\
   (game_status w <> Unstarted ->
    add_player p true w = Raise (GameError "The game has already started.") w)
   /\
   forall b, game_status w = Unstarted \/ b = false ->
     exists w', add_player p b w = Ok tt w' /\
       players w' = players w ++ [p] /\
       status (pobjs w' !!! p) = (if b then Playing else Spectating) /\
       remove_player p w' = Ok tt (set_players (players w) w')).
Proof.
  intros [Hnd Hst]%reachable_Roster Hlt. split; intros Hin.
  - split.
    + intros b. specialize (Hst p Hin).
      unfold add_player, bind, gets, player_at, gets, raise.
      destruct (bool_decide (game_status w <> Unstarted) && b);
        [by eexists|].
      rewrite !(bool_decide_eq_true_2 (p ∈ players w)) by done. simpl.
      destruct (status (pobjs w !!! p)); [done| |].
      * rewrite bool_decide_eq_true_2 by done. by eexists.
      * rewrite bool_decide_eq_false_2 by done.
        rewrite bool_decide_eq_true_2 by done. by eexists.
    + eexists. unfold remove_player, bind, gets, modify, raise.
      rewrite bool_decide_eq_true_2 by done. split; [done|].
      simpl. split; [by apply remove_first_not_elem|]. split; [done|].
      rewrite bool_decide_eq_false_2; [done|].
      by apply remove_first_not_elem.
  - split; [|split].
    + unfold remove_player, bind, gets, raise.
      by rewrite bool_decide_eq_false_2.
    + intros Hg. unfold add_player, bind, gets, raise.
      by rewrite bool_decide_eq_true_2.
    + intros b Hb. eexists.
      unfold add_player, bind, gets, player_at, gets, raise, upd_player,
        modify.
      assert (bool_decide (game_status w <> Unstarted) && b = false) as ->.
      { destruct Hb as [Hu| ->]; [|by rewrite andb_false_r].
        by rewrite bool_decide_eq_false_2 by (by intros H; apply H). }
      rewrite !(bool_decide_eq_false_2 (p ∈ players w)) by done. simpl.
      split; [done|]. simpl. split; [done|]. split.
      * rewrite list_lookup_total_alter, decide_True by done. done.
      * unfold remove_player, bind, gets, modify. simpl.
        rewrite bool_decide_eq_true_2.
        2:{ apply elem_of_app. right. apply list_elem_of_here. }
        by rewrite remove_first_snoc.
Qed.

(** ** The small methods of a player *)

Lemma set_pobjs_same (w : State) (l : list Player) :
  l = pobjs w -> set_pobjs (fun _ => l) w = w.
Proof. intros ->. by destruct w. Qed.

(** X19 (Player.give_card, Player.toggle_flashlight,
    Player.start_spectating): the small methods of a player.  On a player
    without game data [give_card] and [toggle_flashlight] raise
    AttributeError and change nothing.  On a player with game data,
    [give_card] returns with the card at the end of the player's hand and
    the player's identity, status, role, claim and flags as they were, and
    toggling the flashlight twice gives the state back.  A player who
    starts spectating is not active any more, is a spectator if in the
    roster, and no other player's activity changes. *)
Theorem player_methods (p : addr) (c : addr) (w : State) :
  (gd_at w p = None ->
   give_card p c w = Raise AttributeError w /\
   toggle_flashlight p w = Raise AttributeError w) /\
  (is_Some (gd_at w p) ->
   (exists w1, give_card p c w = Ok tt w1 /\
      hand w1 p = hand w p ++ [c] /\
      persona (pobjs w1 !!! p) = persona (pobjs w !!! p)) /\
   bind (toggle_flashlight p) (fun _ => toggle_flashlight p) w = Ok tt w) /\
  (p < length (pobjs w) ->
   exists w2, start_spectating p w = Ok tt w2 /\
     (p ∉ active w2) /\ (p ∈ players w -> p ∈ spectators w2) /\
     forall q, q <> p -> q ∈ active w2 <-> q ∈ active w).
Proof.
  split; [|split].
  - intros Hgd. unfold gd_at in Hgd.
    unfold give_card, toggle_flashlight, upd_game_data, bind,
      the_game_data, bind, player_at, gets. by rewrite Hgd.
  - intros [gd Hgd]. pose proof (gd_at_valid _ _ _ Hgd) as Hlt. split.
    + rewrite (give_card_spec _ _ _ _ Hgd). eexists. split; [done|]. split.
      * rewrite (hand_upd _ _ _ _ _ Hgd), decide_True by done.
        unfold hand. by rewrite Hgd.
      * simpl. rewrite list_lookup_total_alter, decide_True by done.
        unfold gd_at in Hgd. unfold persona. simpl. by rewrite Hgd.
    + unfold toggle_flashlight, bind at 1.
      unfold upd_game_data at 1, bind, the_game_data, bind, player_at, gets,
        upd_player, modify. unfold gd_at in Hgd. rewrite Hgd.
      cbv beta iota. unfold ret. cbv beta iota.
      unfold upd_game_data, bind, the_game_data, bind, player_at, gets,
        upd_player, modify, ret. cbn [pobjs set_pobjs].
      rewrite list_lookup_total_alter, decide_True by done.
      cbn [game_data with_game_data]. cbv beta iota. f_equal.
      lazymatch goal with
      | |- set_pobjs (alter ?f p) (set_pobjs (alter ?g p) w) = w =>
          change (set_pobjs (fun _ => alter f p (alter g p (pobjs w))) w = w)
      end.
      apply set_pobjs_same.
      rewrite list_alter_alter_eq. apply alter_fixed. simpl.
      destruct (pobjs w !!! p) as [i s g]. simpl in *. subst g.
      unfold with_game_data. simpl. f_equal. f_equal.
      destruct gd as [ro cs cc cl fl]. unfold set_has_flashlight. simpl.
      by rewrite negb_involutive.
  - intros Hlt. eexists. unfold start_spectating, upd_player, modify.
    split; [done|].
    assert (forall q, status (alter (with_status Spectating) p (pobjs w) !!! q)
                      = if decide (q = p) then Spectating
                        else status (pobjs w !!! q)) as Hs.
    { intros q. rewrite list_lookup_total_alter.
      destruct (decide (q = p)) as [->|Hne].
      - by rewrite decide_True.
      - rewrite decide_False; [done|]. intros [? _]. by apply Hne. }
    unfold active, spectators, is_playing. simpl. split; [|split].
    + rewrite list_elem_of_filter, Hs, decide_True by done. by intros [? _].
    + intros Hin. rewrite list_elem_of_filter, Hs, decide_True by done. done.
    + intros q Hq. by rewrite !list_elem_of_filter, Hs, decide_False.
Qed.

(** ** Claims go round the table *)

Lemma stable_flags_hands_of ps : stable flags (hands_of ps).
Proof. intros v. induction ps as [|p ps IH]; cbn [hands_of]; inv_go. Qed.

Lemma stable_flags_scan_cards cs n k : stable flags (scan_cards cs n k).
Proof.
  intros v. revert n k. induction cs as [|c cs IH]; intros n k;
    cbn [scan_cards]; inv_go.
Qed.
#[local] Hint Resolve stable_flags_hands_of stable_flags_scan_cards : inv.

Lemma stable_flags_check_winner : stable flags check_winner.
Proof. intros v. unfold check_winner. inv_go. Qed.

Lemma may_claim_flags (w w' : State) (p : addr) :
  flags w' = flags w -> may_claim w' p <-> may_claim w p.
Proof.
  intros H. unfold may_claim, gd_at.
  by rewrite (map_eq_lookup_total (fun pl => can_claim <$> game_data pl)
                _ _ p H).
Qed.

Lemma may_claim_upd (p q : addr) (gd gd' : PlayerGameData) (w : State) :
  gd_at w p = Some gd ->
  may_claim (set_pobjs (alter (with_game_data gd') p) w) q
  <-> if decide (q = p) then can_claim gd' = true else may_claim w q.
Proof.
  intros Hgd. unfold may_claim. rewrite (gd_at_upd _ _ gd) by done.
  case_decide; [|done]. simpl. split; congruence.
Qed.

Lemma all_may_claim (l : list addr) (w : State) :
  wp (for_each l (fun p => upd_game_data p (set_can_claim true))) w
     (fun _ w' => (forall p, p ∈ l -> may_claim w' p) /\
                  (forall p, may_claim w p -> may_claim w' p))
     (fun _ => True) True.
Proof.
  revert w. induction l as [|q l IH]; intros w; cbn [for_each].
  { apply wp_ret. split; [by intros p ?%elem_of_nil|done]. }
  apply wp_bind. unfold upd_game_data, the_game_data, player_at, upd_player.
  apply wp_bind, wp_bind, wp_gets.
  destruct (game_data (pobjs w !!! q)) as [gd|] eqn:Hgd; [|done].
  apply wp_ret, wp_modify.
  eapply wp_mono; [apply IH|..]; try done.
  intros _ w' [Hin Hkeep]. cbv beta. split.
  - intros p [->|Hp]%elem_of_cons; [|by apply Hin].
    apply Hkeep. apply (may_claim_upd _ _ gd); [done|].
    by rewrite decide_True.
  - intros p Hp. apply Hkeep. apply (may_claim_upd _ _ gd); [done|].
    by case_decide.
Qed.

Lemma new_turn_in_claims (r : Random) (w : State) :
  phase w = Some Claims ->
  wp (new_turn r) w
     (fun _ w' =>
        (flags w' = flags w /\ phase w' = Some Claims) \/
        (phase w' = Some Investigation /\
         forall a, a ∈ active w -> may_claim w' a))
     (fun _ => True) True.
Proof.
  intros Hph. unfold new_turn. apply wp_bind.
  eapply wp_mono;
    [apply (wp_conj _ _ _ _ _ _ _ _
              (wp_conj _ _ _ _ _ _ _ _
                 (stable_tempo_check_winner (tempo w) w eq_refl)
                 (stable_board_check_winner (board w) w eq_refl))
              (stable_flags_check_winner (flags w) w eq_refl))|..];
    try done.
  intros _ w1 [[Ht1 Hb1] Hf1]. cbv beta.
  destruct (board_inv _ _ Hb1) as (Hs1 & _ & _).
  unfold tempo in Ht1. injection Ht1 as Hph1 Htu1.
  apply wp_bind, wp_attr; [|done]. intros t Ht.
  apply wp_bind, wp_modify, wp_bind, wp_attr; [|done]. intros t' _.
  unfold count_active_players. apply wp_bind, wp_gets.
  destruct (_ <? _).
  2:{ apply wp_ret. left. split; [exact Hf1|].
      change (phase w1 = Some Claims). congruence. }
  apply wp_bind, wp_attr; [|done]. intros ph Hph'.
  change (phase (set_turn (t + 1) w1)) with (phase w1) in Hph'.
  rewrite Hph1, Hph in Hph'. injection Hph' as <-. simpl.
  unfold new_phase. do 2 (apply wp_bind, wp_modify).
  unfold get_active_players. apply wp_bind, wp_gets.
  set (w2 := set_turn 1 _).
  change (active w2) with (active w1). rewrite (active_seats _ _ Hs1).
  assert (stable tempo (for_each (active w)
            (fun p => upd_game_data p (set_can_claim true)))) as Hst
    by (intros v; inv_go).
  eapply wp_mono;
    [apply (wp_conj _ _ _ _ _ _ _ _
              (all_may_claim (active w) w2)
              (Hst (tempo w2) w2 eq_refl))|..]; try done.
  intros _ w3 [[Hin _] Ht3]. cbv beta. right. split; [|done].
  unfold tempo in Ht3. by injection Ht3 as -> _.
Qed.

Lemma get_next_player_ok (p q : addr) (w w' : State) :
  get_next_player p w = Ok q w' -> w' = w /\ q ∈ active w.
Proof.
  unfold get_next_player, bind, gets.
  destruct (index_of p (players w)) as [i|]; [|done]. unfold id.
  destruct (filter _ _) as [|a l] eqn:Hf; [done|].
  intros [= <- <-]. split; [done|].
  assert (a ∈ filter (is_playing w)
                (drop (S i) (players w) ++ take (S i) (players w))) as Hin
    by (rewrite Hf; apply list_elem_of_here).
  apply list_elem_of_filter in Hin as [Hpl Hin].
  apply list_elem_of_filter. split; [done|].
  rewrite <- (take_drop (S i) (players w)). rewrite elem_of_app.
  apply elem_of_app in Hin as [Hin|Hin]; [by right|by left].
Qed.

Lemma get_next_player_seats (p : addr) (w w1 : State) :
  seats w1 = seats w ->
  forall q, get_next_player p w1 = Ok q w1 -> get_next_player p w = Ok q w.
Proof.
  intros Hs q. unfold get_next_player, bind, gets.
  rewrite (seats_players _ _ Hs).
  destruct (index_of p (players w)) as [i|]; [|done]. unfold id.
  assert (filter (is_playing w1)
            (drop (S i) (players w) ++ take (S i) (players w))
          = filter (is_playing w)
              (drop (S i) (players w) ++ take (S i) (players w))) as ->.
  { apply list_filter_iff. intros a. unfold is_playing.
    by rewrite (seats_status _ _ a Hs). }
  destruct (filter _ _); [done|]. by intros [= ->].
Qed.

(** X20 (Game.set_claim, Game.get_next_player, Game.new_turn,
    Game.new_phase): claims go round the table.  When [set_claim] returns
    in the Claims phase, the player after the claimer in the cyclic order
    of the active players may claim.  While the phase is still Claims the
    claimer may not claim again, unless that next player is the claimer;
    and when the claim was the last of the phase, so that the phase is
    Investigation, every active player may claim again. *)
Theorem claims_go_round (p b e c : nat) (r : Random) (w w' : State) :
  phase w = Some Claims ->
  set_claim card_title p b e c r w = Ok tt w' ->
  exists q, get_next_player p w = Ok q w /\ q ∈ active w /\
    may_claim w' q /\
    (phase w' = Some Claims \/ phase w' = Some Investigation) /\
    (phase w' = Some Claims -> q <> p -> ~ may_claim w' p) /\
    (phase w' = Some Investigation ->
     forall a, a ∈ active w -> may_claim w' a).
Proof.
  intros Hph. unfold set_claim.
  intros ([] & w1 & H1 & H)%bind_ok.
  assert (exists gd, gd_at w p = Some gd /\ can_claim gd = true) as
    (gd & Hgd & Hcc).
  { revert H1. unfold player_set_claim.
    intros (gd & w0 & Hgd & H1)%bind_ok.
    apply the_game_data_ok in Hgd as [-> Hgd]. exists gd. split; [done|].
    by destruct (can_claim gd). }
  rewrite (player_set_claim_ok _ _ _ gd) in H1 by done.
  injection H1 as <-. set (w1 := set_pobjs _ w) in *.
  destruct (views_upd_game_data p
              (set_can_claim false
                 (set_the_claim
                    (replicate b (Card_init card_title "Blank") ++
                     replicate e (Card_init card_title "Elder Sign") ++
                     replicate c (Card_init card_title "Cthulhu")) gd))
              w gd Hgd) as (Hs1 & _ & _).
  fold w1 in Hs1.
  apply bind_ok in H as (ph & w0 & Hph1 & H).
  unfold attr in Hph1. change (phase w1) with (phase w) in Hph1.
  rewrite Hph in Hph1. injection Hph1 as <- <-.
  rewrite bool_decide_eq_true_2 in H by done.
  apply bind_ok in H as (q & w0 & Hq & H).
  pose proof (get_next_player_ok _ _ _ _ Hq) as [-> Hqa].
  rewrite (active_seats _ _ Hs1) in Hqa.
  apply bind_ok in H as ([] & w2 & H2 & H).
  apply upd_game_data_ok in H2 as (gdq & Hgq & ->).
  set (w2 := set_pobjs _ w1) in *.
  destruct (views_upd_game_data q (set_can_claim true gdq) w1 gdq Hgq)
    as (Hs2 & _ & _).
  fold w2 in Hs2.
  exists q. split; [by apply (get_next_player_seats p w w1)|].
  split; [done|].
  assert (may_claim w2 q) as Hq2.
  { unfold w2. apply (may_claim_upd _ _ gdq); [done|].
    by rewrite decide_True. }
  assert (q <> p -> ~ may_claim w2 p) as Hp2.
  { intros Hne Hm. unfold w2 in Hm.
    apply (may_claim_upd _ _ gdq) in Hm; [|done].
    rewrite decide_False in Hm by done. unfold w1 in Hm.
    apply (may_claim_upd _ _ gd) in Hm; [|done].
    by rewrite decide_True in Hm. }
  pose proof (new_turn_in_claims r w2 Hph) as Hnt.
  unfold wp in Hnt. rewrite H in Hnt.
  assert (active w2 = active w) as Ha2.
  { by rewrite (active_seats _ _ Hs2), (active_seats _ _ Hs1). }
  destruct Hnt as [[Hf Hph']|[Hph' Hall]].
  - split; [by apply (may_claim_flags _ _ _ Hf)|]. split; [by left|].
    split.
    + intros _ Hne Hm. apply (Hp2 Hne). by apply (may_claim_flags _ _ _ Hf).
    + intros Hi. congruence.
  - rewrite Ha2 in Hall. split; [by apply Hall|]. split; [by right|].
    split; [intros Hc'; congruence|]. by intros _.
Qed.

(** ** Between the calls the deck is empty *)

Lemma Stowed_spread (A X : list addr) (w w' : State) :
  spread w' = spread w -> Stowed A X w -> Stowed A X w'.
Proof.
  intros Hs [HC Hd]. split; [by apply (Cards_spread _ _ w)|].
  destruct (spread_inv _ _ Hs) as [_ Hl].
  destruct (layout_piles _ _ Hl) as [-> _]. done.
Qed.

#[local] Hint Extern 4 (keeps (Stowed _ _) _) =>
  eapply (stable_keeps spread);
    [solve [auto with inv] | intros ? ?; apply Stowed_spread] : inv.

Lemma recollect_no_raise (p : addr) (w : State) :
  in_play w -> p ∈ active w ->
  wp (recollect p) w (fun _ _ => True) (fun _ => False) False.
Proof.
  intros (Hnd & Hgd & [d Hd] & [ds Hds]) Hp. unfold recollect.
  destruct (Hgd p Hp) as [gd Hp_gd].
  apply wp_bind. eapply wp_ok.
  { unfold the_game_data, bind, player_at, gets. unfold gd_at in Hp_gd.
    by rewrite Hp_gd. }
  apply wp_bind. eapply wp_ok; [by apply (return_cards_spec _ d ds)|].
  set (w1 := set_discard _ _).
  apply wp_bind. eapply wp_ok.
  { unfold upd_game_data, the_game_data, bind, player_at, gets, bind.
    change (pobjs w1) with (pobjs w). unfold gd_at in Hp_gd. rewrite Hp_gd.
    unfold upd_player, modify. reflexivity. }
  set (w2 := set_pobjs _ w1).
  assert (gd_at w2 p = Some (set_cards [] gd)) as Hgd2.
  { unfold w2. rewrite (gd_at_upd _ _ gd) by done. by rewrite decide_True. }
  apply wp_bind. eapply wp_ok.
  { unfold the_game_data, bind, player_at, gets. unfold gd_at in Hgd2.
    by rewrite Hgd2. }
  unfold upd_game_data, the_game_data, player_at, upd_player.
  unfold gd_at in Hgd2.
  destruct (has_flashlight _); apply wp_bind, wp_bind, wp_gets;
    rewrite Hgd2; by apply wp_ret, wp_modify.
Qed.

Lemma returns_recollect_all (A X l : list addr) (w : State) :
  Cards A X w -> (forall p, p ∈ l -> p ∈ A) ->
  returns (for_each l recollect) w (Cards A X).
Proof.
  revert w. induction l as [|p l IH]; intros w Hw Hl; cbn [for_each].
  { by apply wp_ret. }
  unfold returns. apply wp_bind.
  assert (p ∈ A) as Hp by apply Hl, list_elem_of_here.
  eapply wp_mono;
    [apply (wp_conj _ _ _ _ _ _ _ _
              (keeps_Cards_recollect A X p Hp w Hw)
              (recollect_no_raise p w ltac:(by destruct Hw as (_ & ? & _))
                 ltac:(by destruct Hw as (-> & _))))|..].
  - intros ? w1 [Hw1 _]. cbv beta. apply IH; [done|].
    intros q Hq. apply Hl. by apply list_elem_of_further.
  - by intros w1 [_ ?].
  - by intros [_ ?].
Qed.

Lemma deal_cards_deck_empty (r : Random) (w : State) :
  fair r -> in_play w -> post (deal_cards r) w (fun w' => deck w' = Some []).
Proof.
  intros Hr (Hnd & Hgd & [d Hd] & Hds). unfold post.
  destruct (decide (active w = [])) as [Ha|Ha].
  - destruct (decide (d = [])) as [->|Hne].
    + destruct Hr as [_ Hr]. pose proof (Hr []) as Hnil.
      apply Permutation_nil_r in Hnil.
      unfold wp, deal_cards, bind at 1, attr. rewrite Hd.
      unfold bind at 1, modify. unfold bind at 1, attr.
      cbn [deck set_deck]. rewrite Hnil. cbn [length deal_loop].
      unfold bind at 1, attr. cbn [deck set_deck]. by simpl.
    + unfold wp. by rewrite (deal_cards_nobody r w d).
  - destruct Hr as [_ Hr].
    assert (0 < length (active w)) as Hn.
    { destruct (active w); [done|simpl; lia]. }
    unfold wp, deal_cards, bind at 1, attr. rewrite Hd.
    unfold bind at 1, modify. unfold bind at 1, attr.
    set (w1 := set_deck _ w). cbn [deck w1 set_deck].
    assert (length (shuffle_cards r d) = length d) as Hsl by (by rewrite Hr).
    destruct (deal_loop_general (length d / length (active w))
                (length d `mod` length (active w))
                (S (length (shuffle_cards r d))) w1 (shuffle_cards r d))
      as (w' & Hloop & Hu & Hd' & _); try done.
    + rewrite Hsl.
      assert (length d / length (active w) <= length d); [|lia].
      apply Nat.Div0.div_le_upper_bound. nia.
    + rewrite Hsl. change (active w1) with (active w).
      rewrite (Nat.div_mod_eq (length d) (length (active w))) at 1. lia.
    + change (active w1) with (active w).
      by apply Nat.mod_upper_bound, Nat.neq_0_lt_0.
    + rewrite Hloop. by case_decide.
Qed.

Lemma Stowed_new_round (A X : list addr) (r : Random) :
  fair r -> keeps (Stowed A X) (new_round r).
Proof.
  intros Hr w [Hw Hd]. unfold post, new_round.
  do 2 (apply wp_bind, wp_modify).
  unfold get_active_players. apply wp_bind, wp_gets.
  set (w0 := set_turn _ _).
  assert (Cards A X w0) as Hw0 by (by eapply Cards_board; [|apply Hw]).
  change (active w0) with (active w).
  apply wp_bind.
  eapply wp_mono;
    [apply (returns_recollect_all A X (active w) w0 Hw0)|..]; try done.
  { intros p Hp. by destruct Hw as (<- & _). }
  intros ? w1 Hw1. cbv beta.
  eapply wp_mono;
    [apply (wp_conj _ _ _ _ _ _ _ _
              (keeps_Cards_deal_cards A X r Hr w1 Hw1)
              (deal_cards_deck_empty r w1 Hr
                 ltac:(by destruct Hw1 as (_ & ? & _))))|..]; try done.
Qed.
#[local] Hint Resolve Stowed_new_round : inv.

Lemma Stowed_new_turn (A X : list addr) (r : Random) :
  fair r -> keeps (Stowed A X) (new_turn r).
Proof. intros Hr. unfold new_turn. inv_go. Qed.
#[local] Hint Resolve Stowed_new_turn : inv.

Lemma Stowed_set_claim (A X : list addr) p b e c (r : Random) :
  fair r -> keeps (Stowed A X) (set_claim card_title p b e c r).
Proof. intros Hr. unfold set_claim. inv_go. Qed.

Lemma Stowed_investigate (A X : list addr) u t pos (r : Random) :
  fair r -> keeps (Stowed A X) (investigate u t pos r).
Proof. intros Hr. unfold investigate. inv_go. Qed.

Lemma Tidy_post {A} (m : M A) (w : State) :
  Sound w -> (started w -> deck w = Some []) ->
  stable seats m ->
  (forall X, keeps (Stowed (active w) X) m) ->
  post m w (fun w' => started w' -> deck w' = Some []).
Proof.
  intros Hw Ht Hs HC. unfold post.
  destruct (decide (started w)) as [Hst|Hst].
  - assert (Stowed (active w) (seq 0 (length (cobjs w))) w) as HCw.
    { destruct Hw as (_ & _ & Hrc). destruct Hst as [n Hn]. rewrite Hn in Hrc.
      split; [by destruct Hrc as (_ & ? & _)|by apply Ht; exists n]. }
    eapply wp_mono; [apply (HC _ w HCw)|..]; try done.
    + by intros ? w' [_ ?] _.
    + by intros w' [_ ?] _.
  - eapply wp_mono; [apply (Hs _ w eq_refl)|..]; try done.
    + intros ? w' H1 Hst'. destruct Hst. unfold started in *.
      unfold seats in H1. by replace (round_counter w) with (round_counter w')
        by congruence.
    + intros w' H1 Hst'. destruct Hst. unfold started in *.
      unfold seats in H1. by replace (round_counter w) with (round_counter w')
        by congruence.
Qed.

Lemma reachable_Tidy (w : State) :
  reachable_by card_title role_info stays w -> started w -> deck w = Some [].
Proof.
  induction 1 as [n|w op w' Hw IH [Hp Hr] Hstay Hcall].
  { by intros [? [=]]. }
  pose proof (reachable_Sound w Hw) as HS.
  apply (post_after (call card_title role_info op) w w'
           (fun w' => started w' -> deck w' = Some [])); [|exact Hcall].
  destruct op; simpl in *.
  - unfold post, add_player, upd_player. wp_steps; try done; exact IH.
  - unfold post, remove_player. wp_steps; try done; exact IH.
  - unfold post.
    destruct (decide (game_status w = Unstarted)) as [Hu|Hu].
    2:{ unfold start_game. apply wp_bind, wp_gets.
        by rewrite bool_decide_true. }
    pose proof HS as (Hnd & Hst & Hrc).
    assert (round_counter w = None) as Hn.
    { destruct (round_counter w); [by destruct Hrc|done]. }
    eapply wp_mono; [apply (start_game_wp r w)|..]; try done.
    + by apply list.NoDup_filter.
    + by apply Hr.
    + intros ? w1 (_ & _ & _ & _ & _ & _ & _ & _ & Hd & _). done.
    + intros w1 [[Hw1 _] _] [k Hk]. rewrite Hw1 in Hk. simpl in Hk.
      by rewrite Hn in Hk.
  - apply Tidy_post; try done.
    + apply stable_table_seats, stable_table_set_claim.
    + intros X. apply Stowed_set_claim. by apply Hr.
  - apply Tidy_post; try done.
    + apply stable_seats_investigate.
    + intros X. apply Stowed_investigate. by apply Hr.
  - unfold post, end_game. wp_step. exact IH.
Qed.

(** X21 (Game.new_round, Game.deal_cards, Game.start_game): in every
    state reached after [start_game] by calls that remove no active
    player, the deck is empty: between two calls every card made lies in
    the hand of an active player or on the discard pile, each card once,
    so the cards [check_winner] scans are all the cards of the game. *)
Theorem deck_is_dealt_out (w : State) :
  reachable_by card_title role_info stays w -> started w ->
  deck w = Some [] /\
  chained w ≡ₚ seq 0 (length (cobjs w)).
Proof.
  intros Hw Hst. pose proof (reachable_Tidy w Hw Hst) as Hd.
  split; [done|].
  destruct (reachable_Sound w Hw) as (_ & _ & Hrc).
  destruct Hst as [n Hn]. rewrite Hn in Hrc.
  destruct Hrc as (_ & (_ & _ & Hp) & _).
  rewrite <- Hp. unfold pool, chained. rewrite Hd. simpl.
  apply Permutation_app_comm.
Qed.

Lemma existsb_Permutation (f : addr -> bool) (l l' : list addr) :
  l ≡ₚ l' -> existsb f l = existsb f l'.
Proof.
  induction 1 as [|x l l' _ IH|x y l|l l' l'' _ IH1 _ IH2]; simpl;
    try congruence.
  by destruct (f x), (f y).
Qed.

Lemma count_if_Permutation (f : addr -> bool) (l l' : list addr) :
  l ≡ₚ l' -> count_if f l = count_if f l'.
Proof. intros H. unfold count_if. by rewrite H. Qed.

Lemma count_if_mono (f g : addr -> bool) (l : list addr) :
  (forall c, c ∈ l -> f c = true -> g c = true) ->
  count_if f l <= count_if g l.
Proof.
  induction l as [|c l IH]; intros H; [done|]. rewrite !count_if_cons.
  assert (count_if f l <= count_if g l) as Hle.
  { apply IH. intros d Hd. apply H. by right. }
  destruct (f c) eqn:Ef.
  - rewrite (H c) by (done || by left). lia.
  - destruct (g c); lia.
Qed.

Lemma existsb_mono (f g : addr -> bool) (l : list addr) :
  (forall c, c ∈ l -> f c = true -> g c = true) ->
  existsb f l = true -> existsb g l = true.
Proof.
  intros H (c & Hin & Hf)%existsb_exists. apply existsb_exists.
  exists c. split; [done|]. apply H; [|done]. by apply list_elem_of_In.
Qed.

(** More cards face-up on the same table: a verdict does not go away. *)
Lemma decided_mono (w w' : State) :
  count_active w' = count_active w -> chained w' = chained w ->
  (forall c, c ∈ chained w ->
     title_at w' c = title_at w c /\
     (face_up w c = true -> face_up w' c = true)) ->
  decided w' = None -> decided w = None.
Proof.
  intros Hn Hc Hup. unfold decided, signs_revealed, cthulhu_revealed,
    cards_revealed. rewrite Hn, Hc.
  assert (count_if (up_sign w) (chained w)
          <= count_if (up_sign w') (chained w)) as Hs.
  { apply count_if_mono. intros c Hin. destruct (Hup c Hin) as [Ht Hf].
    unfold up_sign. rewrite Ht. intros [H1 H2]%andb_true_iff.
    by rewrite (Hf H1), H2. }
  assert (count_if (face_up w) (chained w)
          <= count_if (face_up w') (chained w)) as Hf.
  { apply count_if_mono. intros c Hin. by destruct (Hup c Hin) as [_ ?]. }
  assert (existsb (up_cthulhu w) (chained w) = true ->
          existsb (up_cthulhu w') (chained w) = true) as Hx.
  { apply existsb_mono. intros c Hin. destruct (Hup c Hin) as [Ht Hu].
    unfold up_cthulhu. rewrite Ht. intros [H1 H2]%andb_true_iff.
    by rewrite (Hu H1), H2. }
  destruct (count_active w <=? count_if (up_sign w') (chained w)) eqn:E1;
    [done|].
  apply Nat.leb_gt in E1.
  destruct (existsb (up_cthulhu w') (chained w)) eqn:E2; [done|].
  destruct (count_active w * 4 <=? count_if (face_up w') (chained w)) eqn:E3;
    [done|].
  apply Nat.leb_gt in E3. intros _.
  rewrite (proj2 (Nat.leb_gt _ _)) by lia.
  destruct (existsb (up_cthulhu w) (chained w)); [by discriminate Hx|].
  by rewrite (proj2 (Nat.leb_gt _ _)) by lia.
Qed.

(** The verdict looks at the number of active players, the chained cards
    as a collection, and the card objects. *)
Lemma decided_perm (w w' : State) :
  count_active w' = count_active w -> chained w' ≡ₚ chained w ->
  cobjs w' = cobjs w -> decided w' = decided w.
Proof.
  intros Hn Hc Ho. unfold decided, signs_revealed, cthulhu_revealed,
    cards_revealed. rewrite Hn.
  rewrite (count_if_Permutation _ _ _ Hc), (count_if_Permutation _ _ _ Hc),
    (existsb_Permutation _ _ _ Hc).
  unfold up_sign, up_cthulhu, face_up, title_at. by rewrite Ho.
Qed.

Lemma Stowed_chained (A X : list addr) (w : State) :
  Stowed A X w -> chained w ≡ₚ X.
Proof.
  intros [(_ & _ & Hp) Hd]. rewrite <- Hp. unfold pool, chained.
  rewrite Hd. simpl. apply Permutation_app_comm.
Qed.

Lemma judged_same (A X : list addr) (w w' : State) :
  Stowed A X w -> winner w = decided w ->
  Stowed A X w' -> cobjs w' = cobjs w -> winner w' = winner w ->
  seats w' = seats w ->
  winner w' = decided w'.
Proof.
  intros HS HJ HS' Hc Hw Hs. rewrite Hw, HJ. symmetry.
  apply decided_perm; [|by rewrite !Stowed_chained|done].
  by rewrite !count_active_length, (active_seats _ _ Hs).
Qed.

(** A method that keeps the cards where they are, up to a redeal, and
    writes neither a card object nor the winner keeps the winner in line
    with the table. *)
Lemma judged_keeps {B} (m : M B) (A X : list addr) (w : State) :
  Stowed A X w -> winner w = decided w ->
  keeps (Stowed A X) m -> stable cobjs m -> stable winner m ->
  stable seats m ->
  post m w (fun w' => Stowed A X w' /\ winner w' = decided w' /\
                      cobjs w' = cobjs w).
Proof.
  intros HS HJ H1 H2 H3 H4. unfold post.
  eapply wp_mono;
    [apply (wp_conj _ _ _ _ _ _ _ _
              (wp_conj _ _ _ _ _ _ _ _ (H1 w HS) (H2 _ w eq_refl))
              (wp_conj _ _ _ _ _ _ _ _ (H3 _ w eq_refl) (H4 _ w eq_refl)))
    |..]; try done.
  - intros ? w' [[Ha Hb] [Hc Hd]]. split; [done|]. split; [|done].
    by apply (judged_same A X w).
  - intros w' [[Ha Hb] [Hc Hd]]. split; [done|]. split; [|done].
    by apply (judged_same A X w).
Qed.

Lemma judged_new_turn (A X : list addr) (r : Random) (w : State) :
  fair r -> Stowed A X w -> (decided w = None -> winner w = None) ->
  post (new_turn r) w (fun w' => winner w' = decided w').
Proof.
  intros Hr HS Hn. unfold post, new_turn. apply wp_bind.
  pose proof HS as [(Ha & (Hnd & Hgd & Hdk & Hds) & Hp) Hd].
  eapply wp_ok; [by apply check_winner_spec|]. cbv beta.
  set (w2 := match decided w with Some ro => set_winner ro w | None => w end).
  assert (Stowed A X w2 /\ winner w2 = decided w2) as [HS2 HJ2].
  { unfold w2. destruct (decided w) as [ro|] eqn:E.
    - split; [by apply (Stowed_spread _ _ w)|]. exact (eq_sym E).
    - split; [done|]. rewrite E. by apply Hn. }
  eapply wp_mono; [apply (judged_keeps _ A X w2 HS2 HJ2)|..].
  - inv_go.
  - intros v. inv_go.
  - intros v. inv_go.
  - intros v. inv_go.
  - by intros ? ? (_ & ? & _).
  - by intros ? (_ & ? & _).
  - done.
Qed.

Lemma stable_cobjs_player_set_claim p cl :
  stable cobjs (player_set_claim p cl).
Proof. intros v. unfold player_set_claim. inv_go. Qed.
#[local] Hint Resolve stable_cobjs_player_set_claim : inv.

(** One step of a call that keeps the winner in line with the table. *)
Ltac judged_call A X HS HJ :=
  eapply wp_mono;
    [apply (judged_keeps _ A X _ HS HJ);
     [solve [auto with inv] | solve [auto with inv] | solve [auto with inv]
     | solve [auto with inv]]
    | clear HS HJ; intros ? ? (HS & HJ & _); cbv beta
    | by intros ? (_ & ? & _)
    | done].

Lemma judged_set_claim (A X : list addr) p b e c (r : Random) (w : State) :
  fair r -> Stowed A X w -> winner w = decided w ->
  post (set_claim card_title p b e c r) w (fun w' => winner w' = decided w').
Proof.
  intros Hr HS HJ. unfold post, set_claim. cbv zeta.
  apply wp_bind. judged_call A X HS HJ.
  apply wp_bind, wp_attr; [intros ph Hph|done].
  case_bool_decide; [|by apply wp_ret].
  apply wp_bind. judged_call A X HS HJ.
  apply wp_bind. judged_call A X HS HJ.
  apply (judged_new_turn A X); [done|done|]. intros E. by rewrite HJ.
Qed.

Lemma reveal_card_ok (t : addr) (pos : option Z) (w w' : State) :
  reveal_card t pos w = Ok tt w' ->
  is_Some (gd_at w t) /\
  (w' = w \/ exists c, w' = set_cobjs (alter card_flip_up c) w).
Proof.
  intros H. destruct (truthy pos) eqn:Ht.
  - split.
    + unfold reveal_card in H. rewrite Ht in H.
      apply bind_ok in H as (gd & w1 & Hgd & _).
      apply the_game_data_ok in Hgd as [_ Hgd]. by exists gd.
    + left.
      apply (post_after (reveal_card t pos) w w' (fun w' => w' = w)).
      * by apply reveal_card_truthy_same.
      * by rewrite H.
  - rewrite reveal_card_falsy in H by done.
    destruct (gd_at w t) as [gd|]; [|done]. split; [by exists gd|].
    destruct (first_face_down w (cards gd)) as [c|]; [|done].
    right. exists c. by injection H as <-.
Qed.

Lemma judged_investigate (A X : list addr) u t pos (r : Random) (w : State) :
  fair r -> Stowed A X w -> (forall c, c ∈ X -> c < length (cobjs w)) ->
  winner w = decided w ->
  post (investigate u t pos r) w (fun w' => winner w' = decided w').
Proof.
  intros Hr HS HX HJ. unfold post, investigate.
  apply wp_bind. unfold the_game_data. apply wp_bind. unfold player_at.
  apply wp_gets. destruct (game_data _) as [gd|]; [|by apply wp_raise].
  apply wp_ret. destruct (has_flashlight gd); [|by apply wp_raise].
  cbn [negb]. apply wp_bind.
  eapply wp_mono;
    [apply (judged_keeps _ A X _ HS HJ); solve [auto with inv]
    | intros ? w1 (HS1 & HJ1 & HC1); cbv beta
    | by intros ? (_ & ? & _)
    | done].
  apply wp_bind. unfold wp at 1.
  destruct (reveal_card t pos w1) as [[] w2|e w2|] eqn:Hrev; [| |done].
  2:{ by apply reveal_card_raise in Hrev as [-> _]. }
  assert (Stowed A X w2) as HS2.
  { apply (post_after (reveal_card t pos) w1 w2 (Stowed A X)).
    - assert (keeps (Stowed A X) (reveal_card t pos)) as Hk
        by auto with inv.
      by apply Hk.
    - by rewrite Hrev. }
  apply reveal_card_ok in Hrev as [[gdt Hgdt] Hw2].
  assert (winner w2 = winner w1 /\ gd_at w2 t = Some gdt /\
          (decided w2 = None -> decided w1 = None)) as (Hwin & Hgdt2 & Hdec).
  { destruct Hw2 as [->|[c ->]]; [done|]. split; [done|]. split; [done|].
    apply decided_mono; [done|done|]. intros d Hd.
    apply (ages_flip_up w1 w1 c (ages_refl w1)).
    rewrite HC1. apply HX. by rewrite <- (Stowed_chained A X w1 HS1). }
  set (w3 := set_pobjs
               (alter (with_game_data (set_has_flashlight true gdt)) t) w2).
  apply wp_bind. apply (wp_ok _ tt w2 w3).
  { unfold upd_game_data, the_game_data, bind, player_at, gets, bind.
    unfold gd_at in Hgdt2. by rewrite Hgdt2. }
  assert (seats w3 = seats w2 /\ layout w3 = layout w2) as [Hs3 Hl3].
  { unfold gd_at in Hgdt2.
    by edestruct (views_upd_game_data t (set_has_flashlight true gdt) w2)
      as (? & _ & ?); eauto. }
  assert (Stowed A X w3) as HS3.
  { apply (Stowed_spread _ _ w2); [|done]. unfold spread. congruence. }
  apply (judged_new_turn A X); [done|done|].
  assert (decided w3 = decided w2) as ->.
  { apply decided_perm; [|by rewrite !Stowed_chained|done].
    by rewrite !count_active_length, (active_seats _ _ Hs3). }
  intros E. change (winner w3) with (winner w2).
  rewrite Hwin, HJ1. by apply Hdec.
Qed.

(** ** Before the start *)

Lemma stable_unset_upd_player p f : stable unset (upd_player p f).
Proof. unfold upd_player. auto with inv. Qed.
#[local] Hint Resolve stable_unset_upd_player : inv.

Lemma stable_unset_upd_game_data p f : stable unset (upd_game_data p f).
Proof. intros v. unfold upd_game_data. inv_go. Qed.
#[local] Hint Resolve stable_unset_upd_game_data : inv.

Lemma stable_unset_player_set_claim p cl :
  stable unset (player_set_claim p cl).
Proof. intros v. unfold player_set_claim. inv_go. Qed.

Lemma stable_unset_flip_first cs : stable unset (flip_first cs).
Proof.
  intros v. induction cs as [|c cs IH]; cbn [flip_first]; unfold flip_up;
    inv_go.
Qed.
#[local] Hint Resolve stable_unset_flip_first : inv.

Lemma stable_unset_reveal_card p pos : stable unset (reveal_card p pos).
Proof. intros v. unfold reveal_card, flip_up. inv_go. Qed.

Lemma stable_unset_hands_of ps : stable unset (hands_of ps).
Proof. intros v. induction ps as [|p ps IH]; cbn [hands_of]; inv_go. Qed.

#[local] Hint Resolve stable_unset_player_set_claim stable_unset_reveal_card
  stable_unset_hands_of : inv.

#[local] Hint Extern 4 (keeps Unset _) =>
  apply (stable_apply unset); solve [auto with inv] : inv.

Lemma Unset_set_claim p b e c r : keeps Unset (set_claim card_title p b e c r).
Proof.
  intros w Hw. unfold post, set_claim. cbv zeta. apply wp_bind. inv_call.
  apply wp_bind, wp_attr; [|done]. intros ph Hph.
  match goal with H : Unset _ |- _ => unfold Unset, unset in H end.
  congruence.
Qed.

(** Without a discard pile [check_winner] raises before it looks at a
    card. *)
Lemma Unset_check_winner (w : State) :
  Unset w -> wp check_winner w (fun _ _ => False) Unset True.
Proof.
  intros Hw. unfold check_winner, get_active_players.
  apply wp_bind, wp_gets, wp_bind. inv_call.
  apply wp_bind, wp_attr; [|done]. intros ds Hds.
  match goal with H : Unset _ |- _ => unfold Unset, unset in H end.
  congruence.
Qed.

Lemma Unset_investigate u t pos r : keeps Unset (investigate u t pos r).
Proof.
  intros w Hw. unfold post, investigate.
  apply wp_bind. unfold the_game_data. apply wp_bind. unfold player_at.
  apply wp_gets. destruct (game_data _) as [gd|]; [|by apply wp_raise].
  apply wp_ret. destruct (has_flashlight gd); [|by apply wp_raise].
  cbn [negb]. apply wp_bind. inv_call.
  apply wp_bind. inv_call. apply wp_bind. inv_call.
  unfold new_turn. apply wp_bind.
  eapply wp_mono; [by apply Unset_check_winner|..]; done.
Qed.

Lemma reachable_Unset (w : State) :
  reachable_by card_title role_info stays w ->
  round_counter w = None -> Unset w.
Proof.
  induction 1 as [n|w op w' Hw IH [Hp Hr] Hstay Hcall]; [done|].
  intros Hn'.
  pose proof (post_after _ _ _ _ (call_clock op w) Hcall) as Hclock.
  assert (round_counter w = None) as Hn.
  { destruct Hclock as [Hc|[[_ Hc]|(r & _ & _ & Hc)]];
      unfold clock in Hc; congruence. }
  specialize (IH Hn). revert Hn'.
  apply (post_after (call card_title role_info op) w w'
           (fun w' => round_counter w' = None -> Unset w')); [|exact Hcall].
  destruct op as [p pl|p|r|p b e c r|u t pos r|]; simpl in *.
  - unfold post, add_player, upd_player. wp_steps; try done; by intros _.
  - unfold post, remove_player. wp_steps; try done; by intros _.
  - unfold post.
    destruct (decide (game_status w = Unstarted)) as [Hu|Hu].
    2:{ unfold start_game. apply wp_bind, wp_gets.
        rewrite bool_decide_true by done. apply wp_raise. by intros _. }
    pose proof (reachable_Sound w Hw) as (Hnd & _ & _).
    eapply wp_mono; [apply (start_game_wp r w)|..]; try done.
    + by apply list.NoDup_filter.
    + by apply Hr.
    + intros ? w1 (_ & _ & Hrc & _) Hrc'. congruence.
    + intros w1 [[Hw1 _] _] _. by rewrite Hw1.
  - eapply wp_mono; [by apply (Unset_set_claim p b e c r w)|..];
      try done; by intros.
  - eapply wp_mono; [by apply (Unset_investigate u t pos r w)|..];
      try done; by intros.
  - unfold post, end_game. wp_step. by intros _.
Qed.

Lemma reachable_Stowed (w : State) :
  reachable_by card_title role_info stays w -> started w ->
  Stowed (active w) (seq 0 (length (cobjs w))) w.
Proof.
  intros Hw Hst. split; [|by apply reachable_Tidy].
  destruct (reachable_Sound w Hw) as (_ & _ & Hrc).
  destruct Hst as [n Hn]. rewrite Hn in Hrc. by destruct Hrc as (_ & ? & _).
Qed.

Lemma count_if_none (f : addr -> bool) (l : list addr) :
  (forall c, f c = false) -> count_if f l = 0.
Proof.
  intros H. induction l as [|c l IH]; [done|].
  by rewrite count_if_cons, H, IH.
Qed.

Lemma existsb_none (f : addr -> bool) (l : list addr) :
  (forall c, f c = false) -> existsb f l = false.
Proof. intros H. induction l as [|c l IH]; [done|]. simpl. by rewrite H, IH. Qed.

Lemma fresh_cards_face_down (cts : list string) (c : addr) :
  is_flipped (map (Card_init card_title) cts !!! c) = false.
Proof.
  revert c. induction cts as [|ct cts IH]; intros [|c]; try done.
  apply IH.
Qed.

(** Right after the start nobody has won. *)
Lemma decided_fresh (w w' : State) :
  dealt_from card_title w w' -> cobjs w = [] -> decided w' = None.
Proof.
  intros (Hne & _ & _ & _ & _ & Ha & _ & Hc & _) Hnil.
  rewrite Hnil in Hc. simpl in Hc.
  assert (forall c, face_up w' c = false) as Hdown.
  { intros c. unfold face_up. rewrite Hc. apply fresh_cards_face_down. }
  unfold decided, signs_revealed, cthulhu_revealed, cards_revealed.
  rewrite (count_if_none (up_sign w')), (count_if_none (face_up w')),
    (existsb_none (up_cthulhu w')); try done.
  2,3: intros c; unfold up_cthulhu, up_sign; by rewrite Hdown.
  assert (0 < count_active w') as Hn.
  { rewrite count_active_length, Ha. destruct (active w); [done|simpl; lia]. }
  rewrite !(proj2 (Nat.leb_gt _ _)) by lia. done.
Qed.

(** X22 (Game.check_winner, Game.new_turn, Game.set_claim,
    Game.investigate, Game.new_round, Game.start_game): the winner follows
    the table.  In every state reached by calls that remove no active
    player from a started game, no winner is recorded before
    [start_game] has run to its end, and after it the recorded winner is
    what the win rule gives on the cards as they lie: Investigator when
    the face-up Elder Signs in the hands of the active players and the
    discard are at least as many as the active players; otherwise Cultist
    when a Cthulhu card is face-up there or the face-up cards are at least
    four times the active players; otherwise no winner. *)
Theorem winner_follows_the_table (w : State) :
  reachable_by card_title role_info stays w ->
  (~ started w -> winner w = None) /\
  (started w -> winner w = decided w).
Proof.
  intros Hw. split.
  { intros Hns. destruct (round_counter w) as [n|] eqn:E.
    - destruct Hns. by exists n.
    - pose proof (reachable_Unset w Hw E) as HU.
      unfold Unset, unset in HU. congruence. }
  induction Hw as [n|w op w' Hw IH [Hp Hr] Hstay Hcall].
  { by intros [? [=]]. }
  intros Hst'.
  assert (reachable_by card_title role_info stays w') as Hw'.
  { by apply (reach_call _ _ _ w op). }
  pose proof (reachable_Sound w Hw) as HS.
  pose proof (reachable_Sound w' Hw') as HS'.
  pose proof (reachable_Stowed w' Hw' Hst') as HT'.
  destruct (decide (started w)) as [Hst|Hst].
  - pose proof (reachable_Stowed w Hw Hst) as HT. specialize (IH Hst).
    assert (cobjs w' = cobjs w -> winner w' = winner w ->
            winner w' = decided w') as Hsame.
    { intros Hc Hv. rewrite Hv, IH. symmetry. apply decided_perm; [| |done].
      - destruct HS as (_ & _ & H5), HS' as (_ & _ & H5').
        destruct Hst as [k Hk], Hst' as [k' Hk']. rewrite Hk in H5.
        rewrite Hk' in H5'. destruct H5 as (_ & _ & H5), H5' as (_ & _ & H5').
        rewrite Hc in H5'. lia.
      - rewrite (Stowed_chained _ _ _ HT), (Stowed_chained _ _ _ HT').
        by rewrite Hc. }
    revert Hcall Hr. destruct op as [p pl|p|r|p b e c r|u t pos r|]; simpl;
      intros Hcall Hr.
    + apply Hsame;
        [apply (post_after (add_player p pl) w w'
                  (fun w' => cobjs w' = cobjs w))
        |apply (post_after (add_player p pl) w w'
                  (fun w' => winner w' = winner w))]; try done;
        unfold post, add_player, upd_player; wp_steps; done.
    + apply Hsame;
        [apply (post_after (remove_player p) w w'
                  (fun w' => cobjs w' = cobjs w))
        |apply (post_after (remove_player p) w w'
                  (fun w' => winner w' = winner w))]; try done;
        unfold post, remove_player; wp_steps; done.
    + assert (game_status w <> Unstarted) as Hu.
      { destruct HS as (_ & _ & H5). destruct Hst as [k Hk].
        rewrite Hk in H5. by destruct H5 as (? & _). }
      unfold start_game, bind, gets in Hcall.
      rewrite bool_decide_true in Hcall by done.
      injection Hcall as <-. done.
    + apply (post_after (set_claim card_title p b e c r) w w'
               (fun w' => winner w' = decided w')); [|done].
      apply (judged_set_claim _ _ _ _ _ _ _ _ (Hr r eq_refl) HT IH).
    + apply (post_after (investigate u t pos r) w w'
               (fun w' => winner w' = decided w')); [|done].
      apply (judged_investigate _ _ _ _ _ _ _ (Hr r eq_refl) HT); [|done].
      intros d Hd%elem_of_seq. lia.
    + apply Hsame;
        [apply (post_after end_game w w' (fun w' => cobjs w' = cobjs w))
        |apply (post_after end_game w w' (fun w' => winner w' = winner w))];
        try done; unfold post, end_game; wp_steps; done.
  - assert (round_counter w = None) as Hn.
    { destruct (round_counter w) as [k|] eqn:E; [|done].
      destruct Hst. by exists k. }
    pose proof (reachable_Unset w Hw Hn) as HU.
    pose proof (post_after _ _ _ _ (call_clock op w) Hcall) as Hclock.
    destruct Hst' as [k' Hk'].
    destruct Hclock as [Hc|[[_ Hc]|(r & -> & Hu & Hc)]];
      [unfold clock in Hc; congruence|unfold clock in Hc; congruence|].
    simpl in Hcall, Hr.
    assert (winner w' = winner w) as Hv.
    { apply (post_after (start_game card_title role_info r) w w'
               (fun w' => winner w' = winner w)); [|done].
      by apply stable_winner_start_game. }
    assert (fair r) as Hfr by (by apply Hr).
    pose proof (start_game_wp r w Hu
                  ltac:(destruct HS as (? & _); by apply list.NoDup_filter)
                  Hfr) as Hwp.
    unfold wp in Hwp.
    destruct (start_game card_title role_info r w) as [[] w1|e w1|]; [| |done].
    + injection Hcall as ->. rewrite Hv.
      rewrite (decided_fresh w w' Hwp).
      * unfold Unset, unset in HU. congruence.
      * destruct HS as (_ & _ & H5). by rewrite Hn in H5.
    + injection Hcall as ->. destruct Hwp as [[Hw1 _] _].
      rewrite Hw1 in Hk'. simpl in Hk'. congruence.
Qed.

(** ** What is revealed stays revealed *)

Lemma call_cards_made (op : Op) (w : State) :
  game_status w <> Unstarted ->
  post (call card_title role_info op) w
    (fun w' => length (cobjs w') = length (cobjs w)).
Proof.
  intros Hu. destruct op as [p pl|p|r|p b e c r|u t pos r|]; simpl.
  - unfold post, add_player, upd_player. wp_steps; done.
  - unfold post, remove_player. wp_steps; done.
  - unfold post, start_game. apply wp_bind, wp_gets.
    rewrite bool_decide_true by done. by apply wp_raise.
  - assert (stable seats (set_claim card_title p b e c r)) as H.
    { apply stable_table_seats, stable_table_set_claim. }
    eapply wp_mono; [apply (H (seats w) w eq_refl)|..]; try done;
      cbv beta; unfold seats; intros; congruence.
  - eapply wp_mono;
      [apply (stable_seats_investigate u t pos r (seats w) w eq_refl)|..];
      try done; cbv beta; unfold seats; intros; congruence.
  - unfold post, end_game. wp_steps. done.
Qed.

(** X23 (every call of the game; Game.check_winner): what is revealed
    stays revealed.  In a started game that was reached by calls that
    remove no active player, one more such call leaves the number of
    active players as it is, and among the cards that [check_winner]
    scans (the hands of the active players and the discard) the face-up
    Elder Signs and the face-up cards are at least as many after the call
    as before, a face-up Cthulhu card is still there, and if the win rule
    gave the game to the Investigators before the call it does so after
    it: no such call, and no new round, takes a win from the
    Investigators. *)
Theorem revealed_stays_revealed (op : Op) (w w' : State) :
  reachable_by card_title role_info stays w -> started w ->
  op_ok w op -> stays w op ->
  after (call card_title role_info op w) = Some w' ->
  count_active w' = count_active w /\
  signs_revealed w <= signs_revealed w' /\
  cards_revealed w <= cards_revealed w' /\
  (cthulhu_revealed w = true -> cthulhu_revealed w' = true) /\
  (decided w = Some Investigator -> decided w' = Some Investigator).
Proof.
  intros Hw Hst Hok Hstay Hcall.
  assert (reachable_by card_title role_info stays w') as Hw'.
  { by apply (reach_call _ _ _ w op). }
  pose proof (reachable_Sound w Hw) as (_ & _ & H5).
  pose proof (reachable_Sound w' Hw') as (_ & _ & H5').
  pose proof (post_after _ _ _ _ (call_clock op w) Hcall) as Hclock.
  pose proof (post_after _ _ _ _ (call_ages op w) Hcall) as [_ Hages].
  assert (started w') as Hst'.
  { destruct Hst as [k Hk]. unfold started.
    destruct Hclock as [Hc|[[_ Hc]|(r & _ & _ & Hc)]]; unfold clock in Hc;
      [exists k|exists k|exists 1]; congruence. }
  pose proof (reachable_Stowed w Hw Hst) as HT.
  pose proof (reachable_Stowed w' Hw' Hst') as HT'.
  destruct Hst as [k Hk], Hst' as [k' Hk']. rewrite Hk in H5.
  rewrite Hk' in H5'. destruct H5 as (Hu & _ & H5), H5' as (_ & _ & H5').
  pose proof (post_after _ _ _ _ (call_cards_made op w Hu) Hcall) as Hlen.
  cbv beta in Hlen.
  assert (count_active w' = count_active w) as Hn by lia.
  assert (chained w' ≡ₚ chained w) as Hperm.
  { rewrite (Stowed_chained _ _ _ HT), (Stowed_chained _ _ _ HT').
    by rewrite Hlen. }
  assert (forall c, c ∈ chained w ->
            title_at w' c = title_at w c /\
            (face_up w c = true -> face_up w' c = true)) as Hup.
  { intros c Hc. apply Hages.
    rewrite (Stowed_chained _ _ _ HT) in Hc. apply elem_of_seq in Hc. lia. }
  assert (signs_revealed w <= signs_revealed w') as Hs.
  { unfold signs_revealed. rewrite (count_if_Permutation _ _ _ Hperm).
    apply count_if_mono. intros c Hin. destruct (Hup c Hin) as [Ht Hf].
    unfold up_sign. rewrite Ht. intros [H1 H2]%andb_true_iff.
    by rewrite (Hf H1), H2. }
  split; [done|]. split; [done|]. split; [|split].
  - unfold cards_revealed. rewrite (count_if_Permutation _ _ _ Hperm).
    apply count_if_mono. intros c Hin. by destruct (Hup c Hin) as [_ ?].
  - unfold cthulhu_revealed. rewrite (existsb_Permutation _ _ _ Hperm).
    apply existsb_mono. intros c Hin. destruct (Hup c Hin) as [Ht Hf].
    unfold up_cthulhu. rewrite Ht. intros [H1 H2]%andb_true_iff.
    by rewrite (Hf H1), H2.
  - unfold decided. rewrite Hn.
    destruct (count_active w <=? signs_revealed w) eqn:E.
    + apply Nat.leb_le in E. intros _.
      by rewrite (proj2 (Nat.leb_le _ _)) by lia.
    + by destruct (_ || _).
Qed.

End Proofs.


(** * The sample game *)

Import Sample.

(** The shuffles of a run of the sample game are fair. *)
Ltac fair_run :=
  cbv [all_fair app op_random look joining claiming two_up_ops first_round
       overruled_ops short_ops own_round worn_ops early_look_ops
       replicate
       five_joined_ops];
  repeat (apply conj;
          [intros ? [=]; subst;
           first [apply fair_in_order | apply fair_reversed]|]);
  exact I.

(** A state of the sample game is reachable: its run checks. *)
Ltac by_run strict ops n :=
  apply (checked_reachable titles roles_tbl strict ops (Game_init n));
  [apply reach_init | fair_run | vm_compute; reflexivity
  | vm_compute; reflexivity].

Lemma reachable_claimed : reachable titles roles_tbl claimed.
Proof. by_run false (joining ++ claiming) 4. Qed.

Lemma reachable_two_up : reachable titles roles_tbl two_up.
Proof. by_run false two_up_ops 4. Qed.

Lemma reachable_overruled : reachable titles roles_tbl overruled.
Proof. by_run false overruled_ops 4. Qed.

Lemma staying_redealt : reachable_by titles roles_tbl stays redealt.
Proof. by_run true first_round 4. Qed.

Lemma reachable_short : reachable titles roles_tbl short.
Proof. by_run false short_ops 4. Qed.

Lemma reachable_worn : reachable titles roles_tbl worn.
Proof. by_run false worn_ops 4. Qed.

(** ** C1 *)

(** C1 fails as stated: in the reachable state [overruled] a Cthulhu card
    is face-up (card 0, in the discard) and three Elder Signs are face-up
    for three active players; [check_winner] leaves Investigator as the
    winner. *)
Lemma check_winner_investigator_overrules :
  reachable titles roles_tbl overruled /\
  cthulhu_revealed overruled = true /\
  count_active overruled <= signs_revealed overruled /\
  exists w', check_winner overruled = Ok tt w' /\
             winner w' = Some Investigator.
Proof.
  split; [apply reachable_overruled|]. split; [reflexivity|].
  split; [vm_compute; lia|]. eexists. split; vm_compute; reflexivity.
Qed.

Lemma check_winner_cthulhu_then_signs_witness :
  cthulhu_revealed overruled = true /\
  exists w', check_winner overruled = Ok tt w' /\
    winner w' = if count_active overruled <=? signs_revealed overruled
                then Some Investigator else Some Cultist.
Proof.
  split; [reflexivity|].
  apply (check_winner_cthulhu_then_signs overruled).
  - apply (in_playb_in_play overruled). vm_compute. reflexivity.
  - apply (in_playb_in_play overruled). vm_compute. reflexivity.
  - reflexivity.
Defined.

(** ** C2 *)

(** C2 fails on the code: [investigate] clears the flashlight of the user
    before [reveal_card] validates.  In the reachable state [claimed]
    player 0 holds the flashlight and the card at position 1 of player 1's
    hand is face-down; [investigate] with that position raises, and
    player 0 has lost the flashlight.  In the reachable state [worn]
    player 0 holds the flashlight and both cards of the own hand are
    face-up; [investigate] at that hand without a position raises, and
    player 0 has lost the flashlight. *)
Theorem investigate_raise_drops_flashlight :
  (reachable titles roles_tbl claimed /\
   holds_flashlight (pobjs claimed !!! 0) = true /\
   exists w', investigate 0 1 (Some 1%Z) in_order claimed
              = Raise (GameError "No card to flip!") w' /\
              holds_flashlight (pobjs w' !!! 0) = false /\
              w' <> claimed) /\
  (reachable titles roles_tbl worn /\
   holds_flashlight (pobjs worn !!! 0) = true /\
   map (face_up worn) (hand worn 0) = [true; true] /\
   exists w', investigate 0 0 None in_order worn
              = Raise (GameError "All cards are faceup!") w' /\
              holds_flashlight (pobjs w' !!! 0) = false /\
              w' <> worn).
Proof.
  split.
  - split; [apply reachable_claimed|]. split; [reflexivity|].
    eexists. split; [vm_compute; reflexivity|]. split; [reflexivity|].
    intros H.
    apply (f_equal (fun w => holds_flashlight (pobjs w !!! 0))) in H.
    vm_compute in H. discriminate.
  - split; [apply reachable_worn|]. split; [reflexivity|].
    split; [reflexivity|].
    eexists. split; [vm_compute; reflexivity|]. split; [reflexivity|].
    intros H.
    apply (f_equal (fun w => holds_flashlight (pobjs w !!! 0))) in H.
    vm_compute in H. discriminate.
Qed.

(** ** C3 *)

(** C3 fails on the code: with a position given, [reveal_card] raises on a
    face-down card (card 4, at position 1 of player 1's hand in
    [claimed]) and leaves it face-down, and returns without an error on a
    card that is face-up already (card 2, at position 1 of player 1's hand
    in [overruled]). *)
Theorem reveal_card_position_inverted :
  (hand claimed 1 !! 1 = Some 4 /\ face_up claimed 4 = false /\
   reveal_card 1 (Some 1%Z) claimed
   = Raise (GameError "No card to flip!") claimed) /\
  (hand overruled 1 !! 1 = Some 2 /\ face_up overruled 2 = true /\
   reveal_card 1 (Some 1%Z) overruled = Ok tt overruled).
Proof. repeat split; vm_compute; reflexivity. Qed.

(** ** C4 *)

(** C4 fails as stated: [remove_player] takes a player out of a started
    game with the hand; in round 2 that is four cards, and eleven cards
    are left for two active players. *)
Lemma removal_loses_cards :
  reachable titles roles_tbl short /\
  started short /\ game_status short = Ongoing /\
  length (pool short) = 11 /\ 5 * count_active short = 10.
Proof.
  split; [apply reachable_short|]. split; [by eexists|].
  repeat split; vm_compute; reflexivity.
Qed.

Lemma cards_conserved_witness :
  started redealt /\
  pool redealt ≡ₚ seq 0 (length (cobjs redealt)) /\
  NoDup (pool redealt) /\
  length (pool redealt) = 5 * count_active redealt.
Proof.
  split; [by eexists|].
  apply (cards_conserved titles roles_tbl redealt).
  - apply staying_redealt.
  - by eexists.
Defined.

(** ** C5 *)

Lemma staying_early_look : reachable_by titles roles_tbl stays early_look.
Proof. by_run true early_look_ops 4. Qed.

(** C5 fails on the code.  [early_look] is reached with nobody removed and
    no position given to any investigation: three players start, player 0
    investigates player 1 while the phase is still Claims, players 1 and 2
    claim, and player 1 investigates the own hand twice.  Three cards are
    face-up and the turn is 3 of the Investigation phase.  The next
    investigation turns the fourth card and ends the round: [new_round]
    puts eleven face-down cards into the deck for three players, and
    [deal_cards] raises IndexError out of [investigate] with the deck
    empty and the hands at four, four and three cards.  Nobody has won. *)
Lemma redeal_deals_eleven_to_three :
  reachable_by titles roles_tbl stays early_look /\
  count_active early_look = 3 /\
  phase early_look = Some Investigation /\ turn early_look = Some 3 /\
  cards_revealed early_look = 3 /\ winner early_look = None /\
  exists w',
    call titles roles_tbl (look 1 1 None) early_look = Raise IndexError w' /\
    active w' = [0; 1; 2] /\
    deck w' = Some [] /\ discard w' = Some [1; 4; 7; 10] /\
    map (fun p => length (hand w' p)) (active w') = [4; 4; 3] /\
    winner w' = None.
Proof.
  split; [apply staying_early_look|].
  repeat (split; [reflexivity|]).
  eexists. split; [vm_compute; reflexivity|]. repeat split; reflexivity.
Qed.

(** ** C6 *)

Lemma at_most_one_flashlight_witness :
  game_status claimed = Ongoing /\
  holds_flashlight (pobjs claimed !!! 0) = true /\ 0 = 0.
Proof.
  split; [reflexivity|]. split; [reflexivity|].
  apply (at_most_one_flashlight titles roles_tbl claimed reachable_claimed
           eq_refl 0 0).
  - apply (bool_decide_unpack _). vm_compute. exact I.
  - apply (bool_decide_unpack _). vm_compute. exact I.
  - reflexivity.
  - reflexivity.
Defined.

(** ** C7 *)

(** C7 fails as stated: with two active players [create_deck] returns, and
    has made a deck of ten cards. *)
Lemma create_deck_two_players :
  count_active two_joined = 2 /\
  exists w', create_deck titles two_joined = Ok tt w' /\
             deck w' = Some (seq 0 10).
Proof.
  split; [reflexivity|]. eexists. split; vm_compute; reflexivity.
Qed.

(** ** C8 *)

Lemma start_game_five_players_witness :
  let made := map (Card_init titles)
                (["Cthulhu"] ++ replicate 5 "Elder Sign"
                 ++ replicate 19 "Blank") in
  (exists w1, create_deck titles five_joined = Ok tt w1 /\
     cobjs w1 = cobjs five_joined ++ made /\
     deck w1 = Some (seq (length (cobjs five_joined)) 25)) /\
  exists w', start_game titles roles_tbl reversed five_joined = Ok tt w' /\
    cobjs w' = cobjs five_joined ++ made /\
    deck w' = Some [] /\
    concat (map (hand w') (active w'))
      ≡ₚ seq (length (cobjs five_joined)) 25 /\
    forall p, p ∈ active w' -> length (hand w' p) = 5.
Proof.
  apply (start_game_five_players titles roles_tbl reversed five_joined 4 2).
  - apply fair_reversed.
  - reflexivity.
  - apply (bool_decide_unpack _). vm_compute. exact I.
  - reflexivity.
  - reflexivity.
  - lia.
Defined.

(** ** C9 *)

Lemma new_round_round_trip_witness :
  exists w', after (new_round in_order overruled) = Some w' /\
    pool w' ≡ₚ pool overruled /\
    length (pool w') = length (pool overruled) /\
    map (title_at w') (pool w') ≡ₚ map (title_at overruled) (pool overruled).
Proof.
  apply (new_round_round_trip in_order overruled).
  - apply fair_in_order.
  - apply in_playb_in_play. vm_compute. reflexivity.
  - discriminate.
Defined.

(** ** C10 *)

Lemma reveal_card_position_zero_witness :
  face_up overruled 11 = true /\ hand overruled 1 !! 0 = Some 11 /\
  reveal_card 1 (Some 0%Z) overruled = reveal_card 1 None overruled /\
  exists c, first_face_down overruled (hand overruled 1) = Some c /\
            reveal_card 1 (Some 0%Z) overruled
            = Ok tt (set_cobjs (alter card_flip_up c) overruled).
Proof.
  split; [reflexivity|]. split; [reflexivity|].
  apply (reveal_card_position_zero 1 overruled).
  exists 7. split; [|reflexivity].
  apply (bool_decide_unpack _). vm_compute. exact I.
Defined.

(** * Properties beyond the claims, on the sample game *)

Lemma reachable_dealt : reachable titles roles_tbl dealt.
Proof. by_run false joining 4. Qed.

Lemma reachable_watched : reachable titles roles_tbl watched.
Proof.
  apply (reach_call titles roles_tbl _ dealt (AddPlayer 3 false));
    [apply reachable_dealt| |done|vm_compute; reflexivity].
  split; [|by intros r [=]].
  intros p ->%list_elem_of_singleton. vm_compute. lia.
Qed.

Lemma NoDup_three : NoDup [0; 1; 2].
Proof. apply (bool_decide_unpack _). vm_compute. exact I. Qed.

(** ** X1 *)

Lemma hand_summary_lists_titles_witness :
  hand_summary 0 claimed
  = Ok "1 Cthulhu(s), 1 Elder Sign(s), 3 Blank(s), " claimed /\
  hand_summary 3 claimed
  = Raise (GameError "It appears this player isn't in a game.") claimed.
Proof.
  split.
  - rewrite (proj1 (hand_summary_lists_titles 0 claimed)). reflexivity.
  - rewrite (proj1 (hand_summary_lists_titles 3 claimed)). reflexivity.
Defined.

(** ** X2 *)

Lemma get_next_player_cycles_witness :
  get_next_player 3 claimed = Raise ValueError claimed /\
  get_next_player 1 claimed = Ok 2 claimed /\
  get_next_player 2 claimed = Ok 0 claimed.
Proof.
  split; [|split].
  - apply (proj1 (get_next_player_cycles 3 claimed)).
    apply (bool_decide_unpack _). vm_compute. exact I.
  - apply (proj2 (proj2 (get_next_player_cycles 1 claimed)) [0] [2]).
    + apply NoDup_three.
    + reflexivity.
  - apply (proj2 (proj2 (get_next_player_cycles 2 claimed)) [0; 1] []).
    + apply NoDup_three.
    + reflexivity.
Defined.

(** ** X3 *)

Lemma game_status_moves_forward_witness :
  (game_status dealt = game_status three_joined \/
   (StartGame reversed = EndGame /\ game_status dealt = Ended) \/
   (exists r, StartGame reversed = StartGame r /\
              game_status three_joined = Unstarted /\
              game_status dealt = Ongoing)) /\
  (game_status three_joined = Ended -> game_status dealt = Ended) /\
  (game_status three_joined <> Unstarted -> game_status dealt <> Unstarted).
Proof.
  apply (game_status_moves_forward titles roles_tbl (StartGame reversed)
           three_joined dealt).
  vm_compute. reflexivity.
Defined.

(** ** X4 *)

Lemma round_counter_stays_one_witness :
  discard overruled = Some [0; 3; 1] /\
  (round_counter overruled = None \/ round_counter overruled = Some 1) /\
  (game_status overruled = Ongoing -> round_counter overruled = Some 1).
Proof.
  split; [reflexivity|].
  apply (round_counter_stays_one titles roles_tbl overruled).
  apply reachable_overruled.
Defined.

(** ** X5 *)

Lemma roster_splits_witness :
  active watched = [0; 1; 2] /\ spectators watched = [3] /\
  NoDup (players watched) /\
  (forall p, p ∈ players watched -> p ∈ active watched <-> p ∉ spectators watched)
  /\ length (active watched) + length (spectators watched)
     = length (players watched).
Proof.
  split; [reflexivity|]. split; [reflexivity|].
  apply (roster_splits titles roles_tbl watched), reachable_watched.
Defined.

(** ** X6 *)

Lemma claims_and_looks_keep_the_cast_witness :
  players one_up = players claimed /\
  map status (pobjs one_up) = map status (pobjs claimed) /\
  roles_of one_up = roles_of claimed /\ claims_of one_up = claims_of claimed.
Proof.
  apply (proj2 (claims_and_looks_keep_the_cast titles)
           0 0 None in_order claimed one_up).
  vm_compute. reflexivity.
Defined.

(** ** X7 *)

Lemma cards_only_turn_up_witness :
  face_up claimed 0 = false /\ face_up one_up 0 = true /\
  length (cobjs claimed) <= length (cobjs one_up) /\
  forall c, c < length (cobjs claimed) ->
    title_at one_up c = title_at claimed c /\
    (face_up claimed c = true -> face_up one_up c = true).
Proof.
  split; [reflexivity|]. split; [reflexivity|].
  apply (cards_only_turn_up titles roles_tbl (look 0 0 None) claimed one_up).
  vm_compute. reflexivity.
Defined.

(** ** X8 *)

Lemma start_game_seats_the_players_witness :
  game_status three_joined = Unstarted /\
  phase dealt = Some Claims /\ turn dealt = Some 1 /\
  exists ni nc, roles_tbl (count_active three_joined) = Some (ni, nc) /\
    (forall i p, active three_joined !! i = Some p ->
       exists gd, gd_at dealt p = Some gd /\
         shuffle_roles reversed
           (replicate ni Investigator ++ replicate nc Cultist)
           !! i = Some (role gd) /\
         can_claim gd = true /\ claim gd = None /\
         has_flashlight gd
         = bool_decide (i = choice reversed `mod` length (active three_joined))
         /\ role_summary p dealt = Ok (role gd) dealt) /\
    (forall q, q ∉ active three_joined ->
               pobjs dealt !!! q = pobjs three_joined !!! q).
Proof.
  apply (start_game_seats_the_players titles roles_tbl reversed
           three_joined dealt).
  - apply NoDup_three.
  - vm_compute. reflexivity.
Defined.

(** ** X9 *)

Lemma current_player_holds_the_flashlight_witness :
  (get_current_player dealt
   = Ok (head (filter (may_claim dealt) (active dealt))) dealt) /\
  (exists res, get_current_player claimed = Ok res claimed /\
     match res with
     | Some p => p ∈ active claimed /\ lit claimed p /\
                 forall q, lit claimed q -> q = p
     | None => forall q, q ∈ active claimed -> ~ lit claimed q
     end).
Proof.
  split.
  - apply (proj1 (current_player_holds_the_flashlight titles roles_tbl dealt
                    reachable_dealt
                    (proj1 (proj2 (in_playb_in_play dealt eq_refl))))).
    reflexivity.
  - apply (proj2 (current_player_holds_the_flashlight titles roles_tbl claimed
                    reachable_claimed
                    (proj1 (proj2 (in_playb_in_play claimed eq_refl))))).
    reflexivity.
Defined.

(** ** X10 *)

Lemma new_round_lets_the_holder_claim_witness :
  phase reclaimed = Some Claims /\ turn reclaimed = Some 1 /\
  active reclaimed = active claimed /\ lights reclaimed = lights claimed /\
  forall p, p ∈ active claimed ->
    exists gd, gd_at reclaimed p = Some gd /\
               can_claim gd = has_flashlight gd.
Proof.
  apply (new_round_lets_the_holder_claim in_order claimed reclaimed).
  vm_compute. reflexivity.
Defined.

(** ** X11 *)

Lemma game_error_leaves_the_state_witness :
  dimmed = claimed \/
  exists u t pos r gd,
    look 0 1 (Some 1%Z) = Investigate u t pos r /\
    gd_at claimed u = Some gd /\ has_flashlight gd = true /\
    ("No card to flip!" = "No card to flip!"
     \/ "No card to flip!" = "All cards are faceup!") /\
    dimmed
    = set_pobjs (alter (with_game_data (set_has_flashlight false gd)) u)
        claimed.
Proof.
  apply (game_error_leaves_the_state titles roles_tbl (look 0 1 (Some 1%Z))
           claimed dimmed "No card to flip!").
  vm_compute. reflexivity.
Defined.

(** ** X12 *)


(** ** X13 *)

Lemma deal_cards_hands_out_every_card_witness :
  deal_cards in_order gathered = Raise IndexError uneven /\
  map (fun p => length (hand uneven p)) (active uneven) = [5; 4; 4] /\
  exists w',
    deal_cards in_order gathered
    = (if decide (13 `mod` 3 = 0) then Ok tt w' else Raise IndexError w') /\
    deck w' = Some [] /\ discard w' = discard gathered /\
    cobjs w' = cobjs gathered /\ active w' = active gathered /\
    (forall i p, active gathered !! i = Some p ->
       length (hand w' p)
       = length (hand gathered p) + 13 / 3
         + (if i <? 13 `mod` 3 then 1 else 0)) /\
    (forall p, p ∉ active gathered -> hand w' p = hand gathered p) /\
    players w' = players gathered /\ clock w' = clock gathered /\
    tempo w' = tempo gathered /\ winner w' = winner gathered /\
    (forall q, persona (pobjs w' !!! q) = persona (pobjs gathered !!! q)).
Proof.
  split; [vm_compute; reflexivity|]. split; [reflexivity|].
  apply (deal_cards_hands_out_every_card in_order gathered
           [6; 9; 12; 1; 4; 7; 10; 13; 2; 5; 8; 11; 14]).
  - apply fair_in_order.
  - apply in_playb_in_play. vm_compute. reflexivity.
  - discriminate.
  - reflexivity.
Defined.

(** ** X14 *)

Lemma new_turn_moves_the_clock_witness :
  count_active ticked = count_active claimed /\
  exists t, turn claimed = Some t /\
    if t + 1 <=? count_active claimed
    then turn ticked = Some (t + 1) /\ phase ticked = phase claimed
    else turn ticked = Some 1 /\
         exists ph, phase claimed = Some ph /\
                    phase ticked = Some (other_phase ph).
Proof.
  apply (new_turn_moves_the_clock in_order claimed ticked).
  vm_compute. reflexivity.
Defined.

(** ** X15 *)

Lemma check_winner_decides_witness :
  exists w', check_winner two_up = Ok tt w' /\
    winner w'
    = (if count_active two_up <=? signs_revealed two_up
       then Some Investigator
       else if cthulhu_revealed two_up
               || (count_active two_up * 4 <=? cards_revealed two_up)
            then Some Cultist
            else winner two_up) /\
    match winner w' with
    | Some ro => w' = set_winner ro two_up
    | None => w' = two_up
    end /\
    check_winner w' = Ok tt w'.
Proof.
  apply (check_winner_decides two_up).
  - apply (in_playb_in_play two_up). vm_compute. reflexivity.
  - apply (in_playb_in_play two_up). vm_compute. reflexivity.
Defined.

(** ** X16 *)

Lemma investigate_passes_the_flashlight_witness :
  lit claimed 0 /\ lit passed 1 /\ (0 <> 1 -> ~ lit passed 0) /\
  (forall q, q <> 0 -> q <> 1 -> lit passed q <-> lit claimed q) /\
  (truthy None = false ->
   exists c, first_face_down claimed (hand claimed 1) = Some c /\
             cobjs passed = alter card_flip_up c (cobjs claimed)) /\
  (truthy None = true -> cobjs passed = cobjs claimed).
Proof.
  apply (investigate_passes_the_flashlight 0 1 None in_order claimed passed).
  vm_compute. reflexivity.
Defined.

(** ** X17 *)

Lemma start_game_on_an_empty_table_witness :
  start_game titles roles_zero in_order (Game_init 0) = Diverge /\
  start_game titles roles_tbl in_order (Game_init 0)
  = Raise (GameError "Failed to find a role setup.") (Game_init 0).
Proof.
  split.
  - apply (start_game_on_an_empty_table titles roles_zero in_order
             (Game_init 0)); [reflexivity|reflexivity|apply fair_in_order].
  - apply (start_game_on_an_empty_table titles roles_tbl in_order
             (Game_init 0)); [reflexivity|reflexivity|apply fair_in_order].
Defined.

(** ** X18 *)

Lemma joining_and_leaving_witness :
  (forall b, exists msg, add_player 0 b claimed = Raise (GameError msg) claimed)
  /\ add_player 3 true claimed
     = Raise (GameError "The game has already started.") claimed
  /\ exists w', add_player 3 false claimed = Ok tt w' /\
       players w' = players claimed ++ [3] /\
       status (pobjs w' !!! 3) = Spectating /\
       remove_player 3 w' = Ok tt (set_players (players claimed) w').
Proof.
  split; [|split].
  - apply (proj1 (joining_and_leaving titles roles_tbl 0 claimed
                    reachable_claimed ltac:(vm_compute; lia))).
    apply (bool_decide_unpack _). vm_compute. exact I.
  - apply (proj2 (joining_and_leaving titles roles_tbl 3 claimed
                    reachable_claimed ltac:(vm_compute; lia))).
    + apply (bool_decide_unpack _). vm_compute. exact I.
    + discriminate.
  - apply (proj2 (joining_and_leaving titles roles_tbl 3 claimed
                    reachable_claimed ltac:(vm_compute; lia))).
    + apply (bool_decide_unpack _). vm_compute. exact I.
    + by right.
Defined.

(** ** X19 *)

Lemma player_methods_witness :
  (exists w1,
     give_card 0 14 claimed = Ok tt w1 /\
     hand w1 0 = hand claimed 0 ++ [14] /\
     persona (pobjs w1 !!! 0) = persona (pobjs claimed !!! 0)) /\
  bind (toggle_flashlight 0) (fun _ => toggle_flashlight 0) claimed
  = Ok tt claimed.
Proof.
  apply (proj1 (proj2 (player_methods 0 14 claimed))).
  by eexists.
Defined.

(** ** X20 *)

Lemma claims_go_round_witness :
  phase dealt = Some Claims /\
  set_claim titles 0 4 1 0 in_order dealt = Ok tt first_claim /\
  exists q, get_next_player 0 dealt = Ok q dealt /\ q ∈ active dealt /\
    may_claim first_claim q /\
    (phase first_claim = Some Claims \/
     phase first_claim = Some Investigation) /\
    (phase first_claim = Some Claims -> q <> 0 -> ~ may_claim first_claim 0) /\
    (phase first_claim = Some Investigation ->
     forall a, a ∈ active dealt -> may_claim first_claim a).
Proof.
  split; [reflexivity|]. split; [vm_compute; reflexivity|].
  apply (claims_go_round titles 0 4 1 0 in_order dealt first_claim);
    [reflexivity|vm_compute; reflexivity].
Defined.

(** ** X21 *)

Lemma deck_is_dealt_out_witness :
  started redealt /\ deck redealt = Some [] /\
  chained redealt ≡ₚ seq 0 (length (cobjs redealt)).
Proof.
  split; [eexists; reflexivity|].
  apply (deck_is_dealt_out titles roles_tbl redealt);
    [apply staying_redealt|eexists; reflexivity].
Defined.

(** ** X22 *)

Lemma staying_overruled : reachable_by titles roles_tbl stays overruled.
Proof. by_run true overruled_ops 4. Qed.

Lemma winner_follows_the_table_witness :
  winner overruled = Some Investigator /\
  (~ started overruled -> winner overruled = None) /\
  (started overruled -> winner overruled = decided overruled).
Proof.
  split; [reflexivity|].
  apply (winner_follows_the_table titles roles_tbl overruled).
  apply staying_overruled.
Defined.

(** ** X23 *)

Lemma revealed_stays_revealed_witness :
  after (call titles roles_tbl (look 1 2 None) overruled) = Some third_look /\
  cards_revealed overruled = 5 /\ cards_revealed third_look = 6 /\
  decided overruled = Some Investigator /\
  count_active third_look = count_active overruled /\
  signs_revealed overruled <= signs_revealed third_look /\
  cards_revealed overruled <= cards_revealed third_look /\
  (cthulhu_revealed overruled = true -> cthulhu_revealed third_look = true) /\
  (decided overruled = Some Investigator ->
   decided third_look = Some Investigator).
Proof.
  split; [vm_compute; reflexivity|]. split; [reflexivity|].
  split; [reflexivity|]. split; [reflexivity|].
  apply (revealed_stays_revealed titles roles_tbl (look 1 2 None) overruled
           third_look).
  - apply staying_overruled.
  - eexists. reflexivity.
  - split.
    + intros p Hp. change (p ∈ [1; 2]) in Hp.
      apply elem_of_cons in Hp as [->|Hp]; [vm_compute; lia|].
      apply list_elem_of_singleton in Hp as ->. vm_compute. lia.
    + intros r [= <-]. apply fair_in_order.
  - exact I.
  - vm_compute. reflexivity.
Defined.
